(** * AutoShutdown: the front end's timers, refresh and display names

    A shallow embedding of [src/App.tsx] (the React component [App]) and
    the properties of its two countdown slots, of the process-list refresh
    and of [getAppDisplayName].

    Conventions of the embedding.
    - A string is a [string] of bytes holding the UTF-8 encoding of the
      JavaScript string.
    - A JavaScript number is a [number]: the rational value of a finite
      binary64, or NaN, or one of the two infinities.  The conversion of a
      decimal literal, [*], [+] and [-] round their exact result to the
      nearest binary64, ties to even, with gradual underflow and overflow
      to an infinity ([Num.round64]).  The sign of a zero is not kept: the
      component compares, multiplies, adds, takes the floor and tests the
      truthiness of its numbers, and none of these tells the two zeros
      apart in a result that is not itself a zero.
    - One render of the component is one value of [State]; a closure
      created during a render reads that render's values for good, while
      the setters and the refs act on the live [World].
    - Every event (a click, a timer, a settled promise) runs to completion
      and is committed before the next one; a state updater runs once. *)

From Stdlib Require Import ZArith QArith Qround String Ascii List Lia Bool.
From stdpp Require Import base option gmap strings list.

Local Close Scope Q_scope.
Local Open Scope string_scope.
Local Open Scope list_scope.

(** ** The JavaScript built-ins the component calls *)

Module JS.

(** The bytes of a string given by their codes. *)
Fixpoint bytes (l : list nat) : string :=
  match l with
  | [] => ""
  | b :: l' => String (ascii_of_nat b) (bytes l')
  end.

(** [s.startsWith(p)] *)
Definition startsWith (s p : string) : bool := String.prefix p s.

(** [s.slice(0, n)] and [s.slice(n)] *)
Fixpoint take (n : nat) (s : string) : string :=
  match n, s with
  | S n', String c s' => String c (take n' s')
  | _, _ => ""
  end.

Fixpoint drop (n : nat) (s : string) : string :=
  match n, s with
  | S n', String _ s' => drop n' s'
  | _, _ => s
  end.

(** [s.indexOf(p)], with [None] for -1 *)
Fixpoint indexOf (s p : string) : option nat :=
  if startsWith s p then Some 0
  else match s with
       | "" => None
       | String _ s' => S <$> indexOf s' p
       end.

(** [s.includes(p)] *)
Definition includes (s p : string) : bool :=
  match indexOf s p with Some _ => true | None => false end.

(** [s.replace(pat, by)] for a string pattern: the first occurrence only *)
Definition replace (s pat by_ : string) : string :=
  match indexOf s pat with
  | None => s
  | Some i => take i s ++ by_ ++ drop (i + String.length pat) s
  end.

(** [s.split(sep)] for a non-empty separator *)
Fixpoint split_from (fuel : nat) (s sep : string) : list string :=
  match indexOf s sep, fuel with
  | Some i, S fuel' =>
      take i s :: split_from fuel' (drop (i + String.length sep) s) sep
  | _, _ => [s]
  end.

Definition split (s sep : string) : list string :=
  split_from (String.length s) s sep.

(** [a[0]] on an array of strings ([undefined] does not arise: [split]
    never returns an empty array) *)
Definition first (a : list string) : string := hd "" a.

(** [s.toLowerCase()]: the letters A-Z are mapped, every other byte is kept.
    (Outside ASCII the built-in maps more letters; none of them yields one of
    the letters that the keys of [browsers] are made of in a position where
    it could complete a key.) *)
Definition lower (c : ascii) : ascii :=
  let n := nat_of_ascii c in
  if (65 <=? n)%nat && (n <=? 90)%nat then ascii_of_nat (n + 32) else c.

Fixpoint toLowerCase (s : string) : string :=
  match s with
  | "" => ""
  | String c s' => String (lower c) (toLowerCase s')
  end.

(** White space and line terminators of ECMAScript, in UTF-8:
    TAB, LF, VT, FF, CR, SP, U+00A0, U+1680, U+2000..U+200A, U+2028, U+2029,
    U+202F, U+205F, U+3000, U+FEFF. *)
Definition whitespace : list string :=
  map bytes
    [ [9]; [10]; [11]; [12]; [13]; [32]; [194; 160]; [225; 154; 128];
      [226; 128; 128]; [226; 128; 129]; [226; 128; 130]; [226; 128; 131];
      [226; 128; 132]; [226; 128; 133]; [226; 128; 134]; [226; 128; 135];
      [226; 128; 136]; [226; 128; 137]; [226; 128; 138]; [226; 128; 168];
      [226; 128; 169]; [226; 128; 175]; [226; 129; 159]; [227; 128; 128];
      [239; 187; 191] ].

(** The white-space character at the head of [s], if there is one. *)
Definition leading_space (s : string) : option string :=
  List.find (startsWith s) whitespace.

(** [s.trimStart()] *)
Fixpoint trimStart_from (fuel : nat) (s : string) : string :=
  match leading_space s, fuel with
  | Some ws, S fuel' => trimStart_from fuel' (drop (String.length ws) s)
  | _, _ => s
  end.

Definition trimStart (s : string) : string :=
  trimStart_from (String.length s) s.

(** [s.trimEnd()]: the same scan on the reversed bytes, each white-space
    character being looked for reversed. *)
Definition trailing_space (r : string) : option string :=
  List.find (fun ws => startsWith r (String.rev ws)) whitespace.

Fixpoint trimEnd_from (fuel : nat) (r : string) : string :=
  match trailing_space r, fuel with
  | Some ws, S fuel' => trimEnd_from fuel' (drop (String.length ws) r)
  | _, _ => r
  end.

Definition trimEnd (s : string) : string :=
  String.rev (trimEnd_from (String.length s) (String.rev s)).

(** [s.trim()] *)
Definition trim (s : string) : string := trimEnd (trimStart s).

End JS.

(** ** [interface ProcessInfo] *)

Record ProcessInfo := {
  pid : Z;
  name : string;
  title : string;
  icon : option string
}.

#[global] Instance ProcessInfo_eq_dec : EqDecision ProcessInfo.
Proof. solve_decision. Defined.

(** ** [getAppDisplayName] *)

(** [Object.entries(browsers)]: the entries in insertion order. *)
Definition browsers : list (string * string) :=
  [ ("chrome", "Google Chrome");
    ("msedge", "Microsoft Edge");
    ("firefox", "Firefox");
    ("opera", "Opera");
    ("brave", "Brave") ].

Definition separators : list string := [" - "; " — "; " | "; " · "].

(** The loop [for (const [key, name] of Object.entries(browsers))]; [None]
    when the loop ends without returning. *)
Fixpoint browser_loop (entries : list (string * string)) (processName : string)
  : option string :=
  match entries with
  | [] => None
  | (key, friendly) :: rest =>
      if JS.includes processName key then Some friendly
      else browser_loop rest processName
  end.

(** The loop [for (const sep of separators)]. *)
Fixpoint separator_loop (seps : list string) (title : string) : option string :=
  match seps with
  | [] => None
  | sep :: rest =>
      if JS.includes title sep then Some (JS.trim (JS.first (JS.split title sep)))
      else separator_loop rest title
  end.

Definition getAppDisplayName (app : ProcessInfo) : string :=
  let title := title app in
  let processName := JS.toLowerCase (name app) in
  if decide (title = "") then
    JS.replace (JS.replace (name app) ".exe" "") ".EXE" ""
  else
    match browser_loop browsers processName with
    | Some friendly => friendly
    | None =>
        match separator_loop separators title with
        | Some shown => shown
        | None => title
        end
    end.

Definition proc (p : Z) (n t : string) : ProcessInfo :=
  {| pid := p; name := n; title := t; icon := None |}.

(** ** Numbers *)

Inductive number :=
  | NaN
  | PosInfinity
  | NegInfinity
  | Fin (q : Q).

Module Num.

(** A finite value is kept in lowest terms, so that equal numbers are equal
    terms. *)
Definition fin (q : Q) : number := Fin (Qred q).

Definition of_Z (z : Z) : number := Fin (inject_Z z).

(** [n / d] rounded to the nearest integer, a tie going to the even one. *)
Definition nearest_even (n d : Z) : Z :=
  let k := (n / d)%Z in
  match (2 * (n mod d) ?= d)%Z with
  | Lt => k
  | Gt => (k + 1)%Z
  | Eq => if Z.even k then k else (k + 1)%Z
  end.

(** The least positive binary64 is [2 ^ -1074]; magnitudes are rounded in
    units of it. *)
Definition unit_bits : Z := 1074.

(** The binary64 values from [2 ^ e] to below [2 ^ (e + 1)] are [2 ^ (e - 52)]
    apart, and those below [2 ^ -1022] one unit apart: for [n / d] units,
    the spacing is [2 ^ spacing n d] units. *)
Definition spacing (n d : Z) : Z := Z.max 0 (Z.log2 (n / d) - 52).

(** The magnitude [n / d], in units, rounded to a multiple of its spacing. *)
Definition nearest (n d : Z) : Z :=
  (nearest_even n (d * 2 ^ spacing n d) * 2 ^ spacing n d)%Z.

(** The number of units of the binary64 nearest to the magnitude of [q]. *)
Definition units (q : Q) : Z :=
  nearest (Z.abs (Qnum q) * 2 ^ unit_bits) (Zpos (Qden q)).

(** The binary64 nearest to a rational, ties to even: an infinity from
    [2 ^ 1024] on, that is [2 ^ 2098] units. *)
Definition round64 (q : Q) : number :=
  let r := Qred q in
  let u := units r in
  if (2 ^ 2098 <=? u)%Z then
    if (Qnum r <? 0)%Z then NegInfinity else PosInfinity
  else fin (Qmake (Z.sgn (Qnum r) * u) (Z.to_pos (2 ^ unit_bits))).

Definition neg (x : number) : number :=
  match x with
  | NaN => NaN
  | PosInfinity => NegInfinity
  | NegInfinity => PosInfinity
  | Fin q => fin (Qopp q)
  end.

(** An infinity times a finite value. *)
Definition scale_inf (i : number) (q : Q) : number :=
  match Qcompare q 0 with
  | Eq => NaN
  | Gt => i
  | Lt => neg i
  end.

(** [x * y] *)
Definition mul (x y : number) : number :=
  match x, y with
  | NaN, _ | _, NaN => NaN
  | Fin a, Fin b => round64 (Qmult a b)
  | Fin a, i => scale_inf i a
  | i, Fin b => scale_inf i b
  | PosInfinity, PosInfinity | NegInfinity, NegInfinity => PosInfinity
  | _, _ => NegInfinity
  end.

(** [x + y] *)
Definition add (x y : number) : number :=
  match x, y with
  | NaN, _ | _, NaN => NaN
  | Fin a, Fin b => round64 (Qplus a b)
  | PosInfinity, NegInfinity | NegInfinity, PosInfinity => NaN
  | PosInfinity, _ | _, PosInfinity => PosInfinity
  | NegInfinity, _ | _, NegInfinity => NegInfinity
  end.

(** [x - y] *)
Definition sub (x y : number) : number := add x (neg y).

(** [x <= y] *)
Definition le (x y : number) : bool :=
  match x, y with
  | NaN, _ | _, NaN => false
  | Fin a, Fin b => Qle_bool a b
  | NegInfinity, _ | _, PosInfinity => true
  | _, _ => false
  end.

(** [x > y] *)
Definition gt (x y : number) : bool :=
  match x, y with
  | NaN, _ | _, NaN => false
  | _, _ => negb (le x y)
  end.

(** [Math.floor(x)] *)
Definition floor (x : number) : number :=
  match x with
  | Fin q => of_Z (Qfloor q)
  | _ => x
  end.

(** Truthiness of a number: NaN and zero are falsy. *)
Definition truthy (x : number) : bool :=
  match x with
  | NaN => false
  | Fin q => negb (Qeq_bool q 0)
  | _ => true
  end.

(** [x || y] *)
Definition or (x y : number) : number := if truthy x then x else y.

(** The digits at the head of a string: their value, how many there are,
    and the rest of the string. *)
Fixpoint digits (s : string) (acc : Z) (count : nat) : Z * nat * string :=
  match s with
  | String c s' =>
      match Ascii.is_nat c with
      | Some d => digits s' (10 * acc + Z.of_nat d) (S count)
      | None => (acc, count, s)
      end
  | "" => (acc, count, s)
  end.

(** A leading sign: [true] for a minus, and the rest. *)
Definition sign (s : string) : bool * string :=
  match s with
  | String "-" s' => (true, s')
  | String "+" s' => (false, s')
  | _ => (false, s)
  end.

(** The exponent part at the head of a string, if a complete one is there. *)
Definition exponent (s : string) : Z :=
  match s with
  | String c s' =>
      if decide (c = "e"%char \/ c = "E"%char) then
        let '(minus, s'') := sign s' in
        let '(e, count, _) := digits s'' 0 0 in
        match count with
        | O => 0
        | S _ => if minus then (- e)%Z else e
        end
      else 0%Z
  | "" => 0%Z
  end.

(** [10 ** e] *)
Definition pow10 (e : Z) : Q :=
  if (0 <=? e)%Z then inject_Z (10 ^ e) else Qmake 1 (Z.to_pos (10 ^ (- e))).

(** [parseFloat(s)]: leading white space is skipped and the longest prefix
    that is a decimal literal is converted to the binary64 nearest to its
    value; NaN when there is none. *)
Definition parseFloat (s : string) : number :=
  let '(minus, s1) := sign (JS.trimStart s) in
  let signed (x : number) := if minus then neg x else x in
  if JS.startsWith s1 "Infinity" then signed PosInfinity
  else
    let '(int, int_count, s2) := digits s1 0 0 in
    let '(frac, frac_count, s3) :=
      match s2 with
      | String "." s2' => digits s2' int 0
      | _ => (int, O, s2)
      end in
    match (int_count + frac_count)%nat with
    | O => NaN
    | S _ =>
        signed (round64 (Qmult (inject_Z frac)
                               (pow10 (exponent s3 - Z.of_nat frac_count))))
    end.

End Num.

(** ** The translation dictionary *)

Inductive Language := zh | en.

Module Key.
Inductive t :=
  | runningApps | loading | noApps | appName | selectAppHint | appTimerTitle
  | appTimerDesc | countdown | minute | hour | shutdownAfter | startTimer
  | cancel | running | closed | cancelled | sysTimerTitle | sysTimerDesc
  | action | shutdown | restart | sleep | pleaseSelect | invalidTime
  | switchToLight | switchToDark | refresh.
End Key.

Definition translations (l : Language) (k : Key.t) : string :=
  match l, k with
  | zh, Key.runningApps => "运行中的应用"
  | zh, Key.loading => "加载中..."
  | zh, Key.noApps => "暂无运行的应用"
  | zh, Key.appName => "AutoShutdown"
  | zh, Key.selectAppHint => "请在左侧选择一个应用来设置定时关闭"
  | zh, Key.appTimerTitle => "应用定时关闭"
  | zh, Key.appTimerDesc => "设置指定时间后自动关闭选中的应用"
  | zh, Key.countdown => "倒计时"
  | zh, Key.minute => "分钟"
  | zh, Key.hour => "小时"
  | zh, Key.shutdownAfter => "关闭后同时关机"
  | zh, Key.startTimer => "启动定时"
  | zh, Key.cancel => "取消"
  | zh, Key.running => "运行中..."
  | zh, Key.closed => "✓ 已关闭"
  | zh, Key.cancelled => "已取消"
  | zh, Key.sysTimerTitle => "系统定时任务"
  | zh, Key.sysTimerDesc => "设置系统关机、重启或休眠的定时任务"
  | zh, Key.action => "执行操作"
  | zh, Key.shutdown => "关机"
  | zh, Key.restart => "重启"
  | zh, Key.sleep => "休眠"
  | zh, Key.pleaseSelect => "请先选择一个应用！"
  | zh, Key.invalidTime => "请输入有效的时间！"
  | zh, Key.switchToLight => "切换浅色"
  | zh, Key.switchToDark => "切换深色"
  | zh, Key.refresh => "刷新"
  | en, Key.runningApps => "Running Apps"
  | en, Key.loading => "Loading..."
  | en, Key.noApps => "No running apps"
  | en, Key.appName => "AutoShutdown"
  | en, Key.selectAppHint => "Select an app from the left to schedule shutdown"
  | en, Key.appTimerTitle => "App Shutdown Timer"
  | en, Key.appTimerDesc => "Automatically close the selected app after a set time"
  | en, Key.countdown => "Countdown"
  | en, Key.minute => "min"
  | en, Key.hour => "hour"
  | en, Key.shutdownAfter => "Shutdown system after app closes"
  | en, Key.startTimer => "Start"
  | en, Key.cancel => "Cancel"
  | en, Key.running => "Running..."
  | en, Key.closed => "✓ Closed"
  | en, Key.cancelled => "Cancelled"
  | en, Key.sysTimerTitle => "System Timer"
  | en, Key.sysTimerDesc => "Schedule system shutdown, restart, or sleep"
  | en, Key.action => "Action"
  | en, Key.shutdown => "Shutdown"
  | en, Key.restart => "Restart"
  | en, Key.sleep => "Sleep"
  | en, Key.pleaseSelect => "Please select an app first!"
  | en, Key.invalidTime => "Please enter a valid time!"
  | en, Key.switchToLight => "Switch to Light Mode"
  | en, Key.switchToDark => "Switch to Dark Mode"
  | en, Key.refresh => "Refresh"
  end.

(** ** The component's state: the values of one render *)

Record State := {
  apps : list ProcessInfo;
  selectedApp : option ProcessInfo;
  appMinutes : string;
  appHours : string;
  sysMinutes : string;
  sysHours : string;
  sysAction : string;
  shutdownAfter : bool;
  appTimer : number;
  sysTimer : number;
  appStatus : string;
  sysStatus : string;
  loading : bool;
  isDark : bool;
  lang : Language
}.

(** A render's values with one of them replaced: what a [useState] setter
    commits. *)

Definition with_apps (v : list ProcessInfo) (s : State) : State :=
  {| apps := v;
     selectedApp := selectedApp s;
     appMinutes := appMinutes s;
     appHours := appHours s;
     sysMinutes := sysMinutes s;
     sysHours := sysHours s;
     sysAction := sysAction s;
     shutdownAfter := shutdownAfter s;
     appTimer := appTimer s;
     sysTimer := sysTimer s;
     appStatus := appStatus s;
     sysStatus := sysStatus s;
     loading := loading s;
     isDark := isDark s;
     lang := lang s |}.

Definition with_selectedApp (v : option ProcessInfo) (s : State) : State :=
  {| apps := apps s;
     selectedApp := v;
     appMinutes := appMinutes s;
     appHours := appHours s;
     sysMinutes := sysMinutes s;
     sysHours := sysHours s;
     sysAction := sysAction s;
     shutdownAfter := shutdownAfter s;
     appTimer := appTimer s;
     sysTimer := sysTimer s;
     appStatus := appStatus s;
     sysStatus := sysStatus s;
     loading := loading s;
     isDark := isDark s;
     lang := lang s |}.

Definition with_appMinutes (v : string) (s : State) : State :=
  {| apps := apps s;
     selectedApp := selectedApp s;
     appMinutes := v;
     appHours := appHours s;
     sysMinutes := sysMinutes s;
     sysHours := sysHours s;
     sysAction := sysAction s;
     shutdownAfter := shutdownAfter s;
     appTimer := appTimer s;
     sysTimer := sysTimer s;
     appStatus := appStatus s;
     sysStatus := sysStatus s;
     loading := loading s;
     isDark := isDark s;
     lang := lang s |}.

Definition with_appHours (v : string) (s : State) : State :=
  {| apps := apps s;
     selectedApp := selectedApp s;
     appMinutes := appMinutes s;
     appHours := v;
     sysMinutes := sysMinutes s;
     sysHours := sysHours s;
     sysAction := sysAction s;
     shutdownAfter := shutdownAfter s;
     appTimer := appTimer s;
     sysTimer := sysTimer s;
     appStatus := appStatus s;
     sysStatus := sysStatus s;
     loading := loading s;
     isDark := isDark s;
     lang := lang s |}.

Definition with_sysMinutes (v : string) (s : State) : State :=
  {| apps := apps s;
     selectedApp := selectedApp s;
     appMinutes := appMinutes s;
     appHours := appHours s;
     sysMinutes := v;
     sysHours := sysHours s;
     sysAction := sysAction s;
     shutdownAfter := shutdownAfter s;
     appTimer := appTimer s;
     sysTimer := sysTimer s;
     appStatus := appStatus s;
     sysStatus := sysStatus s;
     loading := loading s;
     isDark := isDark s;
     lang := lang s |}.

Definition with_sysHours (v : string) (s : State) : State :=
  {| apps := apps s;
     selectedApp := selectedApp s;
     appMinutes := appMinutes s;
     appHours := appHours s;
     sysMinutes := sysMinutes s;
     sysHours := v;
     sysAction := sysAction s;
     shutdownAfter := shutdownAfter s;
     appTimer := appTimer s;
     sysTimer := sysTimer s;
     appStatus := appStatus s;
     sysStatus := sysStatus s;
     loading := loading s;
     isDark := isDark s;
     lang := lang s |}.

Definition with_sysAction (v : string) (s : State) : State :=
  {| apps := apps s;
     selectedApp := selectedApp s;
     appMinutes := appMinutes s;
     appHours := appHours s;
     sysMinutes := sysMinutes s;
     sysHours := sysHours s;
     sysAction := v;
     shutdownAfter := shutdownAfter s;
     appTimer := appTimer s;
     sysTimer := sysTimer s;
     appStatus := appStatus s;
     sysStatus := sysStatus s;
     loading := loading s;
     isDark := isDark s;
     lang := lang s |}.

Definition with_shutdownAfter (v : bool) (s : State) : State :=
  {| apps := apps s;
     selectedApp := selectedApp s;
     appMinutes := appMinutes s;
     appHours := appHours s;
     sysMinutes := sysMinutes s;
     sysHours := sysHours s;
     sysAction := sysAction s;
     shutdownAfter := v;
     appTimer := appTimer s;
     sysTimer := sysTimer s;
     appStatus := appStatus s;
     sysStatus := sysStatus s;
     loading := loading s;
     isDark := isDark s;
     lang := lang s |}.

Definition with_appTimer (v : number) (s : State) : State :=
  {| apps := apps s;
     selectedApp := selectedApp s;
     appMinutes := appMinutes s;
     appHours := appHours s;
     sysMinutes := sysMinutes s;
     sysHours := sysHours s;
     sysAction := sysAction s;
     shutdownAfter := shutdownAfter s;
     appTimer := v;
     sysTimer := sysTimer s;
     appStatus := appStatus s;
     sysStatus := sysStatus s;
     loading := loading s;
     isDark := isDark s;
     lang := lang s |}.

Definition with_sysTimer (v : number) (s : State) : State :=
  {| apps := apps s;
     selectedApp := selectedApp s;
     appMinutes := appMinutes s;
     appHours := appHours s;
     sysMinutes := sysMinutes s;
     sysHours := sysHours s;
     sysAction := sysAction s;
     shutdownAfter := shutdownAfter s;
     appTimer := appTimer s;
     sysTimer := v;
     appStatus := appStatus s;
     sysStatus := sysStatus s;
     loading := loading s;
     isDark := isDark s;
     lang := lang s |}.

Definition with_appStatus (v : string) (s : State) : State :=
  {| apps := apps s;
     selectedApp := selectedApp s;
     appMinutes := appMinutes s;
     appHours := appHours s;
     sysMinutes := sysMinutes s;
     sysHours := sysHours s;
     sysAction := sysAction s;
     shutdownAfter := shutdownAfter s;
     appTimer := appTimer s;
     sysTimer := sysTimer s;
     appStatus := v;
     sysStatus := sysStatus s;
     loading := loading s;
     isDark := isDark s;
     lang := lang s |}.

Definition with_sysStatus (v : string) (s : State) : State :=
  {| apps := apps s;
     selectedApp := selectedApp s;
     appMinutes := appMinutes s;
     appHours := appHours s;
     sysMinutes := sysMinutes s;
     sysHours := sysHours s;
     sysAction := sysAction s;
     shutdownAfter := shutdownAfter s;
     appTimer := appTimer s;
     sysTimer := sysTimer s;
     appStatus := appStatus s;
     sysStatus := v;
     loading := loading s;
     isDark := isDark s;
     lang := lang s |}.

Definition with_loading (v : bool) (s : State) : State :=
  {| apps := apps s;
     selectedApp := selectedApp s;
     appMinutes := appMinutes s;
     appHours := appHours s;
     sysMinutes := sysMinutes s;
     sysHours := sysHours s;
     sysAction := sysAction s;
     shutdownAfter := shutdownAfter s;
     appTimer := appTimer s;
     sysTimer := sysTimer s;
     appStatus := appStatus s;
     sysStatus := sysStatus s;
     loading := v;
     isDark := isDark s;
     lang := lang s |}.

Definition with_isDark (v : bool) (s : State) : State :=
  {| apps := apps s;
     selectedApp := selectedApp s;
     appMinutes := appMinutes s;
     appHours := appHours s;
     sysMinutes := sysMinutes s;
     sysHours := sysHours s;
     sysAction := sysAction s;
     shutdownAfter := shutdownAfter s;
     appTimer := appTimer s;
     sysTimer := sysTimer s;
     appStatus := appStatus s;
     sysStatus := sysStatus s;
     loading := loading s;
     isDark := v;
     lang := lang s |}.

Definition with_lang (v : Language) (s : State) : State :=
  {| apps := apps s;
     selectedApp := selectedApp s;
     appMinutes := appMinutes s;
     appHours := appHours s;
     sysMinutes := sysMinutes s;
     sysHours := sysHours s;
     sysAction := sysAction s;
     shutdownAfter := shutdownAfter s;
     appTimer := appTimer s;
     sysTimer := sysTimer s;
     appStatus := appStatus s;
     sysStatus := sysStatus s;
     loading := loading s;
     isDark := isDark s;
     lang := v |}.

(** ** The world around the renders *)

(** The commands of the backend that the component invokes. *)
Inductive Command :=
  | get_running_apps
  | kill_process (pid : Z)
  | system_shutdown
  | system_restart
  | system_sleep.

#[global] Instance Command_eq_dec : EqDecision Command.
Proof. solve_decision. Defined.

(** The functions handed to [setInterval].  Each one belongs to the render
    that created it. *)
Inductive Callback :=
  | AppTick (render : State)   (* the arrow function of [startAppTimer] *)
  | SysTick (render : State)   (* the arrow function of [startSysTimer] *)
  | Refresh.                   (* [loadApps], every 30000 ms *)

(** What is suspended at an [await invoke(...)]. *)
Inductive Continuation :=
  | LoadApps_resume                         (* [loadApps], after [get_running_apps] *)
  | AppShutdown_killed (render : State)     (* [executeAppShutdown], after [kill_process] *)
  | AppShutdown_chained (render : State)    (* [executeAppShutdown], after [system_shutdown] *)
  | SysAction_done.                         (* [executeSysAction], after its command *)

(** The value a promise of [invoke] resolves with. *)
Inductive Value :=
  | Nothing
  | Gone
  | Processes (l : list ProcessInfo).

Record World := {
  state : State;                            (* the committed render *)
  appIntervalRef : option positive;         (* [appIntervalRef.current] *)
  sysIntervalRef : option positive;         (* [sysIntervalRef.current] *)
  timers : gmap positive Callback;          (* the active intervals, by handle *)
  nextTimer : positive;                     (* the handle [setInterval] returns next *)
  promises : gmap positive Continuation;    (* the calls of [invoke] not yet settled *)
  nextPromise : positive;
  invoked : list Command;                   (* every call of [invoke], oldest first *)
  alerts : list string;                     (* every [alert], oldest first *)
  errors : list string                      (* every [console.error] *)
}.

Definition commit (f : State -> State) (w : World) : World :=
  {| state := f (state w);
     appIntervalRef := appIntervalRef w; sysIntervalRef := sysIntervalRef w;
     timers := timers w; nextTimer := nextTimer w;
     promises := promises w; nextPromise := nextPromise w;
     invoked := invoked w; alerts := alerts w; errors := errors w |}.

Definition set_appIntervalRef (r : option positive) (w : World) : World :=
  {| state := state w;
     appIntervalRef := r; sysIntervalRef := sysIntervalRef w;
     timers := timers w; nextTimer := nextTimer w;
     promises := promises w; nextPromise := nextPromise w;
     invoked := invoked w; alerts := alerts w; errors := errors w |}.

Definition set_sysIntervalRef (r : option positive) (w : World) : World :=
  {| state := state w;
     appIntervalRef := appIntervalRef w; sysIntervalRef := r;
     timers := timers w; nextTimer := nextTimer w;
     promises := promises w; nextPromise := nextPromise w;
     invoked := invoked w; alerts := alerts w; errors := errors w |}.

(** [setInterval(cb, ms)]: the callback becomes active under a new handle. *)
Definition setInterval (cb : Callback) (w : World) : World :=
  {| state := state w;
     appIntervalRef := appIntervalRef w; sysIntervalRef := sysIntervalRef w;
     timers := <[nextTimer w := cb]> (timers w);
     nextTimer := Pos.succ (nextTimer w);
     promises := promises w; nextPromise := nextPromise w;
     invoked := invoked w; alerts := alerts w; errors := errors w |}.

(** [clearInterval(h)]; a handle that is not active, or [null], is ignored. *)
Definition clearInterval (h : option positive) (w : World) : World :=
  match h with
  | None => w
  | Some h =>
      {| state := state w;
         appIntervalRef := appIntervalRef w; sysIntervalRef := sysIntervalRef w;
         timers := delete h (timers w); nextTimer := nextTimer w;
         promises := promises w; nextPromise := nextPromise w;
         invoked := invoked w; alerts := alerts w; errors := errors w |}
  end.

(** [await invoke(c)]: the call is made at once, and what follows the
    [await] waits for the promise. *)
Definition invoke (c : Command) (k : Continuation) (w : World) : World :=
  {| state := state w;
     appIntervalRef := appIntervalRef w; sysIntervalRef := sysIntervalRef w;
     timers := timers w; nextTimer := nextTimer w;
     promises := <[nextPromise w := k]> (promises w);
     nextPromise := Pos.succ (nextPromise w);
     invoked := invoked w ++ [c]; alerts := alerts w; errors := errors w |}.

Definition settle (p : positive) (w : World) : World :=
  {| state := state w;
     appIntervalRef := appIntervalRef w; sysIntervalRef := sysIntervalRef w;
     timers := timers w; nextTimer := nextTimer w;
     promises := delete p (promises w); nextPromise := nextPromise w;
     invoked := invoked w; alerts := alerts w; errors := errors w |}.

Definition alert (msg : string) (w : World) : World :=
  {| state := state w;
     appIntervalRef := appIntervalRef w; sysIntervalRef := sysIntervalRef w;
     timers := timers w; nextTimer := nextTimer w;
     promises := promises w; nextPromise := nextPromise w;
     invoked := invoked w; alerts := alerts w ++ [msg]; errors := errors w |}.

Definition console_error (msg : string) (w : World) : World :=
  {| state := state w;
     appIntervalRef := appIntervalRef w; sysIntervalRef := sysIntervalRef w;
     timers := timers w; nextTimer := nextTimer w;
     promises := promises w; nextPromise := nextPromise w;
     invoked := invoked w; alerts := alerts w; errors := errors w ++ [msg] |}.

(** ** The functions of the component

    Each takes the render it was created in: it reads that render's values
    and writes to the world. *)

(** [t(key)] *)
Definition t (render : State) (key : Key.t) : string :=
  translations (lang render) key.

(** [loadApps], up to its [await]. *)
Definition loadApps (w : World) : World :=
  invoke get_running_apps LoadApps_resume (commit (with_loading true) w).

(** [executeAppShutdown], up to its first [await]. *)
Definition executeAppShutdown (render : State) (w : World) : World :=
  match selectedApp render with
  | Some app => invoke (kill_process (pid app)) (AppShutdown_killed render) w
  | None => w
  end.

(** [executeSysAction], up to its [await]. *)
Definition executeSysAction (render : State) (w : World) : World :=
  if decide (sysAction render = "shutdown") then invoke system_shutdown SysAction_done w
  else if decide (sysAction render = "restart") then invoke system_restart SysAction_done w
  else if decide (sysAction render = "sleep") then invoke system_sleep SysAction_done w
  else w.

(** [hours * 60 + mins] of the two fields, each [parseFloat(field) || 0]. *)
Definition totalMinutes (hoursField minutesField : string) : number :=
  let mins := Num.or (Num.parseFloat minutesField) (Num.of_Z 0) in
  let hours := Num.or (Num.parseFloat hoursField) (Num.of_Z 0) in
  Num.add (Num.mul hours (Num.of_Z 60)) mins.

(** [Math.floor(totalMinutes * 60)] *)
Definition seconds (total : number) : number :=
  Num.floor (Num.mul total (Num.of_Z 60)).

Definition startAppTimer (render : State) (w : World) : World :=
  match selectedApp render with
  | None => alert (t render Key.pleaseSelect) w
  | Some _ =>
      let total := totalMinutes (appHours render) (appMinutes render) in
      if Num.le total (Num.of_Z 0) then alert (t render Key.invalidTime) w
      else
        let w1 := commit (with_appTimer (seconds total)) w in
        let w2 := commit (with_appStatus "") w1 in
        let h := nextTimer w2 in
        set_appIntervalRef (Some h) (setInterval (AppTick render) w2)
  end.

(** The arrow function that [startAppTimer] hands to [setInterval]:
    [setAppTimer(prev => ...)], the updater reading the live value. *)
Definition appTick (render : State) (w : World) : World :=
  let prev := appTimer (state w) in
  if Num.le prev (Num.of_Z 1) then
    let w1 := clearInterval (appIntervalRef w) w in
    let w2 := executeAppShutdown render w1 in
    commit (with_appTimer (Num.of_Z 0)) w2
  else commit (with_appTimer (Num.sub prev (Num.of_Z 1))) w.

Definition cancelAppTimer (render : State) (w : World) : World :=
  let w1 := clearInterval (appIntervalRef w) w in
  let w2 := commit (with_appTimer (Num.of_Z 0)) w1 in
  commit (with_appStatus (t render Key.cancelled)) w2.

Definition startSysTimer (render : State) (w : World) : World :=
  let total := totalMinutes (sysHours render) (sysMinutes render) in
  if Num.le total (Num.of_Z 0) then alert (t render Key.invalidTime) w
  else
    let w1 := commit (with_sysTimer (seconds total)) w in
    let w2 := commit (with_sysStatus "") w1 in
    let h := nextTimer w2 in
    set_sysIntervalRef (Some h) (setInterval (SysTick render) w2).

Definition sysTick (render : State) (w : World) : World :=
  let prev := sysTimer (state w) in
  if Num.le prev (Num.of_Z 1) then
    let w1 := clearInterval (sysIntervalRef w) w in
    let w2 := executeSysAction render w1 in
    commit (with_sysTimer (Num.of_Z 0)) w2
  else commit (with_sysTimer (Num.sub prev (Num.of_Z 1))) w.

Definition cancelSysTimer (render : State) (w : World) : World :=
  let w1 := clearInterval (sysIntervalRef w) w in
  let w2 := commit (with_sysTimer (Num.of_Z 0)) w1 in
  commit (with_sysStatus (t render Key.cancelled)) w2.

(** The [onClick] of an entry of the list. *)
Definition toggleSelection (render : State) (app : ProcessInfo) (w : World) : World :=
  match selectedApp render with
  | Some sel =>
      if decide (pid sel = pid app) then commit (with_selectedApp None) w
      else commit (with_selectedApp (Some app)) w
  | None => commit (with_selectedApp (Some app)) w
  end.

(** What follows an [await] once its promise resolves with [v]. *)
Definition resume (k : Continuation) (v : Value) (w : World) : World :=
  match k with
  | LoadApps_resume =>
      match v with
      | Processes result =>
          commit (with_loading false) (commit (with_apps result) w)
      | _ => w
      end
  | AppShutdown_killed render =>
      let w1 := commit (with_appStatus (t render Key.closed)) w in
      if shutdownAfter render then
        invoke system_shutdown (AppShutdown_chained render) w1
      else commit (with_selectedApp None) (loadApps w1)
  | AppShutdown_chained render =>
      commit (with_selectedApp None) (loadApps w)
  | SysAction_done => w
  end.

(** What happens once the promise rejects: [loadApps] catches, logs and
    runs its [finally]; the other functions have no handler, the exception
    leaves them and nothing after the [await] runs. *)
Definition abandon (k : Continuation) (cause : string) (w : World) : World :=
  match k with
  | LoadApps_resume => commit (with_loading false) (console_error cause w)
  | _ => w
  end.

(** ** Events *)

(** The three values the action select offers. *)
Inductive PowerOption := OptShutdown | OptRestart | OptSleep.

Definition option_value (o : PowerOption) : string :=
  match o with
  | OptShutdown => "shutdown"
  | OptRestart => "restart"
  | OptSleep => "sleep"
  end.

Inductive Event :=
  | Tick (h : positive)                (* the interval with handle [h] elapses *)
  | WindowChanged                      (* the backend emits 'window-changed' *)
  | Resolve (p : positive) (v : Value) (* a promise of [invoke] resolves *)
  | Reject (p : positive) (cause : string)
  | ClickApp (app : ProcessInfo)       (* an entry of the list of apps *)
  | ClickStartApp
  | ClickCancelApp
  | ClickStartSys
  | ClickCancelSys
  | ChangeAppHours (v : string)
  | ChangeAppMinutes (v : string)
  | ChangeSysHours (v : string)
  | ChangeSysMinutes (v : string)
  | ChangeSysAction (o : PowerOption)
  | ChangeShutdownAfter (checked : bool)
  | ClickTheme.

(** [disabled={appTimer > 0 || !selectedApp}] *)
Definition startApp_disabled (render : State) : bool :=
  Num.gt (appTimer render) (Num.of_Z 0) || negb (bool_decide (is_Some (selectedApp render))).

(** [disabled={sysTimer > 0}] *)
Definition startSys_disabled (render : State) : bool :=
  Num.gt (sysTimer render) (Num.of_Z 0).

(** A reply of the shape the awaiting code expects. *)
Definition expected (k : Continuation) (v : Value) : bool :=
  match k, v with
  | LoadApps_resume, Processes _ => true
  | LoadApps_resume, _ => false
  | _, Processes _ => false
  | _, _ => true
  end.

(** One event, run to completion.  An event that cannot occur in the world
    (a cleared interval, a settled promise, an entry that is not rendered,
    a disabled button) leaves it as it is. *)
Definition step (e : Event) (w : World) : World :=
  let render := state w in
  match e with
  | Tick h =>
      match timers w !! h with
      | Some (AppTick r) => appTick r w
      | Some (SysTick r) => sysTick r w
      | Some Refresh => loadApps w
      | None => w
      end
  | WindowChanged => loadApps w
  | Resolve p v =>
      match promises w !! p with
      | Some k => if expected k v then resume k v (settle p w) else w
      | None => w
      end
  | Reject p cause =>
      match promises w !! p with
      | Some k => abandon k cause (settle p w)
      | None => w
      end
  | ClickApp app =>
      if bool_decide (app ∈ apps render) then toggleSelection render app w else w
  | ClickStartApp =>
      if startApp_disabled render then w else startAppTimer render w
  | ClickCancelApp => cancelAppTimer render w
  | ClickStartSys =>
      if startSys_disabled render then w else startSysTimer render w
  | ClickCancelSys => cancelSysTimer render w
  | ChangeAppHours v => commit (with_appHours v) w
  | ChangeAppMinutes v => commit (with_appMinutes v) w
  | ChangeSysHours v => commit (with_sysHours v) w
  | ChangeSysMinutes v => commit (with_sysMinutes v) w
  | ChangeSysAction o => commit (with_sysAction (option_value o)) w
  | ChangeShutdownAfter checked => commit (with_shutdownAfter checked) w
  | ClickTheme => commit (with_isDark (negb (isDark render))) w
  end.

(** The events of a list, in order. *)
Fixpoint run (es : list Event) (w : World) : World :=
  match es with
  | [] => w
  | e :: es' => run es' (step e w)
  end.

(** The first render: the initial values of the [useState] and [useRef]
    calls. *)
Definition initialState : State :=
  {| apps := []; selectedApp := None;
     appMinutes := "30"; appHours := "0"; sysMinutes := "0"; sysHours := "1";
     sysAction := "shutdown"; shutdownAfter := false;
     appTimer := Num.of_Z 0; sysTimer := Num.of_Z 0;
     appStatus := ""; sysStatus := "";
     loading := true; isDark := false; lang := zh |}.

Definition initial : World :=
  {| state := initialState;
     appIntervalRef := None; sysIntervalRef := None;
     timers := ∅; nextTimer := 1%positive;
     promises := ∅; nextPromise := 1%positive;
     invoked := []; alerts := []; errors := [] |}.

(** The effects of the first render: the language follows
    [navigator.language]; the list is loaded and is loaded again every
    30000 ms. *)
Definition mount (navigatorLanguage : string) : World :=
  let l := if JS.startsWith (JS.toLowerCase navigatorLanguage) "zh" then zh else en in
  setInterval Refresh (loadApps (commit (with_lang l) initial)).

(** ** The commands a slot is configured with *)

(** The command that [executeSysAction] invokes for a value of [sysAction]. *)
Definition power_command (action : string) : option Command :=
  if decide (action = "shutdown") then Some system_shutdown
  else if decide (action = "restart") then Some system_restart
  else if decide (action = "sleep") then Some system_sleep
  else None.

Definition is_kill (c : Command) : bool :=
  match c with kill_process _ => true | _ => false end.

Definition is_power (c : Command) : bool :=
  match c with
  | system_shutdown | system_restart | system_sleep => true
  | _ => false
  end.

(** A small session: the list arrives, an app is chosen, a one-minute
    countdown is started and elapses. *)
Definition demo_app : ProcessInfo := proc 4242 "notes.exe" "budget.txt - Notes".

Definition demo_armed : World :=
  run [ Resolve 1 (Processes [demo_app]); ClickApp demo_app;
        ChangeAppMinutes "1"; ClickStartApp ] (mount "en-US").


(** ** The resolution policy as the specification words it *)

Module Policy.

(** Step 1: [raw_name] with a trailing executable extension stripped,
    whatever the case of its letters. *)
Definition strip_extension (raw_name : string) : string :=
  let n := (String.length raw_name - 4)%nat in
  if (4 <=? String.length raw_name)%nat
     && bool_decide (JS.toLowerCase (JS.drop n raw_name) = ".exe")
  then JS.take n raw_name
  else raw_name.

(** Step 2: the friendly name of the first entry of the table whose key the
    lower-cased [raw_name] contains. *)
Definition browser (raw_name : string) : option string :=
  snd <$> List.find (fun entry => JS.includes (JS.toLowerCase raw_name) (fst entry))
                    browsers.

(** Step 3: for the first of the separators that the title contains, the
    text before its first occurrence, trimmed. *)
Definition before_separator (title : string) : option string :=
  match List.find (JS.includes title) separators with
  | Some sep => (fun i => JS.trim (JS.take i title)) <$> JS.indexOf title sep
  | None => None
  end.

Definition resolve (app : ProcessInfo) : string :=
  if decide (title app = "") then strip_extension (name app)
  else
    match browser (name app) with
    | Some friendly => friendly
    | None =>
        match before_separator (title app) with
        | Some shown => shown
        | None => title app
        end
    end.


End Policy.


(** ** Notions used by the statements *)

(** A duration in whole seconds for which the countdown of the source is
    exact: positive, and small enough for [prev - 1] to be computed without
    rounding. *)
Definition countable (n : Z) : Prop := (1 <= n <= 2 ^ 53)%Z.

(** The calls of [kill_process] among the calls made. *)
Definition kills (cs : list Command) : list Command := List.filter is_kill cs.

Definition is_tick (h : positive) (e : Event) : bool :=
  match e with
  | Tick h' => bool_decide (h' = h)
  | _ => false
  end.

(** How many times the interval [h] elapses in a list of events. *)
Definition ticks (h : positive) (es : list Event) : nat :=
  length (List.filter (is_tick h) es).

(** Modelled from the spec: the outcome of a command of the Action Executor,
    [Outcome{Success, AlreadyGone, Failure(cause)}]; the backend that
    produces it is not part of the front end.  A success and "already gone"
    are returned to the caller, whose promise resolves; a failure is raised,
    and the promise rejects with its cause. *)
Inductive Outcome :=
  | Success
  | AlreadyGone
  | Failure (cause : string).

Definition settled (p : positive) (o : Outcome) : Event :=
  match o with
  | Success => Resolve p Nothing
  | AlreadyGone => Resolve p Gone
  | Failure cause => Reject p cause
  end.

(** The reconciliation that the specification asks of a poll: the selection,
    if there is one, is a process of the list. *)
Definition reconciled (s : State) : Prop :=
  match selectedApp s with
  | Some sel => exists app, app ∈ apps s /\ pid app = pid sel
  | None => True
  end.

(** The status a slot shows once it has fired, in the specification:
    the "closed" message. *)
Definition shows_fired (render : State) (status : string) : Prop :=
  status = t render Key.closed.

(** A slot that has no tick source. *)
Definition no_app_ticks (w : World) : bool :=
  forallb (fun '(_, cb) => match cb with AppTick _ => false | _ => true end)
          (map_to_list (timers w)).

Definition no_sys_ticks (w : World) : bool :=
  forallb (fun '(_, cb) => match cb with SysTick _ => false | _ => true end)
          (map_to_list (timers w)).

(** ** The two slots, side by side *)

Inductive Slot := AppSlot | SysSlot.

Definition ClickStart (slot : Slot) : Event :=
  match slot with AppSlot => ClickStartApp | SysSlot => ClickStartSys end.

Definition ClickCancel (slot : Slot) : Event :=
  match slot with AppSlot => ClickCancelApp | SysSlot => ClickCancelSys end.

(** The seconds a slot has left, its status and its interval handle. *)
Definition remaining (slot : Slot) (s : State) : number :=
  match slot with AppSlot => appTimer s | SysSlot => sysTimer s end.

Definition status (slot : Slot) (s : State) : string :=
  match slot with AppSlot => appStatus s | SysSlot => sysStatus s end.

Definition intervalRef (slot : Slot) (w : World) : option positive :=
  match slot with AppSlot => appIntervalRef w | SysSlot => sysIntervalRef w end.

(** The total of minutes entered for a slot, and the seconds it makes. *)
Definition entered (slot : Slot) (s : State) : number :=
  match slot with
  | AppSlot => totalMinutes (appHours s) (appMinutes s)
  | SysSlot => totalMinutes (sysHours s) (sysMinutes s)
  end.

Definition duration (slot : Slot) (s : State) : number := seconds (entered slot s).

(** The command a slot is configured with in a render: [kill_process] on
    the selected process, or the power command of the selected action. *)
Definition configured (slot : Slot) (s : State) : option Command :=
  match slot with
  | AppSlot => (fun app => kill_process (pid app)) <$> selectedApp s
  | SysSlot => power_command (sysAction s)
  end.

(** The function a slot hands to [setInterval] in a render. *)
Definition tick_of (slot : Slot) (render : State) : Callback :=
  match slot with AppSlot => AppTick render | SysSlot => SysTick render end.

(** Whether a slot has an active tick source left. *)
Definition idle (slot : Slot) (w : World) : bool :=
  match slot with AppSlot => no_app_ticks w | SysSlot => no_sys_ticks w end.

(** The world once [startAppTimer] has started a countdown of [n]. *)
Definition app_armed (w0 : World) (n : number) : World :=
  set_appIntervalRef (Some (nextTimer w0))
    (setInterval (AppTick (state w0))
       (commit (with_appStatus "") (commit (with_appTimer n) w0))).

(** The world once [startSysTimer] has started a countdown of [n]. *)
Definition sys_armed (w0 : World) (n : number) : World :=
  set_sysIntervalRef (Some (nextTimer w0))
    (setInterval (SysTick (state w0))
       (commit (with_sysStatus "") (commit (with_sysTimer n) w0))).

Definition armed (slot : Slot) (w0 : World) (n : number) : World :=
  match slot with AppSlot => app_armed w0 n | SysSlot => sys_armed w0 n end.

Definition continuation (slot : Slot) (render : State) : Continuation :=
  match slot with AppSlot => AppShutdown_killed render | SysSlot => SysAction_done end.

Definition with_remaining (slot : Slot) (n : number) : State -> State :=
  match slot with AppSlot => with_appTimer n | SysSlot => with_sysTimer n end.


(** The function a slot's Start button calls. *)
Definition startTimer (slot : Slot) : State -> World -> World :=
  match slot with AppSlot => startAppTimer | SysSlot => startSysTimer end.

(** ** Sessions used as examples *)

(** The list has arrived, an app is selected and one minute is entered for
    each slot. *)
Definition demo_ready : World :=
  run [ Resolve 1 (Processes [demo_app]); ClickApp demo_app;
        ChangeAppMinutes "1"; ChangeSysHours "0"; ChangeSysMinutes "1" ]
      (mount "en-US").

(** The same with the shutdown-after-close box ticked. *)
Definition demo_chained : World := step (ChangeShutdownAfter true) demo_ready.

(** A countdown of less than a second is started, and a second one of one
    minute before the first has ticked. *)
Definition demo_twice : World :=
  run [ ChangeAppMinutes "0.01"; ClickStartApp;
        ChangeAppMinutes "1"; ClickStartApp ] demo_ready.

(** A negative hour and a field that cannot be read. *)
Definition demo_invalid : World :=
  run [ChangeAppHours "-1"; ChangeAppMinutes "abc"] demo_ready.


(** A refresh that no longer lists the selected app. *)
Definition demo_stale : World :=
  run [ WindowChanged; Resolve 2 (Processes []) ] demo_ready.

(** The app is started for one minute and deselected before it fires. *)
Definition demo_deselected : list Event :=
  repeat (Tick 2) 30 ++ [ClickApp demo_app] ++ repeat (Tick 2) 29.

(** ** Notions for the properties of the whole component *)

(** The hours and the minutes a slot's fields are read as:
    [parseFloat(field) || 0]. *)
Definition hoursEntered (slot : Slot) (s : State) : number :=
  Num.or (Num.parseFloat (match slot with AppSlot => appHours s | SysSlot => sysHours s end))
         (Num.of_Z 0).

Definition minutesEntered (slot : Slot) (s : State) : number :=
  Num.or (Num.parseFloat (match slot with AppSlot => appMinutes s | SysSlot => sysMinutes s end))
         (Num.of_Z 0).

(** A remaining time that is a whole number of seconds, not negative, or
    one of the two values on which a countdown does not move. *)
Definition whole (x : number) : Prop :=
  x = NaN \/ x = PosInfinity \/ exists n : Z, (0 <= n)%Z /\ x = Num.of_Z n.

(** The handles in use are below the next one, and the handle a slot's ref
    holds, if it is still active, is an interval of that slot. *)
Definition wellformed (w : World) : Prop :=
  (forall h cb, timers w !! h = Some cb -> (h < nextTimer w)%positive)
  /\ (forall slot h, intervalRef slot w = Some h ->
        (h < nextTimer w)%positive
        /\ forall cb, timers w !! h = Some cb -> exists r, cb = tick_of slot r).

(** Less than a second is entered for the app slot. *)
Definition demo_subsecond : World := step (ChangeAppMinutes "0.01") demo_ready.


(** Both slots are started for one minute. *)
Definition demo_both_events : list Event :=
  [ Resolve 1 (Processes [demo_app]); ClickApp demo_app;
    ChangeAppMinutes "1"; ChangeSysHours "0"; ChangeSysMinutes "1";
    ClickStartApp; ClickStartSys ].

(** The renders in which the two Start buttons were clicked. *)
Definition demo_app_render : State :=
  state (run (take 5 demo_both_events) (mount "en-US")).

Definition demo_sys_render : State :=
  state (run (take 6 demo_both_events) (mount "en-US")).

(** The app slot has one second left. *)
Definition demo_last_second : list Event :=
  demo_both_events ++ repeat (Tick 2) 59.

(** The other slot. *)
Definition other (slot : Slot) : Slot :=
  match slot with AppSlot => SysSlot | SysSlot => AppSlot end.

(** The events of a slot that can clear an interval: its Cancel button and
    the ticks of its intervals. *)
Definition of_slot (slot : Slot) (w : World) (e : Event) : Prop :=
  e = ClickCancel slot
  \/ exists h r, e = Tick h /\ timers w !! h = Some (tick_of slot r).

(** The calls of a power command among the calls made. *)
Definition powers (cs : list Command) : list Command := List.filter is_power cs.

(** Every render that an interval or a suspended function holds was one in
    which an app was selected (for the app slot) and the action was one of
    the three options (for the system slot). *)
Definition configured_closures (w : World) : Prop :=
  (exists o, sysAction (state w) = option_value o)
  /\ (forall h r, timers w !! h = Some (AppTick r) -> is_Some (selectedApp r))
  /\ (forall h r, timers w !! h = Some (SysTick r) ->
        exists o, sysAction r = option_value o).

(** The events that can call [kill_process]: the ticks of the intervals of
    the app slot. *)
Definition app_tick (w : World) (e : Event) : Prop :=
  exists h r, e = Tick h /\ timers w !! h = Some (AppTick r).

(** The events that can call a power command: the ticks of the intervals
    of the system slot, and the resolution of a [kill_process] that
    [executeAppShutdown] awaits. *)
Definition power_source (w : World) (e : Event) : Prop :=
  (exists h r, e = Tick h /\ timers w !! h = Some (SysTick r))
  \/ (exists p v r, e = Resolve p v /\ promises w !! p = Some (AppShutdown_killed r)).

(** The app slot has fired and [kill_process] has not settled yet. *)
Definition demo_fired_world : World :=
  run (repeat (Tick 2) 60) (step ClickStartApp demo_chained).

(** Two polls are under way. *)
Definition demo_two_polls : World := run [WindowChanged; WindowChanged] demo_ready.



(** A slot on which the interval [h], created in the render [r], counts
    down from [m]. *)
Definition running (slot : Slot) (h : positive) (r : State) (m : Z) (w : World) : Prop :=
  timers w !! h = Some (tick_of slot r)
  /\ intervalRef slot w = Some h
  /\ remaining slot (state w) = Num.of_Z m.

(** The system slot is started for one minute, and during the countdown
    the action is changed to "sleep" and the box is ticked. *)
Definition demo_edits : list Event :=
  repeat (Tick 2) 30 ++ [ChangeSysAction OptSleep; ChangeShutdownAfter true]
  ++ repeat (Tick 2) 30.

(** The events that can change the selection: a click on an entry of the
    list, and the resolution of a call that [executeAppShutdown] awaits. *)
Definition selection_source (w : World) (e : Event) : Prop :=
  (exists app, e = ClickApp app)
  \/ (exists p v r, e = Resolve p v
        /\ (promises w !! p = Some (AppShutdown_killed r)
            \/ promises w !! p = Some (AppShutdown_chained r))).

(** ** [formatTime] *)

Module Text.

(** The character of a decimal digit. *)
Definition digit (d : Z) : ascii := ascii_of_nat (48 + Z.to_nat d).

(** The decimal digits of a natural number, the fuel bounding their
    count. *)
Fixpoint digits_of (fuel : nat) (n : Z) : string :=
  match fuel with
  | O => ""
  | S fuel' =>
      if (n <? 10)%Z then String (digit n) ""
      else (digits_of fuel' (n / 10) ++ String (digit (n mod 10)) "")%string
  end.

(** [n.toString()] for an integer [n] below 10^21 in magnitude, where the
    built-in prints every digit; from 10^21 on it switches to the exponent
    notation, which is not modelled. *)
Definition toString (n : Z) : string :=
  if (n <? 0)%Z then String "-" (digits_of (S (Z.to_nat (Z.log2 (- n)))) (- n))
  else digits_of (S (Z.to_nat (Z.log2 n))) n.

Fixpoint fill (count : nat) (c : ascii) : string :=
  match count with
  | O => ""
  | S count' => String c (fill count' c)
  end.

(** [s.padStart(len, c)] for a filler of one character *)
Definition padStart (s : string) (len : nat) (c : ascii) : string :=
  (fill (len - String.length s) c ++ s)%string.

End Text.

(** [formatTime(seconds)] on a whole number of seconds of at most [2 ^ 53]
    in magnitude, which is what the timers of a countdown that moves hold:
    there [Math.floor(x / k)] is the quotient rounded down, the division
    being off by less than the distance to the next whole number, and
    [x % k] is the remainder with the sign of [x].  Beyond, the source
    rounds and prints exponents, and the theorems do not go. *)
Definition formatTime (seconds : Z) : string :=
  let h := (seconds / 3600)%Z in
  let m := (Z.rem seconds 3600 / 60)%Z in
  let s := Z.rem seconds 60 in
  let two (n : Z) := Text.padStart (Text.toString n) 2 "0" in
  if (0 <? h)%Z then (two h ++ ":" ++ two m ++ ":" ++ two s)%string
  else (two m ++ ":" ++ two s)%string.

(** The revision of the component that has no hours field
    ([src/unnamed/part_000]). *)
Module Previous.

(** Its [formatTime], on the same whole numbers of seconds. *)
Definition formatTime (seconds : Z) : string :=
  let m := (seconds / 60)%Z in
  let s := Z.rem seconds 60 in
  let two (n : Z) := Text.padStart (Text.toString n) 2 "0" in
  (two m ++ ":" ++ two s)%string.

(** [isNaN(x)] *)
Definition isNaN (x : number) : bool :=
  match x with NaN => true | _ => false end.

(** The message that differed in the dictionary. *)
Definition invalidTime (l : Language) : string :=
  match l with
  | zh => "请输入有效的分钟数！"
  | en => "Please enter a valid number!"
  end.

Definition t (render : State) (key : Key.t) : string :=
  match key with
  | Key.invalidTime => invalidTime (lang render)
  | _ => translations (lang render) key
  end.

(** [startAppTimer] and [startSysTimer] when the minutes were the only
    field. *)
Definition startAppTimer (render : State) (w : World) : World :=
  match selectedApp render with
  | None => alert (t render Key.pleaseSelect) w
  | Some _ =>
      let mins := Num.parseFloat (appMinutes render) in
      if isNaN mins || Num.le mins (Num.of_Z 0) then alert (t render Key.invalidTime) w
      else
        let w1 := commit (with_appTimer (Num.floor (Num.mul mins (Num.of_Z 60)))) w in
        let w2 := commit (with_appStatus "") w1 in
        let h := nextTimer w2 in
        set_appIntervalRef (Some h) (setInterval (AppTick render) w2)
  end.

Definition startSysTimer (render : State) (w : World) : World :=
  let mins := Num.parseFloat (sysMinutes render) in
  if isNaN mins || Num.le mins (Num.of_Z 0) then alert (t render Key.invalidTime) w
  else
    let w1 := commit (with_sysTimer (Num.floor (Num.mul mins (Num.of_Z 60)))) w in
    let w2 := commit (with_sysStatus "") w1 in
    let h := nextTimer w2 in
    set_sysIntervalRef (Some h) (setInterval (SysTick render) w2).

Definition startTimer (slot : Slot) : State -> World -> World :=
  match slot with AppSlot => startAppTimer | SysSlot => startSysTimer end.

End Previous.

(** Reading a time back: the fields, highest first, between colons. *)
Definition readTime (shown : string) : option Z :=
  let '(a, _, rest) := Num.digits shown 0 0 in
  match rest with
  | String ":" rest1 =>
      let '(b, _, rest2) := Num.digits rest1 0 0 in
      match rest2 with
      | "" => Some (a * 60 + b)%Z
      | String ":" rest3 =>
          let '(c, _, rest4) := Num.digits rest3 0 0 in
          match rest4 with
          | "" => Some (a * 3600 + b * 60 + c)%Z
          | _ => None
          end
      | _ => None
      end
  | _ => None
  end.

(** ** A countdown among all the other events *)

(** The calls an event makes: what it adds to the calls made before. *)
Definition called (e : Event) (w : World) : list Command :=
  drop (length (invoked w)) (invoked (step e w)).

(** Whether an event is a tick of an interval of a slot. *)
Definition ticks_slot (slot : Slot) (w : World) (e : Event) : bool :=
  match e with
  | Tick h =>
      match timers w !! h, slot with
      | Some (AppTick _), AppSlot | Some (SysTick _), SysSlot => true
      | _, _ => false
      end
  | _ => false
  end.

(** The calls that the ticks of the intervals of a slot make in the course
    of a list of events. *)
Fixpoint fired_by (slot : Slot) (es : list Event) (w : World) : list Command :=
  match es with
  | [] => []
  | e :: es' =>
      (if ticks_slot slot w e then called e w else []) ++ fired_by slot es' (step e w)
  end.

(** The clicks on the two buttons of a slot. *)
Definition cancels (slot : Slot) (e : Event) : bool :=
  match slot, e with
  | AppSlot, ClickCancelApp | SysSlot, ClickCancelSys => true
  | _, _ => false
  end.

Definition starts (slot : Slot) (e : Event) : bool :=
  match slot, e with
  | AppSlot, ClickStartApp | SysSlot, ClickStartSys => true
  | _, _ => false
  end.

(** Events among which the Cancel button of a slot is not clicked: all the
    ticks, of any interval, the refreshes, the settled promises, the edits
    and the clicks on every other button. *)
Definition uncancelled (slot : Slot) (es : list Event) : bool :=
  forallb (fun e => negb (cancels slot e)) es.

(** Events among which the Start button of a slot is not clicked. *)
Definition unstarted (slot : Slot) (es : list Event) : bool :=
  forallb (fun e => negb (starts slot e)) es.

(** Events among which the promise [p] does not settle. *)
Definition settles (p : positive) (e : Event) : bool :=
  match e with
  | Resolve p' _ | Reject p' _ => bool_decide (p' = p)
  | _ => false
  end.

Definition pending (p : positive) (es : list Event) : bool :=
  forallb (fun e => negb (settles p e)) es.

(** The interval [h] is the only tick source of a slot. *)
Definition sole (slot : Slot) (h : positive) (w : World) : Prop :=
  forall h' r, timers w !! h' = Some (tick_of slot r) -> h' = h.

(** A countdown under way in a world the component can be in: the interval
    [h], created in the render [r], is the one the slot's ref holds and its
    only tick source, and [m] seconds remain. *)
Definition countdown (slot : Slot) (h : positive) (r : State) (m : Z) (w : World) : Prop :=
  wellformed w /\ running slot h r m w /\ sole slot h w.

(** ** Sessions with an interval left over *)

(** The events of [demo_ready]. *)
Definition demo_ready_events : list Event :=
  [ Resolve 1 (Processes [demo_app]); ClickApp demo_app;
    ChangeAppMinutes "1"; ChangeSysHours "0"; ChangeSysMinutes "1" ].

(** A countdown of less than a second is started with the box not ticked;
    before its first tick the box is ticked and three seconds are started. *)
Definition demo_leftover_box : World :=
  run [ ChangeAppMinutes "0.01"; ClickStartApp;
        ChangeShutdownAfter true; ChangeAppMinutes "0.05"; ClickStartApp ] demo_ready.

(** A second process. *)
Definition demo_mail : ProcessInfo := proc 7 "mail.exe" "Inbox - Mail".

(** A countdown of less than a second is started on one process; before
    its first tick the other process is selected and fifteen seconds are
    started. *)
Definition demo_leftover_pid : World :=
  run [ Resolve 1 (Processes [demo_app; demo_mail]); ClickApp demo_app;
        ChangeAppMinutes "0.01"; ClickStartApp;
        ClickApp demo_mail; ChangeAppMinutes "0.25"; ClickStartApp ] (mount "en-US").

(** The two intervals of the app slot tick in turn, the older one first. *)
Fixpoint in_turn (seconds : nat) : list Event :=
  match seconds with
  | O => []
  | S k => Tick 2 :: Tick 3 :: in_turn k
  end.

(** The refresh, the other slot and the user go on during a countdown of
    one minute of the app slot: the system slot is started and cancelled,
    the list is refreshed twice, the selection is dropped. *)
Definition demo_busy : list Event :=
  repeat (Tick 2) 20
  ++ [ ClickStartSys; Tick 3; Tick 1; Resolve 2 (Processes [demo_app]); WindowChanged ]
  ++ repeat (Tick 2) 20
  ++ [ ClickApp demo_app; ClickStartApp; Tick 3; ClickCancelSys; Reject 3 "busy" ]
  ++ repeat (Tick 2) 19.

(** * Checks of the embedding on small inputs *)

Example vector_chrome :
  getAppDisplayName (proc 1 "chrome.exe" "My Page - Google Chrome") = "Google Chrome".
Proof. vm_compute. reflexivity. Qed.

Example vector_notes :
  getAppDisplayName (proc 1 "notes.exe" "budget.txt - Notes") = "budget.txt".
Proof. vm_compute. reflexivity. Qed.

Example vector_service :
  getAppDisplayName (proc 1 "service.exe" "") = "service".
Proof. vm_compute. reflexivity. Qed.

Example sep_bytes : String.length " — " = 5%nat /\ String.length " · " = 4%nat.
Proof. vm_compute. auto. Qed.

Example trim_nbsp : JS.trim (JS.bytes [194; 160; 32; 97; 32; 98; 9; 226; 128; 168]) = "a b".
Proof. vm_compute. reflexivity. Qed.

Example parse_30 : Num.parseFloat "30" = Num.of_Z 30.
Proof. vm_compute. reflexivity. Qed.

Example parse_frac : Num.parseFloat "  -1.5e1x" = Num.of_Z (-15).
Proof. vm_compute. reflexivity. Qed.

Example parse_small : Num.parseFloat ".25" = Fin (Qmake 1 4).
Proof. vm_compute. reflexivity. Qed.

Example parse_empty : Num.parseFloat "" = NaN /\ Num.parseFloat "abc" = NaN /\ Num.parseFloat "." = NaN.
Proof. vm_compute. auto. Qed.

Example parse_e : Num.parseFloat "2e" = Num.of_Z 2 /\ Num.parseFloat "2e-" = Num.of_Z 2 /\ Num.parseFloat "5.e2" = Num.of_Z 500.
Proof. vm_compute. auto. Qed.

Example parse_inf : Num.parseFloat "-Infinity" = NegInfinity.
Proof. vm_compute. reflexivity. Qed.

(** Rounding to binary64, as the engine does. *)
Example parse_rounds :
  Num.parseFloat "0.1" = Fin (Qmake 3602879701896397 36028797018963968)
  /\ Num.parseFloat "1.9999999999999999999" = Num.of_Z 2
  /\ Num.parseFloat "1e-400" = Num.of_Z 0
  /\ Num.parseFloat "5e-324" = Fin (Qmake 1 (2 ^ 1074))
  /\ Num.parseFloat "1.7976931348623159e308" = PosInfinity.
Proof. vm_compute. auto 10. Qed.

Example seconds_round :
  seconds (totalMinutes "0" "2.05") = Num.of_Z 122
  /\ seconds (totalMinutes "0.03" "0") = Num.of_Z 107
  /\ seconds (totalMinutes "1e308" "0") = PosInfinity
  /\ Num.le (totalMinutes "-2.05" "123") (Num.of_Z 0) = false
  /\ Num.le (totalMinutes "0" "1e-400") (Num.of_Z 0) = true.
Proof. vm_compute. auto 10. Qed.

Example subtraction_rounds :
  Num.sub (Num.of_Z (2 ^ 53 + 2)) (Num.of_Z 1) = Num.of_Z (2 ^ 53)
  /\ Num.sub (Num.of_Z (2 ^ 53)) (Num.of_Z 1) = Num.of_Z (2 ^ 53 - 1).
Proof. vm_compute. auto. Qed.

Example demo_armed_timer :
  appTimer (state demo_armed) = Num.of_Z 60 /\ appIntervalRef demo_armed = Some 2%positive.
Proof. vm_compute. auto. Qed.

Example demo_fired :
  let w := run (repeat (Tick 2) 60) demo_armed in
  invoked w = [get_running_apps; kill_process 4242]
  /\ appTimer (state w) = Num.of_Z 0 /\ timers w !! 2%positive = None.
Proof. vm_compute. auto. Qed.
Local Open Scope string_scope.

(** * Display names *)

(** ** Facts on the string built-ins *)

Section StringFacts.

Lemma append_cons c (s u : string) : String c s ++ u = String c (s ++ u).
Proof. reflexivity. Qed.

Lemma append_empty (u : string) : "" ++ u = u.
Proof. reflexivity. Qed.




Lemma drop_all (s : string) n : (String.length s <= n)%nat -> JS.drop n s = "".
Proof.
  revert n. induction s as [|c s IH]; intros [|n] Hn; simpl in *; try done; try lia.
  apply IH. lia.
Qed.

Lemma append_empty_r (s : string) : s ++ "" = s.
Proof. induction s as [|c s IH]; [done|]. by rewrite append_cons, IH. Qed.

Lemma length_append (s u : string) :
  String.length (s ++ u) = (String.length s + String.length u)%nat.
Proof. induction s as [|c s IH]; [done|]. rewrite append_cons. simpl. by rewrite IH. Qed.

Lemma toLowerCase_append (s u : string) :
  JS.toLowerCase (s ++ u) = JS.toLowerCase s ++ JS.toLowerCase u.
Proof. induction s as [|c s IH]; [done|]. rewrite append_cons. simpl. by rewrite IH. Qed.

Lemma length_toLowerCase (s : string) :
  String.length (JS.toLowerCase s) = String.length s.
Proof. induction s as [|c s IH]; [done|]. simpl. by rewrite IH. Qed.




Lemma includes_indexOf_Some (s p : string) :
  JS.includes s p = true <-> exists i, JS.indexOf s p = Some i.
Proof.
  unfold JS.includes. destruct (JS.indexOf s p) as [i|]; split; try done; eauto.
  by intros [? ?].
Qed.

(** The head of [s.split(sep)] is the text before the first occurrence. *)
Lemma first_split (s sep : string) i :
  sep <> "" -> JS.indexOf s sep = Some i ->
  JS.first (JS.split s sep) = JS.take i s.
Proof.
  intros Hsep Hi. unfold JS.split.
  destruct s as [|c s].
  - simpl in Hi. destruct sep; [done|]. by simpl in Hi.
  - cbn [String.length JS.split_from]. by rewrite Hi.
Qed.

End StringFacts.

(** Whether a pattern starts at the head of a string whose tail is known:
    the comparisons of characters are decided one by one. *)
Ltac head_cases :=
  repeat match goal with
         | H : context [ascii_dec ?a ?b] |- _ =>
             destruct (ascii_dec a b); simpl in H; try discriminate; subst
         | |- context [ascii_dec ?a ?b] =>
             destruct (ascii_dec a b); simpl; try discriminate; try congruence; subst
         end.

(** A pattern of four characters beginning with a dot that occurs neither
    in [base] nor, beginning with its second, third or fourth character,
    at the head of [ext], does not begin inside [base] in [base ++ ext]. *)
Lemma prefix_empty (s : string) : String.prefix "" s = true.
Proof. by destruct s. Qed.



Example policy_vectors :
  Policy.resolve (proc 1 "chrome.exe" "My Page - Google Chrome") = "Google Chrome"
  /\ Policy.resolve (proc 1 "notes.exe" "budget.txt - Notes") = "budget.txt"
  /\ Policy.resolve (proc 1 "service.exe" "") = "service".
Proof. vm_compute. auto. Qed.

(** ** The code against the policy *)

Lemma browser_loop_find (entries : list (string * string)) (processName : string) :
  browser_loop entries processName =
  snd <$> List.find (fun entry => JS.includes processName (fst entry)) entries.
Proof.
  induction entries as [|[key friendly] rest IH]; [done|].
  simpl. by destruct (JS.includes processName key).
Qed.

Lemma separator_loop_find (seps : list string) (title : string) :
  Forall (fun sep => sep <> "") seps ->
  separator_loop seps title =
  match List.find (JS.includes title) seps with
  | Some sep => (fun i => JS.trim (JS.take i title)) <$> JS.indexOf title sep
  | None => None
  end.
Proof.
  induction 1 as [|sep rest Hsep _ IH]; [done|].
  simpl. destruct (JS.includes title sep) eqn:Hin; [|done].
  apply includes_indexOf_Some in Hin as [i Hi].
  by rewrite Hi, (first_split _ _ i).
Qed.

Lemma separators_nonempty : Forall (fun sep => sep <> "") separators.
Proof. unfold separators. by repeat constructor. Qed.







(** C9 (as amended).  [getAppDisplayName] returns a string for every record;
    the string is empty in two cases only: the title is empty and nothing of
    the name is left once [.exe] and [.EXE] are removed, or no browser key
    matches and nothing but white space precedes the separator that cuts the
    title. *)
Theorem display_name_empty_iff (app : ProcessInfo) :
  getAppDisplayName app = "" <->
  (title app = ""
   /\ JS.replace (JS.replace (name app) ".exe" "") ".EXE" "" = "")
  \/ (title app <> ""
      /\ Policy.browser (name app) = None
      /\ exists sep i,
           List.find (JS.includes (title app)) separators = Some sep
           /\ JS.indexOf (title app) sep = Some i
           /\ JS.trim (JS.take i (title app)) = "").
Proof.
  unfold getAppDisplayName, Policy.browser.
  rewrite browser_loop_find, (separator_loop_find _ _ separators_nonempty).
  remember (List.find (JS.includes (title app)) separators) as found eqn:Hsep.
  symmetry in Hsep.
  destruct (decide (title app = "")) as [Hempty|Hfull].
  { split; [by left|]. by intros [[_ ?]|[? _]]. }
  destruct (List.find _ browsers) as [[key friendly]|] eqn:Hbrowser.
  { simpl. split; [|by intros [[? _]|(_ & ? & _)]].
    intros ->. apply find_some in Hbrowser as [Hin _].
    unfold browsers in Hin. simpl in Hin.
    destruct Hin as [?|[?|[?|[?|[?|[]]]]]]; discriminate. }
  simpl. destruct found as [sep|].
  - destruct (JS.indexOf (title app) sep) as [i|] eqn:Hi; simpl.
    + split.
      * intros Hnone. right. split; [done|]. split; [done|]. by exists sep, i.
      * intros [[? _]|(_ & _ & sep' & i' & ? & ? & ?)]; [done|]. by simplify_eq.
    + split; [done|].
      intros [[? _]|(_ & _ & sep' & i' & ? & ? & ?)]; [done|]. by simplify_eq.
  - split; [done|].
    intros [[? _]|(_ & _ & sep' & i' & ? & ? & ?)]; done.
Qed.

(** C9 (as stated) fails: the result can be the empty string. *)
Lemma display_name_can_be_empty :
  getAppDisplayName (proc 7 "notes.exe" " - Notes") = ""
  /\ getAppDisplayName (proc 8 ".exe" "") = "".
Proof. vm_compute. auto. Qed.
Local Open Scope list_scope.

(** * Numbers *)

(** ** Rounding to binary64 *)

Section Rounding.

Local Open Scope Z_scope.

Lemma nearest_even_exact (m d : Z) : 0 < d -> Num.nearest_even (m * d) d = m.
Proof.
  intros Hd. unfold Num.nearest_even.
  rewrite Z.div_mul, Z.mod_mul by lia.
  by replace (2 * 0 ?= d) with Lt by (symmetry; apply Z.compare_lt_iff; lia).
Qed.

Lemma nearest_even_bounds (n d b : Z) :
  0 <= n -> 0 < d -> n / d < b ->
  0 <= Num.nearest_even n d <= b.
Proof.
  intros Hn Hd Hb. unfold Num.nearest_even.
  assert (0 <= n / d) by (apply Z.div_pos; lia).
  destruct (2 * (n mod d) ?= d); [destruct (Z.even (n / d))|..]; lia.
Qed.

Lemma spacing_nonneg (n d : Z) : 0 <= Num.spacing n d.
Proof. unfold Num.spacing. lia. Qed.

(** A magnitude of at most 53 bits times a power of two is not moved. *)
Lemma nearest_exact (d m k : Z) :
  0 < d -> 0 <= m <= 2 ^ 53 -> 0 <= k ->
  Num.nearest (m * 2 ^ k * d) d = m * 2 ^ k.
Proof.
  intros Hd Hm Hk. unfold Num.nearest.
  assert (exists m', m * 2 ^ k = m' * 2 ^ Num.spacing (m * 2 ^ k * d) d) as [m' Hm'].
  { unfold Num.spacing. rewrite Z.div_mul by lia.
    destruct (Z.eq_dec m 0) as [->|Hm0].
    { exists 0. lia. }
    rewrite Z.log2_mul_pow2 by lia.
    destruct (Z.eq_dec m (2 ^ 53)) as [->|Hm53].
    - rewrite Z.log2_pow2 by lia.
      replace (Z.max 0 (k + 53 - 52)) with (k + 1) by lia.
      exists (2 ^ 52). rewrite <- !Z.pow_add_r by lia. f_equal. lia.
    - assert (Z.log2 m < 53) by (apply Z.log2_lt_pow2; lia).
      pose proof (Z.log2_nonneg m).
      exists (m * 2 ^ (k - Z.max 0 (k + Z.log2 m - 52))).
      rewrite <- Z.mul_assoc, <- Z.pow_add_r by lia. do 2 f_equal. lia. }
  pose proof (spacing_nonneg (m * 2 ^ k * d) d) as Hs.
  set (s := Num.spacing (m * 2 ^ k * d) d) in *. clearbody s.
  rewrite Hm'.
  replace (m' * 2 ^ s * d) with (m' * (d * 2 ^ s)) by lia.
  rewrite nearest_even_exact; [done|]. apply Z.mul_pos_pos; [done|].
  by apply Z.pow_pos_nonneg.
Qed.

(** What is rounded has at most 53 bits before its spacing. *)
Lemma nearest_bounds (n d : Z) :
  0 <= n -> 0 < d ->
  exists m, Num.nearest n d = m * 2 ^ Num.spacing n d /\ 0 <= m <= 2 ^ 53.
Proof.
  intros Hn Hd. unfold Num.nearest.
  pose proof (spacing_nonneg n d) as Hs.
  eexists. split; [reflexivity|].
  assert (0 < 2 ^ Num.spacing n d) as Hpow by (by apply Z.pow_pos_nonneg).
  apply nearest_even_bounds; [done|lia|].
  rewrite <- Z.div_div by lia.
  assert (0 <= n / d) as Hq by (apply Z.div_pos; lia).
  apply Z.div_lt_upper_bound; [done|].
  destruct (Z.eq_dec (n / d) 0) as [->|Hq0]; [lia|].
  destruct (Z.log2_spec (n / d)) as [_ Hlt]; [lia|].
  eapply Z.lt_le_trans; [exact Hlt|].
  rewrite <- Z.pow_add_r by lia.
  apply Z.pow_le_mono_r; [lia|]. unfold Num.spacing. lia.
Qed.

Lemma nearest_nonneg (n d : Z) : 0 <= n -> 0 < d -> 0 <= Num.nearest n d.
Proof.
  intros Hn Hd. destruct (nearest_bounds n d Hn Hd) as (m & -> & Hm).
  apply Z.mul_nonneg_nonneg; [lia|]. apply Z.pow_nonneg. lia.
Qed.

Lemma units_nonneg (q : Q) : 0 <= Num.units q.
Proof.
  unfold Num.units. apply nearest_nonneg; [|done].
  apply Z.mul_nonneg_nonneg; [lia|]. apply Z.pow_nonneg. lia.
Qed.

Lemma unit_pos : Z.pos (Z.to_pos (2 ^ Num.unit_bits)) = 2 ^ Num.unit_bits.
Proof. apply Z2Pos.id. by apply Z.pow_pos_nonneg. Qed.

End Rounding.

Lemma Qred_Qred (q : Q) : Qred (Qred q) = Qred q.
Proof. apply Qred_complete, Qred_correct. Qed.

(** Rounding depends on the value only. *)
Lemma round64_comp (q q' : Q) : (q == q')%Q -> Num.round64 q = Num.round64 q'.
Proof. intros H. unfold Num.round64. by rewrite (Qred_complete _ _ H). Qed.

(** The value that [Num.round64] returns when the units are [u]. *)
Lemma signed_units (q : Q) (u : Z) :
  (Z.abs (Qnum q) * 2 ^ Num.unit_bits = u * Z.pos (Qden q))%Z ->
  (Qmake (Z.sgn (Qnum q) * u) (Z.to_pos (2 ^ Num.unit_bits)) == q)%Q.
Proof.
  intros Hu. unfold Qeq. cbn [Qnum Qden]. rewrite unit_pos.
  rewrite <- (Z.abs_sgn (Qnum q)) at 2. lia.
Qed.

(** A rational of at most 53 bits times a power of two that is at least
    [2 ^ -1074] and below [2 ^ 1024] is a binary64: rounding returns it. *)
Lemma round64_exact (q : Q) (m k : Z) :
  (0 <= m <= 2 ^ 53)%Z -> (0 <= k)%Z -> (m * 2 ^ k < 2 ^ 2098)%Z ->
  (Z.abs (Qnum (Qred q)) * 2 ^ Num.unit_bits = m * 2 ^ k * Z.pos (Qden (Qred q)))%Z ->
  Num.round64 q = Num.fin q.
Proof.
  intros Hm Hk Hmax Hq. unfold Num.round64.
  assert (Num.units (Qred q) = (m * 2 ^ k)%Z) as ->.
  { unfold Num.units. rewrite Hq. by apply nearest_exact. }
  replace (2 ^ 2098 <=? m * 2 ^ k)%Z with false by (symmetry; apply Z.leb_gt; lia).
  unfold Num.fin. f_equal. transitivity (Qred (Qred q)); [|apply Qred_Qred].
  apply Qred_complete. by apply signed_units.
Qed.

(** The whole numbers up to [2 ^ 53] are binary64 values. *)
Lemma round64_Z (z : Z) :
  (Z.abs z <= 2 ^ 53)%Z -> Num.round64 (inject_Z z) = Num.of_Z z.
Proof.
  intros Hz.
  rewrite (round64_exact _ (Z.abs z) Num.unit_bits); try done.
  - unfold Num.fin, Num.of_Z. by rewrite inject_Z_Qred.
  - lia.
  - apply Z.le_lt_trans with (2 ^ 53 * 2 ^ Num.unit_bits)%Z.
    + apply Z.mul_le_mono_nonneg_r; [by apply Z.pow_nonneg|done].
    + rewrite <- Z.pow_add_r by done. by apply Z.pow_lt_mono_r.
  - rewrite inject_Z_Qred. simpl. lia.
Qed.

(** What [Num.round64] returns: an infinity, or the units of the magnitude
    with the sign. *)
Lemma round64_spec (q : Q) :
  let r := Qred q in
  let u := Num.units r in
  exists m : Z,
    (u = m * 2 ^ Num.spacing (Z.abs (Qnum r) * 2 ^ Num.unit_bits) (Z.pos (Qden r)))%Z
    /\ (0 <= m <= 2 ^ 53)%Z
    /\ (Qnum r = 0%Z -> u = 0%Z)
    /\ ((2 ^ 2098 <= u)%Z
        /\ Num.round64 q = (if (Qnum r <? 0)%Z then NegInfinity else PosInfinity)
        \/ (u < 2 ^ 2098)%Z
           /\ Num.round64 q
              = Num.fin (Qmake (Z.sgn (Qnum r) * u) (Z.to_pos (2 ^ Num.unit_bits)))).
Proof.
  intros r u.
  destruct (nearest_bounds (Z.abs (Qnum r) * 2 ^ Num.unit_bits) (Z.pos (Qden r)))
    as (m & Hm & Hbounds); [|done|].
  { apply Z.mul_nonneg_nonneg; [lia|]. by apply Z.pow_nonneg. }
  exists m. split; [done|]. split; [done|]. split.
  - intros Hzero. unfold u, Num.units. rewrite Hzero.
    change (Z.abs 0 * 2 ^ Num.unit_bits)%Z with (0 * 2 ^ 0 * Z.pos (Qden r))%Z.
    by rewrite nearest_exact.
  - unfold Num.round64. fold r u.
    destruct (2 ^ 2098 <=? u)%Z eqn:Hover.
    + left. split; [by apply Z.leb_le|done].
    + right. split; [by apply Z.leb_gt|done].
Qed.

(** A rounded value is not moved by rounding it again. *)
Lemma round64_idem (q r : Q) : Num.round64 q = Fin r -> Num.round64 r = Fin r.
Proof.
  intros Hq.
  destruct (round64_spec q) as (m & Hm & Hbounds & Hzero & [[_ Hinf]|[Hmax Hfin]]).
  { rewrite Hq in Hinf. by destruct (_ <? _)%Z. }
  set (s := Z.sgn (Qnum (Qred q))) in *.
  set (u := Num.units (Qred q)) in *.
  set (k := Num.spacing _ _) in Hm.
  assert (0 <= k)%Z as Hk by apply spacing_nonneg.
  clearbody k.
  assert (r = Qred (Qmake (s * u) (Z.to_pos (2 ^ Num.unit_bits)))) as Hr
    by (unfold Num.fin in Hfin; congruence).
  assert (Qred r = r) as Hred by (rewrite Hr; apply Qred_Qred).
  assert (0 <= u)%Z as Hu by apply units_nonneg.
  assert (Z.abs s * u = u)%Z as Hsu.
  { destruct (Z.eq_dec (Qnum (Qred q)) 0%Z) as [H0|H0]; [rewrite Hzero by done; lia|].
    unfold s. lia. }
  assert (r == Qmake (s * u) (Z.to_pos (2 ^ Num.unit_bits)))%Q as Heq
    by (rewrite Hr; apply Qred_correct).
  unfold Qeq in Heq. cbn [Qnum Qden] in Heq. rewrite unit_pos in Heq.
  rewrite (round64_exact r m k); [unfold Num.fin; by rewrite Hred|done|done|lia|].
  rewrite Hred, <- Hm.
  assert (0 <= 2 ^ Num.unit_bits)%Z by (by apply Z.pow_nonneg).
  apply (f_equal Z.abs) in Heq. rewrite !Z.abs_mul in Heq.
  rewrite (Z.abs_eq (2 ^ Num.unit_bits)), (Z.abs_eq u), (Z.abs_eq (Z.pos _)) in Heq
    by done.
  by rewrite Hsu in Heq.
Qed.

(** Rounding keeps the sign. *)
Lemma round64_nonneg (q : Q) :
  (0 <= q)%Q ->
  Num.round64 q = PosInfinity \/ exists r, Num.round64 q = Fin r /\ (0 <= r)%Q.
Proof.
  intros Hq.
  assert (0 <= Qnum (Qred q))%Z as Hnum.
  { rewrite <- (Qred_correct q) in Hq. unfold Qle in Hq. simpl in Hq. lia. }
  destruct (round64_spec q) as (m & _ & _ & _ & [[_ Hinf]|[_ Hfin]]).
  - left. rewrite Hinf. by replace (_ <? _)%Z with false by (symmetry; apply Z.ltb_ge; lia).
  - right. eexists. split; [exact Hfin|].
    rewrite Qred_correct. unfold Qle. cbn [Qnum Qden].
    pose proof (units_nonneg (Qred q)). nia.
Qed.

Lemma round64_nonpos (q : Q) :
  (q <= 0)%Q ->
  Num.round64 q = NegInfinity \/ exists r, Num.round64 q = Fin r /\ (r <= 0)%Q.
Proof.
  intros Hq.
  assert (Qnum (Qred q) <= 0)%Z as Hnum.
  { rewrite <- (Qred_correct q) in Hq. unfold Qle in Hq. simpl in Hq. lia. }
  destruct (round64_spec q) as (m & _ & _ & Hzero & [[Hmax Hinf]|[_ Hfin]]).
  - left. rewrite Hinf.
    destruct (Z.eq_dec (Qnum (Qred q)) 0%Z) as [H0|H0].
    + rewrite Hzero in Hmax by done.
      assert (0 < 2 ^ 2098)%Z by (by apply Z.pow_pos_nonneg). lia.
    + by replace (_ <? _)%Z with true by (symmetry; apply Z.ltb_lt; lia).
  - right. eexists. split; [exact Hfin|].
    rewrite Qred_correct. unfold Qle. cbn [Qnum Qden].
    pose proof (units_nonneg (Qred q)). nia.
Qed.

(** ** Whole numbers *)

Lemma neg_of_Z (a : Z) : Num.neg (Num.of_Z a) = Num.of_Z (- a).
Proof.
  unfold Num.neg, Num.of_Z, Num.fin. by rewrite <- inject_Z_opp, inject_Z_Qred.
Qed.

Lemma add_of_Z (a b : Z) :
  (Z.abs (a + b) <= 2 ^ 53)%Z ->
  Num.add (Num.of_Z a) (Num.of_Z b) = Num.of_Z (a + b).
Proof.
  intros H. unfold Num.add, Num.of_Z. rewrite <- inject_Z_plus.
  by apply round64_Z.
Qed.

Lemma sub_of_Z (a b : Z) :
  (Z.abs (a - b) <= 2 ^ 53)%Z ->
  Num.sub (Num.of_Z a) (Num.of_Z b) = Num.of_Z (a - b).
Proof. intros H. unfold Num.sub. rewrite neg_of_Z. by apply add_of_Z. Qed.

Lemma mul_of_Z (a b : Z) :
  (Z.abs (a * b) <= 2 ^ 53)%Z ->
  Num.mul (Num.of_Z a) (Num.of_Z b) = Num.of_Z (a * b).
Proof.
  intros H. unfold Num.mul, Num.of_Z. rewrite <- inject_Z_mult.
  by apply round64_Z.
Qed.

Lemma floor_of_Z (a : Z) : Num.floor (Num.of_Z a) = Num.of_Z a.
Proof. unfold Num.floor, Num.of_Z. by rewrite Qfloor_Z. Qed.

Lemma le_of_Z (a b : Z) : Num.le (Num.of_Z a) (Num.of_Z b) = (a <=? b)%Z.
Proof. unfold Num.le, Num.of_Z, Qle_bool. simpl. by rewrite !Z.mul_1_r. Qed.

Lemma gt_of_Z (a b : Z) : Num.gt (Num.of_Z a) (Num.of_Z b) = negb (a <=? b)%Z.
Proof. unfold Num.gt. by rewrite le_of_Z. Qed.

Lemma of_Z_inj (a b : Z) : Num.of_Z a = Num.of_Z b -> a = b.
Proof. unfold Num.of_Z, inject_Z. congruence. Qed.

Lemma whole_zero : whole (Num.of_Z 0).
Proof. right. right. by exists 0%Z. Qed.

(** A whole number that is not negative is rounded to one. *)
Lemma round64_whole (z : Z) : (0 <= z)%Z -> whole (Num.round64 (inject_Z z)).
Proof.
  intros Hz. destruct (Z.le_gt_cases z (2 ^ 53)) as [Hsmall|Hbig].
  { rewrite round64_Z by lia. right. right. by exists z. }
  destruct (round64_spec (inject_Z z)) as (m & Hm & Hbounds & _ & [[_ Hinf]|[_ Hfin]]).
  { right. left. rewrite Hinf, inject_Z_Qred. simpl.
    by replace (z <? 0)%Z with false by (symmetry; apply Z.ltb_ge; lia). }
  right. right. rewrite inject_Z_Qred in *. cbn [inject_Z Qnum Qden] in *.
  set (u := Num.units _) in *. clearbody u.
  assert (53 <= Z.log2 z)%Z as Hlog by (apply Z.log2_le_pow2; lia).
  assert (Num.spacing (Z.abs z * 2 ^ Num.unit_bits) 1
          = Z.log2 z + Num.unit_bits - 52)%Z as Hspacing.
  { unfold Num.spacing. rewrite Z.div_1_r, Z.abs_eq, Z.log2_mul_pow2 by (try done; lia).
    unfold Num.unit_bits. lia. }
  rewrite Hspacing in Hm.
  exists (m * 2 ^ (Z.log2 z - 52))%Z. split.
  { apply Z.mul_nonneg_nonneg; [lia|]. apply Z.pow_nonneg. lia. }
  rewrite Hfin. unfold Num.fin, Num.of_Z. f_equal.
  rewrite <- (inject_Z_Qred (m * 2 ^ (Z.log2 z - 52))).
  apply Qred_complete. unfold Qeq. cbn [inject_Z Qnum Qden]. rewrite unit_pos.
  rewrite Z.sgn_pos by lia. rewrite Hm.
  replace (Z.log2 z + Num.unit_bits - 52)%Z with ((Z.log2 z - 52) + Num.unit_bits)%Z by lia.
  rewrite Z.pow_add_r by (unfold Num.unit_bits; lia). lia.
Qed.

(** A duration of at least one second comes from a positive total. *)
Lemma seconds_positive (total : number) (n : Z) :
  seconds total = Num.of_Z n -> (1 <= n)%Z -> Num.le total (Num.of_Z 0) = false.
Proof.
  intros Hsec Hn. destruct total as [| | |q]; try done.
  destruct (Num.le (Fin q) (Num.of_Z 0)) eqn:Hle; [|done].
  unfold Num.le, Num.of_Z in Hle. apply Qle_bool_imp_le in Hle.
  unfold seconds, Num.mul, Num.of_Z in Hsec.
  destruct (round64_nonpos (q * inject_Z 60)) as [Hinf|(r & Hr & Hneg)].
  { change (inject_Z 0) with (0 * inject_Z 60)%Q in Hle.
    change 0%Q with (0 * inject_Z 60)%Q.
    by apply Qmult_le_compat_r. }
  - by rewrite Hinf in Hsec.
  - rewrite Hr in Hsec. unfold Num.floor in Hsec. apply of_Z_inj in Hsec.
    apply Qfloor_resp_le in Hneg. change 0%Q with (inject_Z 0) in Hneg.
    rewrite Qfloor_Z in Hneg. lia.
Qed.

(** The seconds of an accepted total are whole. *)
Lemma whole_seconds (total : number) :
  Num.le total (Num.of_Z 0) = false -> whole (seconds total).
Proof.
  intros Hle. destruct total as [| | |q]; [by left|by (right; left)|done|].
  unfold Num.le, Num.of_Z in Hle.
  assert (~ (q <= inject_Z 0)%Q) as Hq.
  { intros Hq%Qle_bool_iff. congruence. }
  apply Qnot_le_lt in Hq.
  unfold seconds, Num.mul, Num.of_Z.
  destruct (round64_nonneg (q * inject_Z 60)) as [->|(r & -> & Hpos)].
  { change 0%Q with (0 * inject_Z 60)%Q.
    apply Qmult_le_compat_r; [by apply Qlt_le_weak|done]. }
  - by right; left.
  - right. right. eexists. split; [|reflexivity].
    rewrite <- (Qfloor_Z 0). by apply Qfloor_resp_le.
Qed.

(** One second less of a whole time above one is whole. *)
Lemma whole_tick (prev : number) :
  whole prev -> Num.le prev (Num.of_Z 1) = false ->
  whole (Num.sub prev (Num.of_Z 1)).
Proof.
  intros [->|[->|(n & Hn & ->)]] Hle; [by left|by (right; left)|].
  rewrite le_of_Z in Hle. apply Z.leb_gt in Hle.
  unfold Num.sub. rewrite neg_of_Z. unfold Num.add, Num.of_Z.
  rewrite <- inject_Z_plus. apply round64_whole. lia.
Qed.

(** ** What [parseFloat] returns *)

Lemma round64_opp (q : Q) : Num.round64 (- q) = Num.neg (Num.round64 q).
Proof.
  unfold Num.round64. rewrite Qred_opp.
  assert (Num.units (- Qred q) = Num.units (Qred q)) as ->.
  { unfold Num.units. cbn [Qopp Qnum Qden]. by rewrite Z.abs_opp. }
  destruct (2 ^ 2098 <=? Num.units (Qred q))%Z eqn:Hover.
  - cbn [Qopp Qnum].
    destruct (Z.eq_dec (Qnum (Qred q)) 0%Z) as [Hzero|Hzero].
    + destruct (round64_spec q) as (_ & _ & _ & Hunits & _).
      cbv zeta in Hunits. rewrite Hunits in Hover by done.
      apply Z.leb_le in Hover.
      assert (0 < 2 ^ 2098)%Z by (by apply Z.pow_pos_nonneg). lia.
    + destruct (Qnum (Qred q) <? 0)%Z eqn:Hneg.
      * apply Z.ltb_lt in Hneg.
        by replace (- Qnum (Qred q) <? 0)%Z with false by (symmetry; apply Z.ltb_ge; lia).
      * apply Z.ltb_ge in Hneg.
        by replace (- Qnum (Qred q) <? 0)%Z with true by (symmetry; apply Z.ltb_lt; lia).
  - unfold Num.neg, Num.fin. f_equal.
    set (b := Qmake (Z.sgn (Qnum (Qred q)) * _) _).
    rewrite (Qred_opp (Qred b)), Qred_Qred, <- (Qred_opp b). unfold b.
    cbn [Qopp Qnum Qden]. by rewrite Z.sgn_opp, Z.mul_opp_l.
Qed.

(** A number read by [parseFloat] is a binary64 value: rounding does not
    move it. *)
Lemma parseFloat_rounded (s : string) (q : Q) :
  Num.parseFloat s = Fin q -> Num.round64 q = Fin q.
Proof.
  unfold Num.parseFloat.
  destruct (Num.sign (JS.trimStart s)) as [minus s1].
  destruct (JS.startsWith s1 "Infinity"); [by destruct minus|].
  destruct (Num.digits s1 0 0) as [[int int_count] s2].
  destruct (match s2 with String "." s2' => Num.digits s2' int 0 | _ => (int, O, s2) end)
    as [[frac frac_count] s3].
  destruct (int_count + frac_count)%nat; [done|].
  set (x := (inject_Z frac * _)%Q). clearbody x.
  destruct minus; [|apply round64_idem].
  rewrite <- round64_opp. apply round64_idem.
Qed.

(** * Facts on worlds *)


(** What every step keeps holds after any events. *)
Lemma run_invariant (P : World -> Prop) :
  (forall e w, P w -> P (step e w)) ->
  forall es w, P w -> P (run es w).
Proof.
  intros Hstep es. induction es as [|e es IH]; intros w Hw; [done|].
  simpl. apply IH. by apply Hstep.
Qed.

(** ** Starting a slot *)

Lemma click_start_app (w0 : World) (n : Z) :
  is_Some (selectedApp (state w0)) ->
  Num.gt (appTimer (state w0)) (Num.of_Z 0) = false ->
  seconds (totalMinutes (appHours (state w0)) (appMinutes (state w0))) = Num.of_Z n ->
  (1 <= n)%Z ->
  step ClickStartApp w0 = app_armed w0 (Num.of_Z n).
Proof.
  intros [app Hsel] Hidle Hsec Hn. simpl.
  unfold startApp_disabled, startAppTimer. rewrite Hidle, Hsel. simpl.
  rewrite (seconds_positive _ n) by done. by rewrite Hsec.
Qed.

Lemma click_start_sys (w0 : World) (n : Z) :
  Num.gt (sysTimer (state w0)) (Num.of_Z 0) = false ->
  seconds (totalMinutes (sysHours (state w0)) (sysMinutes (state w0))) = Num.of_Z n ->
  (1 <= n)%Z ->
  step ClickStartSys w0 = sys_armed w0 (Num.of_Z n).
Proof.
  intros Hidle Hsec Hn. simpl.
  unfold startSys_disabled, startSysTimer. rewrite Hidle.
  rewrite (seconds_positive _ n) by done. by rewrite Hsec.
Qed.

Lemma executeSysAction_power (r : State) (w : World) :
  executeSysAction r w =
  match power_command (sysAction r) with
  | Some c => invoke c SysAction_done w
  | None => w
  end.
Proof.
  unfold executeSysAction, power_command.
  by repeat (case_decide; [done|]).
Qed.

Lemma click_start (slot : Slot) (w0 : World) (c : Command) (n : Z) :
  configured slot (state w0) = Some c ->
  Num.gt (remaining slot (state w0)) (Num.of_Z 0) = false ->
  duration slot (state w0) = Num.of_Z n ->
  (1 <= n)%Z ->
  step (ClickStart slot) w0 = armed slot w0 (Num.of_Z n).
Proof.
  destruct slot; intros Hc Hidle Hsec Hn.
  - apply click_start_app; try done.
    simpl in Hc. by destruct (selectedApp (state w0)).
  - by apply click_start_sys.
Qed.

(** ** What one event can do to the intervals and to the calls *)

Lemma kills_app (cs : list Command) (c : Command) :
  kills (cs ++ [c]) = kills cs ++ (if is_kill c then [c] else []).
Proof. unfold kills. rewrite List.filter_app. simpl. by destruct (is_kill c). Qed.

Lemma kills_loadApps (w : World) : kills (invoked (loadApps w)) = kills (invoked w).
Proof. simpl. rewrite kills_app. simpl. apply app_nil_r. Qed.

Lemma kills_executeSysAction (r : State) (w : World) :
  kills (invoked (executeSysAction r w)) = kills (invoked w).
Proof.
  rewrite executeSysAction_power. unfold power_command.
  repeat case_decide; simpl; rewrite ?kills_app; simpl; by rewrite ?app_nil_r.
Qed.

Lemma timers_executeSysAction (r : State) (w : World) :
  timers (executeSysAction r w) = timers w.
Proof. rewrite executeSysAction_power. by destruct (power_command _). Qed.

Lemma timers_executeAppShutdown (r : State) (w : World) :
  timers (executeAppShutdown r w) = timers w.
Proof. unfold executeAppShutdown. by destruct (selectedApp r). Qed.

Lemma timers_clearInterval (o : option positive) (w : World) h cb :
  timers (clearInterval o w) !! h = Some cb -> timers w !! h = Some cb.
Proof. destruct o as [h'|]; [|done]. simpl. by intros [_ ?]%lookup_delete_Some. Qed.

Lemma timers_resume (k : Continuation) (v : Value) (w : World) :
  timers (resume k v w) = timers w.
Proof.
  destruct k as [|r|r|]; simpl; try done.
  - by destruct v.
  - by destruct (shutdownAfter r).
Qed.

Lemma kills_resume (k : Continuation) (v : Value) (w : World) :
  kills (invoked (resume k v w)) = kills (invoked w).
Proof.
  destruct k as [|r|r|]; simpl; try done.
  - by destruct v.
  - destruct (shutdownAfter r); simpl; rewrite kills_app; simpl; apply app_nil_r.
  - rewrite kills_app. simpl. apply app_nil_r.
Qed.

Lemma timers_abandon (k : Continuation) (cause : string) (w : World) :
  timers (abandon k cause w) = timers w.
Proof. by destruct k. Qed.

Lemma kills_abandon (k : Continuation) (cause : string) (w : World) :
  invoked (abandon k cause w) = invoked w.
Proof. by destruct k. Qed.

(** An interval that is active after an event was active before it, or was
    started by it. *)
Lemma timers_step (e : Event) (w : World) (h : positive) (cb : Callback) :
  timers (step e w) !! h = Some cb ->
  timers w !! h = Some cb
  \/ (e = ClickStartApp /\ cb = AppTick (state w))
  \/ (e = ClickStartSys /\ cb = SysTick (state w)).
Proof.
  destruct e; simpl; try (by left).
  - destruct (timers w !! h0) as [[r|r|]|]; try (by left).
    + unfold appTick. destruct (Num.le _ _); [|by left].
      simpl. rewrite timers_executeAppShutdown.
      intros ?%timers_clearInterval. by left.
    + unfold sysTick. destruct (Num.le _ _); [|by left].
      simpl. rewrite timers_executeSysAction.
      intros ?%timers_clearInterval. by left.
  - destruct (promises w !! p) as [k|]; [|by left].
    destruct (expected k v); [|by left]. rewrite timers_resume. by left.
  - destruct (promises w !! p) as [k|]; [|by left].
    rewrite timers_abandon. by left.
  - case_bool_decide; [|by left]. unfold toggleSelection.
    destruct (selectedApp (state w)); [case_decide|]; by left.
  - destruct (startApp_disabled (state w)); [by left|].
    unfold startAppTimer. destruct (selectedApp (state w)); [|by left].
    destruct (Num.le _ _); [by left|]. simpl.
    intros [[_ <-]|[_ ?]]%lookup_insert_Some; [right; by left|by left].
  - intros ?%timers_clearInterval. by left.
  - destruct (startSys_disabled (state w)); [by left|].
    unfold startSysTimer. destruct (Num.le _ _); [by left|]. simpl.
    intros [[_ <-]|[_ ?]]%lookup_insert_Some; [right; by right|by left].
  - intros ?%timers_clearInterval. by left.
Qed.

Lemma no_app_ticks_spec (w : World) :
  no_app_ticks w = true <-> forall h r, timers w !! h <> Some (AppTick r).
Proof.
  unfold no_app_ticks. rewrite forallb_forall. split.
  - intros Hall h r Hh. apply elem_of_map_to_list, list_elem_of_In in Hh.
    by apply Hall in Hh.
  - intros Hnone [h cb] Hin%list_elem_of_In%elem_of_map_to_list.
    destruct cb; try done. by apply Hnone in Hin.
Qed.

Lemma no_sys_ticks_spec (w : World) :
  no_sys_ticks w = true <-> forall h r, timers w !! h <> Some (SysTick r).
Proof.
  unfold no_sys_ticks. rewrite forallb_forall. split.
  - intros Hall h r Hh. apply elem_of_map_to_list, list_elem_of_In in Hh.
    by apply Hall in Hh.
  - intros Hnone [h cb] Hin%list_elem_of_In%elem_of_map_to_list.
    destruct cb; try done. by apply Hnone in Hin.
Qed.

Lemma idle_spec (slot : Slot) (w : World) :
  idle slot w = true <-> forall h r, timers w !! h <> Some (tick_of slot r).
Proof. destruct slot; [apply no_app_ticks_spec|apply no_sys_ticks_spec]. Qed.

(** A slot without a tick source keeps none until it is started. *)
Lemma idle_step (slot : Slot) (e : Event) (w : World) :
  e <> ClickStart slot -> idle slot w = true -> idle slot (step e w) = true.
Proof.
  rewrite !idle_spec. intros He Hidle h r Hh.
  apply timers_step in Hh as [Hh|[[-> Hcb]|[-> Hcb]]].
  - by apply Hidle in Hh.
  - by destruct slot.
  - by destruct slot.
Qed.

(** No event makes an idle app slot call [kill_process]. *)
Lemma idle_step_kills (e : Event) (w : World) :
  idle AppSlot w = true -> kills (invoked (step e w)) = kills (invoked w).
Proof.
  intros Hidle0. pose proof (proj1 (idle_spec AppSlot w) Hidle0) as Hidle.
  simpl in Hidle. clear Hidle0. destruct e; simpl; try done.
  - destruct (timers w !! h) as [[r|r|]|] eqn:Hh; try done.
    + by apply Hidle in Hh.
    + unfold sysTick. destruct (Num.le _ _); [|done].
      simpl. rewrite kills_executeSysAction. by destruct (sysIntervalRef w).
    + apply kills_loadApps.
  - apply kills_loadApps.
  - destruct (promises w !! p) as [k|]; [|done].
    destruct (expected k v); [|done]. by rewrite kills_resume.
  - destruct (promises w !! p) as [k|]; [|done]. by rewrite kills_abandon.
  - case_bool_decide; [|done]. unfold toggleSelection.
    destruct (selectedApp (state w)); [case_decide|]; done.
  - destruct (startApp_disabled (state w)); [done|].
    unfold startAppTimer. destruct (selectedApp (state w)); [|done].
    by destruct (Num.le _ _).
  - by destruct (appIntervalRef w).
  - destruct (startSys_disabled (state w)); [done|].
    unfold startSysTimer. by destruct (Num.le _ _).
  - by destruct (sysIntervalRef w).
Qed.

(** ** The intervals of the two slots *)

Lemma intervalRef_commit (slot : Slot) (f : State -> State) (w : World) :
  intervalRef slot (commit f w) = intervalRef slot w.
Proof. by destruct slot. Qed.

Lemma wellformed_frame (w w' : World) :
  timers w' = timers w -> nextTimer w' = nextTimer w ->
  (forall slot, intervalRef slot w' = intervalRef slot w) ->
  wellformed w -> wellformed w'.
Proof.
  intros Ht Hn Hr [Hlt Href]. split.
  - intros h cb. rewrite Ht, Hn. apply Hlt.
  - intros slot h. rewrite Hr, Ht, Hn. apply Href.
Qed.

Lemma wellformed_clearInterval (o : option positive) (w : World) :
  wellformed w -> wellformed (clearInterval o w).
Proof.
  intros [Hlt Href].
  assert (nextTimer (clearInterval o w) = nextTimer w) as Hn by (by destruct o).
  assert (forall slot, intervalRef slot (clearInterval o w) = intervalRef slot w) as Hr
    by (intros []; by destruct o).
  split.
  - intros h cb Hh%timers_clearInterval. rewrite Hn. by apply (Hlt h cb).
  - intros slot h. rewrite Hr, Hn. intros Hslot.
    destruct (Href slot h Hslot) as [Hh Hcb]. split; [done|].
    intros cb Hlook%timers_clearInterval. by apply Hcb.
Qed.

Lemma wellformed_start (slot : Slot) (r : State) (w : World) :
  wellformed w ->
  wellformed
    (match slot with
     | AppSlot => set_appIntervalRef (Some (nextTimer w)) (setInterval (AppTick r) w)
     | SysSlot => set_sysIntervalRef (Some (nextTimer w)) (setInterval (SysTick r) w)
     end).
Proof.
  intros [Hlt Href].
  assert (forall slot' h, intervalRef slot' w = Some h ->
            (h < Pos.succ (nextTimer w))%positive
            /\ forall cb, <[nextTimer w := tick_of slot r]> (timers w) !! h = Some cb ->
                          exists r', cb = tick_of slot' r') as Hold.
  { intros slot' h Hslot. destruct (Href slot' h Hslot) as [Hh Hcb]. split; [lia|].
    intros cb. rewrite lookup_insert_ne by lia. apply Hcb. }
  assert (forall h cb, <[nextTimer w := tick_of slot r]> (timers w) !! h = Some cb ->
            (h < Pos.succ (nextTimer w))%positive) as Hlt'.
  { intros h cb [[<- _]|[_ Hh]]%lookup_insert_Some; [lia|]. apply Hlt in Hh. lia. }
  destruct slot; (split; [exact Hlt'|]); intros [] h Hslot; simpl in *;
    try (by apply (Hold SysSlot)); try (by apply (Hold AppSlot));
    injection Hslot as <-; (split; [lia|]);
    intros cb; rewrite lookup_insert_eq; intros [= <-]; by exists r.
Qed.

Lemma wellformed_mount (l : string) : wellformed (mount l).
Proof.
  split.
  - intros h cb. simpl. intros [[<- _]|[_ Hh]]%lookup_insert_Some; [lia|done].
  - intros slot h Hslot. by destruct slot.
Qed.

Lemma wellformed_step (e : Event) (w : World) : wellformed w -> wellformed (step e w).
Proof.
  intros Hw. destruct e; simpl; try done.
  - destruct (timers w !! h) as [[r|r|]|]; try done.
    + unfold appTick. destruct (Num.le _ _); [|done].
      apply (wellformed_frame (clearInterval (appIntervalRef w) w));
        [..|by apply wellformed_clearInterval];
        unfold executeAppShutdown; destruct (selectedApp r); try done; by intros [].
    + unfold sysTick. destruct (Num.le _ _); [|done].
      apply (wellformed_frame (clearInterval (sysIntervalRef w) w));
        [..|by apply wellformed_clearInterval];
        rewrite executeSysAction_power; destruct (power_command _);
        try done; by intros [].
  - destruct (promises w !! p) as [k|]; [|done].
    destruct (expected k v); [|done].
    apply (wellformed_frame w); [by rewrite timers_resume| | |done].
    + destruct k as [|r|r|]; simpl; try done; [by destruct v|by destruct (shutdownAfter r)].
    + intros slot. destruct k as [|r|r|], slot; simpl; try done;
        try (by destruct v); by destruct (shutdownAfter r).
  - destruct (promises w !! p) as [k|]; [|done].
    apply (wellformed_frame w); [by rewrite timers_abandon|by destruct k| |done].
    intros slot. by destruct k, slot.
  - case_bool_decide; [|done]. unfold toggleSelection.
    destruct (selectedApp (state w)); [case_decide|]; done.
  - destruct (startApp_disabled (state w)); [done|].
    unfold startAppTimer. destruct (selectedApp (state w)); [|done].
    destruct (Num.le _ _); [done|].
    by apply (wellformed_start AppSlot).
  - apply (wellformed_frame (clearInterval (appIntervalRef w) w));
      [done|done| |by apply wellformed_clearInterval].
    intros slot. by destruct slot.
  - destruct (startSys_disabled (state w)); [done|].
    unfold startSysTimer.
    destruct (Num.le _ _); [done|].
    by apply (wellformed_start SysSlot).
  - apply (wellformed_frame (clearInterval (sysIntervalRef w) w));
      [done|done| |by apply wellformed_clearInterval].
    intros slot. by destruct slot.
Qed.

Lemma wellformed_reachable (l : string) (es : list Event) :
  wellformed (run es (mount l)).
Proof.
  apply (run_invariant wellformed); [apply wellformed_step|apply wellformed_mount].
Qed.

(** * A countdown among all the other events *)

(** ** The calls of an event *)

Lemma called_none (e : Event) (w : World) :
  invoked (step e w) = invoked w -> called e w = [].
Proof. intros H. unfold called. rewrite H. by apply drop_ge. Qed.

Lemma ticks_cons (h : positive) (e : Event) (es : list Event) :
  ticks h (e :: es) = if is_tick h e then S (ticks h es) else ticks h es.
Proof. unfold ticks. simpl. by destruct (is_tick h e). Qed.

Lemma is_tick_eq (h : positive) (e : Event) : is_tick h e = true -> e = Tick h.
Proof. destruct e; try done. simpl. by intros ->%bool_decide_eq_true. Qed.

Lemma is_tick_ne (h : positive) (e : Event) : is_tick h e = false -> e <> Tick h.
Proof. intros H ->. simpl in H. by rewrite bool_decide_eq_true_2 in H. Qed.

Lemma starts_spec (slot : Slot) (e : Event) :
  starts slot e = true -> e = ClickStart slot.
Proof. by destruct slot, e. Qed.

(** ** What an event leaves alone *)

(** An interval stays active unless the event is the Cancel of the slot
    whose ref holds it, or a tick of an interval of that slot. *)
Lemma timers_kept (e : Event) (w : World) (h : positive) (cb : Callback) :
  wellformed w -> timers w !! h = Some cb ->
  timers (step e w) !! h = Some cb
  \/ exists slot, intervalRef slot w = Some h /\ of_slot slot w e.
Proof.
  intros [Hlt _] Hh.
  assert (forall slot, of_slot slot w e ->
            timers (clearInterval (intervalRef slot w) w) !! h = Some cb
            \/ exists slot, intervalRef slot w = Some h /\ of_slot slot w e) as Hclear.
  { intros slot Hslot. destruct (intervalRef slot w) as [h'|] eqn:Href; [|by left].
    destruct (decide (h' = h)) as [->|Hne]; [right; by exists slot|].
    left. simpl. by rewrite lookup_delete_ne. }
  assert (forall cb', <[nextTimer w := cb']> (timers w) !! h = Some cb) as Hnew.
  { intros cb'. rewrite lookup_insert_ne; [done|]. apply Hlt in Hh. lia. }
  destruct e; simpl; try (by left).
  - destruct (timers w !! h0) as [[r|r|]|] eqn:Hh0; try (by left).
    + unfold appTick. destruct (Num.le _ _); [|by left].
      simpl. rewrite timers_executeAppShutdown.
      apply (Hclear AppSlot). right. by exists h0, r.
    + unfold sysTick. destruct (Num.le _ _); [|by left].
      simpl. rewrite timers_executeSysAction.
      apply (Hclear SysSlot). right. by exists h0, r.
  - destruct (promises w !! p) as [k|]; [|by left].
    destruct (expected k v); [|by left]. rewrite timers_resume. by left.
  - destruct (promises w !! p) as [k|]; [|by left].
    rewrite timers_abandon. by left.
  - case_bool_decide; [|by left]. unfold toggleSelection.
    destruct (selectedApp (state w)); [case_decide|]; by left.
  - destruct (startApp_disabled (state w)); [by left|].
    unfold startAppTimer. destruct (selectedApp (state w)); [|by left].
    destruct (Num.le _ _); [by left|]. left. apply Hnew.
  - apply (Hclear AppSlot). by left.
  - destruct (startSys_disabled (state w)); [by left|].
    unfold startSysTimer. destruct (Num.le _ _); [by left|]. left. apply Hnew.
  - apply (Hclear SysSlot). by left.
Qed.

(** The remaining time and the ref of a slot are left as they are by an
    event that is neither its Cancel, nor a tick of one of its intervals,
    nor a click on its Start button while this one is enabled. *)
Lemma slot_kept (slot : Slot) (e : Event) (w : World) :
  ~ of_slot slot w e ->
  (starts slot e = true -> Num.gt (remaining slot (state w)) (Num.of_Z 0) = true) ->
  remaining slot (state (step e w)) = remaining slot (state w)
  /\ intervalRef slot (step e w) = intervalRef slot w.
Proof.
  intros Hnot Hstart. destruct e; simpl; try (by destruct slot).
  - destruct (timers w !! h) as [[r|r|]|] eqn:Hh; try (by destruct slot).
    + destruct slot; [destruct Hnot; right; by exists h, r|].
      unfold appTick, executeAppShutdown.
      by destruct (Num.le _ _), (selectedApp r), (appIntervalRef w).
    + destruct slot; [|destruct Hnot; right; by exists h, r].
      unfold sysTick. destruct (Num.le _ _); [|done].
      rewrite executeSysAction_power.
      by destruct (power_command _), (sysIntervalRef w).
  - destruct (promises w !! p) as [k|]; [|done].
    destruct (expected k v); [|done].
    destruct k as [|r|r|], slot; simpl; try done;
      try (by destruct v); by destruct (shutdownAfter r).
  - destruct (promises w !! p) as [k|]; [|done]. by destruct k, slot.
  - case_bool_decide; [|done]. unfold toggleSelection.
    destruct (selectedApp (state w)); [case_decide|]; by destruct slot.
  - destruct slot.
    + unfold startApp_disabled. simpl in Hstart. by rewrite Hstart.
    + destruct (startApp_disabled (state w)); [done|].
      unfold startAppTimer. destruct (selectedApp (state w)); [|done].
      by destruct (Num.le _ _).
  - destruct slot; [destruct Hnot; by left|].
    unfold cancelAppTimer. by destruct (appIntervalRef w).
  - destruct slot.
    + destruct (startSys_disabled (state w)); [done|].
      unfold startSysTimer. by destruct (Num.le _ _).
    + unfold startSys_disabled. simpl in Hstart. by rewrite Hstart.
  - destruct slot; [|destruct Hnot; by left].
    unfold cancelSysTimer. by destruct (sysIntervalRef w).
Qed.

(** [kill_process] is called by the ticks of the app slot only. *)
Lemma kills_step (e : Event) (w : World) :
  ~ app_tick w e -> kills (invoked (step e w)) = kills (invoked w).
Proof.
  intros Hnot. destruct e; simpl; try done.
  - destruct (timers w !! h) as [[r|r|]|] eqn:Hh; try done.
    + destruct Hnot. by exists h, r.
    + unfold sysTick. destruct (Num.le _ _); [|done].
      simpl. rewrite kills_executeSysAction. by destruct (sysIntervalRef w).
    + apply kills_loadApps.
  - apply kills_loadApps.
  - destruct (promises w !! p) as [k|]; [|done].
    destruct (expected k v); [|done]. by rewrite kills_resume.
  - destruct (promises w !! p) as [k|]; [|done]. by rewrite kills_abandon.
  - case_bool_decide; [|done]. unfold toggleSelection.
    destruct (selectedApp (state w)); [case_decide|]; done.
  - destruct (startApp_disabled (state w)); [done|].
    unfold startAppTimer. destruct (selectedApp (state w)); [|done].
    by destruct (Num.le _ _).
  - by destruct (appIntervalRef w).
  - destruct (startSys_disabled (state w)); [done|].
    unfold startSysTimer. by destruct (Num.le _ _).
  - by destruct (sysIntervalRef w).
Qed.

(** No event changes the language. *)
Lemma lang_step (e : Event) (w : World) : lang (state (step e w)) = lang (state w).
Proof.
  destruct e; simpl; try done.
  - destruct (timers w !! h) as [[r|r|]|]; try done.
    + unfold appTick, executeAppShutdown.
      by destruct (Num.le _ _), (selectedApp r), (appIntervalRef w).
    + unfold sysTick. destruct (Num.le _ _); [|done].
      rewrite executeSysAction_power.
      by destruct (power_command _), (sysIntervalRef w).
  - destruct (promises w !! p) as [k|]; [|done].
    destruct (expected k v); [|done].
    destruct k as [|r|r|]; simpl; try done; [by destruct v|by destruct (shutdownAfter r)].
  - destruct (promises w !! p) as [k|]; [|done]. by destruct k.
  - case_bool_decide; [|done]. unfold toggleSelection.
    destruct (selectedApp (state w)); [case_decide|]; done.
  - destruct (startApp_disabled (state w)); [done|].
    unfold startAppTimer. destruct (selectedApp (state w)); [|done].
    by destruct (Num.le _ _).
  - by destruct (appIntervalRef w).
  - destruct (startSys_disabled (state w)); [done|].
    unfold startSysTimer. by destruct (Num.le _ _).
  - by destruct (sysIntervalRef w).
Qed.

Lemma lang_run (es : list Event) (w : World) : lang (state (run es w)) = lang (state w).
Proof.
  revert w. induction es as [|e es IH]; intros w; [done|].
  simpl. by rewrite IH, lang_step.
Qed.

(** The wording of a message depends on the language only. *)
Lemma t_lang (r r' : State) (key : Key.t) : lang r = lang r' -> t r key = t r' key.
Proof. unfold t. by intros ->. Qed.

(** ** The invariant of a countdown *)

Lemma tick_of_inj (slot slot' : Slot) (r r' : State) :
  tick_of slot r = tick_of slot' r' -> slot = slot' /\ r = r'.
Proof. destruct slot, slot'; simpl; intros H; by inversion H. Qed.

Lemma running_positive (slot : Slot) (h : positive) (r : State) (m : Z) (w : World) :
  running slot h r m w -> (1 <= m)%Z ->
  Num.gt (remaining slot (state w)) (Num.of_Z 0) = true.
Proof.
  intros (_ & _ & ->) Hm. rewrite gt_of_Z.
  by replace (m <=? 0)%Z with false by (symmetry; apply Z.leb_gt; lia).
Qed.

(** While a slot shows a positive time its Start button is disabled. *)
Lemma start_disabled (slot : Slot) (w : World) :
  Num.gt (remaining slot (state w)) (Num.of_Z 0) = true ->
  step (ClickStart slot) w = w.
Proof.
  intros Hgt. destruct slot; simpl in *.
  - unfold startApp_disabled. by rewrite Hgt.
  - unfold startSys_disabled. by rewrite Hgt.
Qed.

(** The events that are not of the slot when [h] is its only interval. *)
Lemma countdown_not_of_slot
  (slot : Slot) (h : positive) (r : State) (m : Z) (e : Event) (w : World) :
  countdown slot h r m w -> e <> Tick h -> cancels slot e = false ->
  ~ of_slot slot w e.
Proof.
  intros (_ & _ & Hsole) Hne Hcancel [->|(h' & r' & -> & Hh')].
  - by destruct slot.
  - apply Hsole in Hh'. congruence.
Qed.

(** An event that is neither a tick of [h] nor the Cancel of the slot
    leaves the countdown as it is. *)
Lemma countdown_frame
  (slot : Slot) (h : positive) (r : State) (m : Z) (e : Event) (w : World) :
  countdown slot h r m w -> (1 <= m)%Z -> e <> Tick h -> cancels slot e = false ->
  countdown slot h r m (step e w) /\ ticks_slot slot w e = false.
Proof.
  intros Hcount Hm Hne Hcancel.
  pose proof (countdown_not_of_slot slot h r m e w Hcount Hne Hcancel) as Hnot.
  destruct Hcount as (Hwf & (Hh & Href & Htime) & Hsole).
  assert (Num.gt (remaining slot (state w)) (Num.of_Z 0) = true) as Hgt
    by (by apply (running_positive slot h r m)).
  destruct (slot_kept slot e w Hnot (fun _ => Hgt)) as [Hrem Hr].
  split; [split; [by apply wellformed_step|split; [split; [|split]|]]|].
  - destruct (timers_kept e w h _ Hwf Hh) as [Hkept|(slot' & Href' & Hslot')]; [done|].
    destruct Hwf as [_ Hkind]. destruct (Hkind slot' h Href') as [_ Hcb].
    destruct (Hcb _ Hh) as [r' [-> _]%tick_of_inj]. by destruct Hnot.
  - by rewrite Hr.
  - by rewrite Hrem.
  - intros h' r' Hh'. destruct (starts slot e) eqn:Hstarts.
    + apply starts_spec in Hstarts as ->.
      rewrite (start_disabled slot w Hgt) in Hh'. by apply (Hsole h' r').
    + apply timers_step in Hh' as [Hh'|[[-> Hcb]|[-> Hcb]]];
        [by apply (Hsole h' r')|by destruct slot..].
  - destruct e; try done. simpl.
    destruct (timers w !! h0) as [[r'|r'|]|] eqn:Hh0; try done; destruct slot; try done;
      destruct Hnot; right; by exists h0, r'.
Qed.

(** A tick with more than one second left takes one second off. *)
Lemma running_tick (slot : Slot) (h : positive) (r : State) (m : Z) (w : World) :
  running slot h r m w -> (2 <= m <= 2 ^ 53)%Z ->
  step (Tick h) w = commit (with_remaining slot (Num.of_Z (m - 1))) w.
Proof.
  intros (Hh & _ & Htime) Hm. simpl. rewrite Hh. destruct slot; simpl in *.
  - unfold appTick. rewrite Htime, le_of_Z, sub_of_Z by lia.
    by replace (m <=? 1)%Z with false by (symmetry; apply Z.leb_gt; lia).
  - unfold sysTick. rewrite Htime, le_of_Z, sub_of_Z by lia.
    by replace (m <=? 1)%Z with false by (symmetry; apply Z.leb_gt; lia).
Qed.

Lemma countdown_tick
  (slot : Slot) (h : positive) (r : State) (m : Z) (w : World) :
  countdown slot h r m w -> (2 <= m <= 2 ^ 53)%Z ->
  countdown slot h r (m - 1) (step (Tick h) w)
  /\ invoked (step (Tick h) w) = invoked w.
Proof.
  intros (Hwf & Hrun & Hsole) Hm.
  rewrite (running_tick slot h r m w Hrun Hm).
  destruct Hrun as (Hh & Href & Htime).
  split; [|done]. split; [|split; [split; [|split]|]].
  - apply (wellformed_frame w); try done; intros slot'; apply intervalRef_commit.
  - done.
  - by rewrite intervalRef_commit.
  - by destruct slot.
  - done.
Qed.

(** The tick that finds one second left clears the interval, calls the
    command of its render and sets the time to zero. *)
Lemma countdown_fire
  (slot : Slot) (h : positive) (r : State) (c : Command) (w : World) :
  countdown slot h r 1 w -> configured slot r = Some c ->
  step (Tick h) w
  = commit (with_remaining slot (Num.of_Z 0))
      (invoke c (continuation slot r) (clearInterval (Some h) w)).
Proof.
  intros (_ & (Hh & Href & Htime) & _) Hconf. simpl. rewrite Hh.
  destruct slot; simpl in *.
  - unfold appTick. rewrite Htime, le_of_Z, Href. simpl.
    unfold executeAppShutdown. destruct (selectedApp r); [|done].
    injection Hconf as <-. simpl. by rewrite Href.
  - unfold sysTick. rewrite Htime, le_of_Z, Href. simpl.
    rewrite executeSysAction_power. simpl. rewrite Hconf. simpl. by rewrite ?Href.
Qed.

(** What the fire leaves behind. *)
Lemma countdown_fired
  (slot : Slot) (h : positive) (r : State) (c : Command) (w : World) :
  countdown slot h r 1 w -> configured slot r = Some c ->
  let fired := step (Tick h) w in
  invoked fired = invoked w ++ [c]
  /\ promises fired !! nextPromise w = Some (continuation slot r)
  /\ (nextPromise w < nextPromise fired)%positive
  /\ remaining slot (state fired) = Num.of_Z 0
  /\ status slot (state fired) = status slot (state w)
  /\ timers fired !! h = None
  /\ idle slot fired = true
  /\ wellformed fired.
Proof.
  intros Hcount Hconf fired. unfold fired.
  rewrite (countdown_fire slot h r c w Hcount Hconf).
  destruct Hcount as (Hwf & _ & Hsole).
  split; [by destruct slot|].
  split; [destruct slot; simpl; apply lookup_insert_eq|].
  split; [destruct slot; simpl; lia|].
  split; [by destruct slot|].
  split; [by destruct slot|].
  split; [destruct slot; simpl; apply lookup_delete_eq|].
  split.
  - apply idle_spec. intros h' r' Hh'.
    assert (delete h (timers w) !! h' = Some (tick_of slot r')) as Hdel
      by (by destruct slot).
    apply lookup_delete_Some in Hdel as [Hne Hlook]. by apply Hsole in Hlook.
  - apply (wellformed_frame (clearInterval (Some h) w));
      [by destruct slot|by destruct slot| |by apply wellformed_clearInterval].
    intros slot'. by destruct slot, slot'.
Qed.

(** A countdown of [m] seconds among events without the Cancel of the slot:
    as long as fewer than [m] ticks of its interval have come, the ticks are
    taken off, and no tick of the slot has called anything. *)
Lemma countdown_run (slot : Slot) (h : positive) (r : State) (es : list Event) :
  forall (w : World) (m : Z),
    countdown slot h r m w ->
    (m <= 2 ^ 53)%Z ->
    uncancelled slot es = true ->
    (Z.of_nat (ticks h es) < m)%Z ->
    countdown slot h r (m - Z.of_nat (ticks h es)) (run es w)
    /\ fired_by slot es w = []
    /\ (slot = AppSlot -> kills (invoked (run es w)) = kills (invoked w)).
Proof.
  induction es as [|e es IH]; intros w m Hw Hmax Hes Hm.
  { simpl. by rewrite Z.sub_0_r. }
  unfold uncancelled in Hes. simpl in Hes. apply andb_true_iff in Hes as [He Hes].
  apply negb_true_iff in He. rewrite ticks_cons in *. cbn [run fired_by].
  destruct (is_tick h e) eqn:Htick.
  - apply is_tick_eq in Htick as ->.
    destruct (countdown_tick slot h r m w Hw) as [Hnext Hinvoked]; [lia|].
    destruct (IH (step (Tick h) w) (m - 1)%Z) as (Hcount & Hfired & Hkills);
      [done|lia|done|lia|].
    split; [by replace (m - Z.of_nat (S (ticks h es)))%Z
              with (m - 1 - Z.of_nat (ticks h es))%Z by lia|].
    split.
    + rewrite Hfired, (called_none _ _ Hinvoked). by destruct (ticks_slot _ _ _).
    + intros Hslot. rewrite (Hkills Hslot). by rewrite Hinvoked.
  - apply is_tick_ne in Htick.
    destruct (countdown_frame slot h r m e w Hw) as [Hnext Hnotick]; [lia|done|done|].
    destruct (IH (step e w) m) as (Hcount & Hfired & Hkills); [done..|].
    split; [done|]. split; [by rewrite Hnotick, Hfired|].
    intros ->. rewrite (Hkills eq_refl). apply kills_step.
    intros (h' & r' & -> & Hh').
    destruct Hw as (_ & _ & Hsole). apply (Hsole h' r') in Hh'. congruence.
Qed.

(** ** A slot without a tick source *)

Lemma idle_not_of_slot (slot : Slot) (e : Event) (w : World) :
  idle slot w = true -> cancels slot e = false -> ~ of_slot slot w e.
Proof.
  intros Hidle Hcancel [->|(h & r & -> & Hh)].
  - by destruct slot.
  - by apply (proj1 (idle_spec slot w) Hidle) in Hh.
Qed.

Lemma idle_ticks_slot (slot : Slot) (e : Event) (w : World) :
  idle slot w = true -> ticks_slot slot w e = false.
Proof.
  intros Hidle. pose proof (proj1 (idle_spec slot w) Hidle) as Hnone.
  destruct e; try done. simpl.
  destruct (timers w !! h) as [[r|r|]|] eqn:Hh; try done; destruct slot; try done;
    by apply Hnone in Hh.
Qed.

(** Until its Start button is clicked, a slot without a tick source has
    none, its ticks call nothing and it shows no time. *)
Lemma idle_unstarted (slot : Slot) (es : list Event) :
  forall w : World,
    idle slot w = true ->
    unstarted slot es = true ->
    idle slot (run es w) = true
    /\ fired_by slot es w = []
    /\ (slot = AppSlot -> kills (invoked (run es w)) = kills (invoked w))
    /\ (remaining slot (state w) = Num.of_Z 0 ->
        remaining slot (state (run es w)) = Num.of_Z 0).
Proof.
  induction es as [|e es IH]; intros w Hidle Hes; [done|].
  unfold unstarted in Hes. simpl in Hes. apply andb_true_iff in Hes as [He Hes].
  apply negb_true_iff in He. cbn [run fired_by].
  assert (idle slot (step e w) = true) as Hidle'.
  { apply idle_step; [|done]. intros ->. by destruct slot. }
  destruct (IH (step e w) Hidle' Hes) as (Hrun & Hfired & Hkills & Hrem).
  split; [done|]. split; [by rewrite idle_ticks_slot, Hfired|].
  split.
  - intros ->. rewrite (Hkills eq_refl). by apply idle_step_kills.
  - intros Hzero. apply Hrem.
    destruct (cancels slot e) eqn:Hcancel.
    + destruct slot, e; try done; simpl; unfold cancelAppTimer, cancelSysTimer;
        by destruct (appIntervalRef w), (sysIntervalRef w).
    + destruct (slot_kept slot e w) as [-> _]; [by apply idle_not_of_slot| |done].
      by rewrite He.
Qed.

(** ** A promise that has not settled *)

Lemma promise_kept (p : positive) (k : Continuation) (e : Event) (w : World) :
  promises w !! p = Some k -> (p < nextPromise w)%positive -> settles p e = false ->
  promises (step e w) !! p = Some k /\ (p < nextPromise (step e w))%positive.
Proof.
  intros Hp Hlt He.
  assert (forall c k', promises (invoke c k' w) !! p = Some k
                       /\ (p < nextPromise (invoke c k' w))%positive) as Hinvoke.
  { intros c k'. simpl. rewrite lookup_insert_ne by lia. split; [done|lia]. }
  destruct e; simpl; try done.
  - destruct (timers w !! h) as [[r|r|]|]; try done.
    + unfold appTick. destruct (Num.le _ _); [|done].
      unfold executeAppShutdown. destruct (selectedApp r), (appIntervalRef w); simpl;
        try done; rewrite lookup_insert_ne by lia; split; try done; lia.
    + unfold sysTick. destruct (Num.le _ _); [|done].
      rewrite executeSysAction_power.
      destruct (power_command _), (sysIntervalRef w); simpl;
        try done; rewrite lookup_insert_ne by lia; split; try done; lia.
    + simpl. rewrite lookup_insert_ne by lia. split; [done|lia].
  - rewrite lookup_insert_ne by lia. split; [done|lia].
  - simpl in He. apply bool_decide_eq_false in He.
    destruct (promises w !! p0) as [k0|]; [|done].
    destruct (expected k0 v); [|done].
    destruct k0 as [|r|r|]; simpl.
    + destruct v; simpl; by rewrite lookup_delete_ne.
    + destruct (shutdownAfter r); simpl;
        rewrite lookup_insert_ne, lookup_delete_ne by (done || lia); split; try done; lia.
    + rewrite lookup_insert_ne, lookup_delete_ne by (done || lia). split; [done|lia].
    + by rewrite lookup_delete_ne.
  - simpl in He. apply bool_decide_eq_false in He.
    destruct (promises w !! p0) as [k0|]; [|done].
    destruct k0; simpl; by rewrite lookup_delete_ne.
  - case_bool_decide; [|done]. unfold toggleSelection.
    destruct (selectedApp (state w)); [case_decide|]; done.
  - destruct (startApp_disabled (state w)); [done|].
    unfold startAppTimer. destruct (selectedApp (state w)); [|done].
    by destruct (Num.le _ _).
  - unfold cancelAppTimer. by destruct (appIntervalRef w).
  - destruct (startSys_disabled (state w)); [done|].
    unfold startSysTimer. by destruct (Num.le _ _).
  - unfold cancelSysTimer. by destruct (sysIntervalRef w).
Qed.

Lemma promise_pending (p : positive) (k : Continuation) (es : list Event) :
  forall w : World,
    promises w !! p = Some k -> (p < nextPromise w)%positive -> pending p es = true ->
    promises (run es w) !! p = Some k /\ (p < nextPromise (run es w))%positive.
Proof.
  induction es as [|e es IH]; intros w Hp Hlt Hes; [done|].
  unfold pending in Hes. simpl in Hes. apply andb_true_iff in Hes as [He Hes].
  apply negb_true_iff in He.
  destruct (promise_kept p k e w Hp Hlt He) as [Hp' Hlt']. by apply IH.
Qed.

(** * The claims on the two slots *)

Lemma fired_by_app (slot : Slot) (es1 es2 : list Event) (w : World) :
  fired_by slot (es1 ++ es2) w = fired_by slot es1 w ++ fired_by slot es2 (run es1 w).
Proof.
  revert w. induction es1 as [|e es1 IH]; intros w; [done|].
  cbn [app fired_by run]. by rewrite IH, app_assoc.
Qed.

Section Started.

(** A slot of a world the component can be in, with no interval left and
    the Start button enabled, is started for [n] seconds. *)
Variables (slot : Slot) (w0 : World) (c : Command) (n : Z).
Hypothesis Hwf : wellformed w0.
Hypothesis Hcount : countable n.
Hypothesis Hconf : configured slot (state w0) = Some c.
Hypothesis Hidle : idle slot w0 = true.
Hypothesis Hstart : Num.gt (remaining slot (state w0)) (Num.of_Z 0) = false.
Hypothesis Hduration : duration slot (state w0) = Num.of_Z n.

Lemma started_armed : step (ClickStart slot) w0 = armed slot w0 (Num.of_Z n).
Proof using All. destruct Hcount. by apply (click_start slot w0 c). Qed.

Lemma started_countdown :
  countdown slot (nextTimer w0) (state w0) n (step (ClickStart slot) w0).
Proof using All.
  split; [by apply wellformed_step|]. rewrite started_armed. split.
  - unfold running. destruct slot; simpl; by rewrite lookup_insert_eq.
  - intros h r Hh.
    assert (<[nextTimer w0 := tick_of slot (state w0)]> (timers w0) !! h
            = Some (tick_of slot r)) as Hins by (by destruct slot).
    apply lookup_insert_Some in Hins as [[<- _]|[_ Hold]]; [done|].
    by apply (proj1 (idle_spec slot w0) Hidle) in Hold.
Qed.

Lemma started_status :
  remaining slot (state (step (ClickStart slot) w0)) = Num.of_Z n
  /\ status slot (state (step (ClickStart slot) w0)) = ""
  /\ invoked (step (ClickStart slot) w0) = invoked w0.
Proof using All. rewrite started_armed. by destruct slot. Qed.

(** Before the last tick. *)
Lemma started_run (es : list Event) :
  uncancelled slot es = true ->
  (Z.of_nat (ticks (nextTimer w0) es) < n)%Z ->
  let before := run es (step (ClickStart slot) w0) in
  countdown slot (nextTimer w0) (state w0) (n - Z.of_nat (ticks (nextTimer w0) es)) before
  /\ fired_by slot es (step (ClickStart slot) w0) = []
  /\ (slot = AppSlot -> kills (invoked before) = kills (invoked w0))
  /\ lang (state before) = lang (state w0).
Proof using All.
  intros Hes Hticks. cbv zeta.
  destruct (countdown_run slot (nextTimer w0) (state w0) es
              (step (ClickStart slot) w0) n started_countdown)
    as (Hcountdown & Hfired & Hkills); [by destruct Hcount|done|done|].
  split; [done|]. split; [done|]. split.
  - intros Hslot. rewrite (Hkills Hslot). by destruct started_status as (_ & _ & ->).
  - by rewrite lang_run, lang_step.
Qed.

(** The last tick and what comes later. *)
Lemma started_fired (es later : list Event) :
  uncancelled slot es = true ->
  ticks (nextTimer w0) es = Z.to_nat (n - 1) ->
  let before := run es (step (ClickStart slot) w0) in
  let fired := step (Tick (nextTimer w0)) before in
  remaining slot (state before) = Num.of_Z 1
  /\ invoked fired = invoked before ++ [c]
  /\ remaining slot (state fired) = Num.of_Z 0
  /\ status slot (state fired) = status slot (state before)
  /\ timers fired !! nextTimer w0 = None
  /\ idle slot fired = true
  /\ (slot = AppSlot -> kills (invoked fired) = kills (invoked w0) ++ [c])
  /\ (pending (nextPromise before) later = true ->
      promises (run later fired) !! nextPromise before
      = Some (continuation slot (state w0))
      /\ (nextPromise before < nextPromise (run later fired))%positive).
Proof using All.
  intros Hes Hticks before fired. destruct Hcount as [Hn _].
  destruct (started_run es Hes) as (Hcountdown & _ & Hkills & _); [lia|].
  replace (n - Z.of_nat (ticks (nextTimer w0) es))%Z with 1%Z in Hcountdown by lia.
  fold before in Hcountdown, Hkills.
  destruct (countdown_fired slot _ _ c before Hcountdown Hconf)
    as (Hinvoked & Hpromise & Hnext & Hzero & Hstatus & Hcleared & Hidle' & _).
  fold fired in Hinvoked, Hpromise, Hnext, Hzero, Hstatus, Hcleared, Hidle'.
  split; [by destruct Hcountdown as (_ & (_ & _ & ?) & _)|].
  split; [done|]. split; [done|]. split; [done|]. split; [done|]. split; [done|].
  split.
  - intros Hslot. rewrite Hinvoked, kills_app, (Hkills Hslot).
    subst slot. simpl in Hconf. destruct (selectedApp (state w0)); [|done].
    by injection Hconf as <-.
  - intros Hpending. by apply (promise_pending _ _ later fired).
Qed.

End Started.

(** C1 (as amended).  A slot that has no interval left is started for [n]
    seconds.  Whatever else happens meanwhile, short of its Cancel (ticks of
    the refresh and of the other slot, settled promises, edits, clicks on
    any other button), the first [n - 1] ticks of its interval call nothing
    and the [n]th calls the command the slot was configured with when it was
    started ([kill_process] on the process selected then, or the power
    command selected then), sets the remaining time to zero and clears the
    interval; until the slot is started again no tick of it calls anything
    more and it shows no time.  The fire records no status: the app slot
    shows "closed" once [kill_process] has resolved and not if it is
    rejected; the system slot never records a status for a fire. *)
Theorem countdown_fires_once
  (slot : Slot) (navigatorLanguage : string) (past : list Event)
  (c : Command) (n : Z) (es later : list Event) :
  let w0 := run past (mount navigatorLanguage) in
  let h := nextTimer w0 in
  let started := step (ClickStart slot) w0 in
  let before := run es started in
  let fired := step (Tick h) before in
  countable n ->
  configured slot (state w0) = Some c ->
  idle slot w0 = true ->
  Num.gt (remaining slot (state w0)) (Num.of_Z 0) = false ->
  duration slot (state w0) = Num.of_Z n ->
  uncancelled slot es = true ->
  ticks h es = Z.to_nat (n - 1) ->
  unstarted slot later = true ->
  remaining slot (state started) = Num.of_Z n
  /\ status slot (state started) = ""
  /\ fired_by slot es started = []
  /\ remaining slot (state before) = Num.of_Z 1
  /\ invoked fired = invoked before ++ [c]
  /\ remaining slot (state fired) = Num.of_Z 0
  /\ timers fired !! h = None
  /\ status slot (state fired) = status slot (state before)
  /\ fired_by slot later fired = []
  /\ remaining slot (state (run later fired)) = Num.of_Z 0
  /\ idle slot (run later fired) = true
  /\ (pending (nextPromise before) later = true ->
      forall o : Outcome,
        status slot (state (step (settled (nextPromise before) o) (run later fired))) =
        match slot, o with
        | AppSlot, Success | AppSlot, AlreadyGone => t (state w0) Key.closed
        | _, _ => status slot (state (run later fired))
        end).
Proof.
  intros w0 h started before fired Hcount Hconf Hidle Hstart Hduration Hes Hticks Hlater.
  assert (wellformed w0) as Hwf by apply wellformed_reachable.
  destruct (started_status slot w0 c n Hwf Hcount Hconf Hidle Hstart Hduration)
    as (Hn & Hstatus & _).
  destruct (started_run slot w0 c n Hwf Hcount Hconf Hidle Hstart Hduration es Hes)
    as (_ & Hquiet & _); [destruct Hcount; fold h; lia|].
  destruct (started_fired slot w0 c n Hwf Hcount Hconf Hidle Hstart Hduration
              es later Hes Hticks)
    as (Hone & Hinvoked & Hzero & Hsame & Hcleared & Hidle' & _ & Hpromise).
  fold h started before fired in Hn, Hstatus, Hquiet, Hone, Hinvoked, Hzero, Hsame,
    Hcleared, Hidle', Hpromise.
  destruct (idle_unstarted slot later fired Hidle' Hlater)
    as (Hidle'' & Hquiet' & _ & Hzero').
  repeat (split; [done|]).
  split; [by apply Hzero'|]. split; [done|].
  intros Hpending o. destruct (Hpromise Hpending) as [Hp _]. clear Hpromise.
  rename Hp into Hpromise.
  destruct o; simpl; rewrite Hpromise.
  - destruct slot; simpl; [|done]. by destruct (shutdownAfter (state w0)).
  - destruct slot; simpl; [|done]. by destruct (shutdownAfter (state w0)).
  - by destruct slot.
Qed.

(** C1 (as stated) fails on the system slot: after the fire, and after the
    power command has succeeded, the slot shows no status. *)
Lemma system_slot_records_no_fired_status :
  let fired := run (repeat (Tick 2) 60) (step ClickStartSys demo_ready) in
  let settled_ := step (settled 2 Success) fired in
  invoked fired = [get_running_apps; system_shutdown]
  /\ sysTimer (state settled_) = Num.of_Z 0
  /\ sysStatus (state settled_) = ""
  /\ ~ shows_fired (state settled_) (sysStatus (state settled_)).
Proof. vm_compute. repeat split; discriminate. Qed.

Lemma countdown_fires_once_witness :
  countable 60
  /\ uncancelled AppSlot demo_busy = true
  /\ ticks (nextTimer (run demo_ready_events (mount "en-US"))) demo_busy = Z.to_nat (60 - 1)
  /\ (let w0 := run demo_ready_events (mount "en-US") in
      let before := run demo_busy (step (ClickStart AppSlot) w0) in
      invoked (step (Tick (nextTimer w0)) before) = invoked before ++ [kill_process 4242]).
Proof.
  assert (countable 60) as Hcount by (unfold countable; lia).
  assert (uncancelled AppSlot demo_busy = true) as Hes by (vm_compute; reflexivity).
  assert (ticks (nextTimer (run demo_ready_events (mount "en-US"))) demo_busy
          = Z.to_nat (60 - 1)) as Hticks by (vm_compute; reflexivity).
  split; [exact Hcount|]. split; [exact Hes|]. split; [exact Hticks|].
  destruct (countdown_fires_once AppSlot "en-US" demo_ready_events (kill_process 4242)
              60 demo_busy [] Hcount)
    as (_ & _ & _ & _ & Hinvoked & _);
    [vm_compute; reflexivity..|exact Hes|exact Hticks|reflexivity|].
  exact Hinvoked.
Defined.

Example countdown_fires_once_values :
  let before := run demo_busy (step ClickStartApp demo_ready) in
  let fired := step (Tick 2) before in
  kills (invoked before) = []
  /\ selectedApp (state before) = None
  /\ sysStatus (state before) = "Cancelled"%string
  /\ kills (invoked fired) = [kill_process 4242]
  /\ appStatus (state fired) = ""
  /\ appStatus (state (step (settled 4 AlreadyGone) fired)) = "✓ Closed"%string
  /\ appStatus (state (step (settled 4 (Failure "denied")) fired)) = "".
Proof. vm_compute. auto 10. Qed.

(** The duration is the one the machine computes: "2.05" minutes make 122
    seconds, and the 122nd tick fires. *)
Example rounded_duration_fires_at_its_last_tick :
  let started := step ClickStartApp (step (ChangeAppMinutes "2.05") demo_ready) in
  appTimer (state started) = Num.of_Z 122
  /\ kills (invoked (run (repeat (Tick 2) 121) started)) = []
  /\ kills (invoked (run (repeat (Tick 2) 122) started)) = [kill_process 4242]
  /\ appTimer (state (run (repeat (Tick 2) 122) started)) = Num.of_Z 0.
Proof. vm_compute. auto. Qed.

(** C2 (as amended).  The app slot, with no interval left, is started with
    the box ticked.  Whatever else happens before the last tick, short of
    Cancel, that tick calls [kill_process]; and whenever this call settles
    afterwards, [system_shutdown] is called if it succeeded or the process
    was already gone, and nothing is called, nor left waiting, if it
    failed. *)
Theorem chained_shutdown_follows_kill
  (navigatorLanguage : string) (past : list Event)
  (app : ProcessInfo) (n : Z) (es later : list Event) (o : Outcome) :
  let w0 := run past (mount navigatorLanguage) in
  let h := nextTimer w0 in
  let before := run es (step ClickStartApp w0) in
  let fired := step (Tick h) before in
  let p := nextPromise before in
  let after := step (settled p o) (run later fired) in
  countable n ->
  selectedApp (state w0) = Some app ->
  shutdownAfter (state w0) = true ->
  idle AppSlot w0 = true ->
  Num.gt (appTimer (state w0)) (Num.of_Z 0) = false ->
  duration AppSlot (state w0) = Num.of_Z n ->
  uncancelled AppSlot es = true ->
  ticks h es = Z.to_nat (n - 1) ->
  pending p later = true ->
  invoked fired = invoked before ++ [kill_process (pid app)]
  /\ invoked after =
     invoked (run later fired)
     ++ match o with Failure _ => [] | _ => [system_shutdown] end
  /\ promises after !! p = None.
Proof.
  cbv zeta. intros Hcount Hsel Hbox Hidle Hstart Hduration Hes Hticks Hlater.
  set (w0 := run past (mount navigatorLanguage)) in *.
  assert (wellformed w0) as Hwf by apply wellformed_reachable.
  assert (configured AppSlot (state w0) = Some (kill_process (pid app))) as Hconf
    by (simpl; by rewrite Hsel).
  destruct (started_fired AppSlot w0 _ n Hwf Hcount Hconf Hidle Hstart Hduration
              es later Hes Hticks)
    as (_ & Hinvoked & _ & _ & _ & _ & _ & Hpromise).
  destruct (Hpromise Hlater) as [Hp Hlt]. clear Hpromise.
  change (ClickStart AppSlot) with ClickStartApp in Hinvoked, Hp, Hlt.
  change (continuation AppSlot (state w0)) with (AppShutdown_killed (state w0)) in Hp.
  split; [done|].
  set (w := run later _) in *. set (p := nextPromise _) in *. clearbody w p.
  destruct o; simpl; rewrite Hp; simpl; rewrite ?Hbox; simpl;
    rewrite ?app_nil_r; (split; [done|]).
  - rewrite lookup_insert_ne by lia. apply lookup_delete_eq.
  - rewrite lookup_insert_ne by lia. apply lookup_delete_eq.
  - apply lookup_delete_eq.
Qed.

Lemma chained_shutdown_follows_kill_witness :
  countable 60
  /\ shutdownAfter (state (run (demo_ready_events ++ [ChangeShutdownAfter true])
                             (mount "en-US"))) = true
  /\ (let w0 := run (demo_ready_events ++ [ChangeShutdownAfter true]) (mount "en-US") in
      let before := run (repeat (Tick 2) 59) (step ClickStartApp w0) in
      let fired := step (Tick (nextTimer w0)) before in
      invoked (step (settled (nextPromise before) AlreadyGone) (run [WindowChanged] fired))
      = invoked (run [WindowChanged] fired) ++ [system_shutdown]).
Proof.
  assert (countable 60) as Hcount by (unfold countable; lia).
  assert (shutdownAfter (state (run (demo_ready_events ++ [ChangeShutdownAfter true])
                                  (mount "en-US"))) = true) as Hbox
    by (vm_compute; reflexivity).
  split; [exact Hcount|]. split; [exact Hbox|].
  destruct (chained_shutdown_follows_kill "en-US"
              (demo_ready_events ++ [ChangeShutdownAfter true]) demo_app 60
              (repeat (Tick 2) 59) [WindowChanged] AlreadyGone Hcount)
    as (_ & Hafter & _); [vm_compute; reflexivity..|].
  exact Hafter.
Defined.

Example chained_shutdown_values :
  let fired := run (repeat (Tick 2) 60) (step ClickStartApp demo_chained) in
  invoked (step (settled 2 Success) fired)
    = [get_running_apps; kill_process 4242; system_shutdown]
  /\ invoked (step (settled 2 AlreadyGone) fired)
    = [get_running_apps; kill_process 4242; system_shutdown]
  /\ invoked (step (settled 2 (Failure "access denied")) fired)
    = [get_running_apps; kill_process 4242].
Proof. vm_compute. auto. Qed.

(** C2 (as stated) fails when an interval of the app slot is left over: the
    box is ticked when the three seconds are started, the older interval
    finds the last second, and its render, in which the box was not ticked,
    decides: [kill_process] succeeds and no shutdown follows. *)
Lemma leftover_interval_skips_shutdown :
  let fired := run [Tick 2; Tick 3; Tick 2] demo_leftover_box in
  let after := step (settled 2 Success) fired in
  (exists r, timers demo_leftover_box !! 3%positive = Some (AppTick r)
             /\ shutdownAfter r = true)
  /\ (exists r, timers demo_leftover_box !! 2%positive = Some (AppTick r)
                /\ shutdownAfter r = false)
  /\ appTimer (state demo_leftover_box) = Num.of_Z 3
  /\ appIntervalRef demo_leftover_box = Some 3%positive
  /\ invoked fired = [get_running_apps; kill_process 4242]
  /\ appStatus (state after) = t (state demo_leftover_box) Key.closed
  /\ invoked after = [get_running_apps; kill_process 4242; get_running_apps]
  /\ powers (invoked after) = [].
Proof.
  vm_compute. split; [eexists; split; reflexivity|].
  split; [eexists; split; reflexivity|]. auto 10.
Qed.

(** C3 (as amended).  A slot that has no interval left is started for [n]
    seconds and cancelled before the [n]th tick of its interval, whatever
    else has happened meanwhile and happens afterwards.  Then no tick of the
    slot calls anything, before the Cancel or after it, until the slot is
    started again; the remaining time is zero and stays so, the status is
    the "cancelled" message, the interval is cleared and the slot has no
    tick source; the app slot has not called [kill_process]. *)
Theorem cancel_prevents_fire
  (slot : Slot) (navigatorLanguage : string) (past : list Event)
  (c : Command) (n : Z) (es later : list Event) :
  let w0 := run past (mount navigatorLanguage) in
  let h := nextTimer w0 in
  let started := step (ClickStart slot) w0 in
  let cancelled := step (ClickCancel slot) (run es started) in
  countable n ->
  configured slot (state w0) = Some c ->
  idle slot w0 = true ->
  Num.gt (remaining slot (state w0)) (Num.of_Z 0) = false ->
  duration slot (state w0) = Num.of_Z n ->
  uncancelled slot es = true ->
  (Z.of_nat (ticks h es) < n)%Z ->
  unstarted slot later = true ->
  fired_by slot (es ++ ClickCancel slot :: later) started = []
  /\ remaining slot (state cancelled) = Num.of_Z 0
  /\ status slot (state cancelled) = t (state w0) Key.cancelled
  /\ timers cancelled !! h = None
  /\ remaining slot (state (run later cancelled)) = Num.of_Z 0
  /\ idle slot (run later cancelled) = true
  /\ (slot = AppSlot -> kills (invoked (run later cancelled)) = kills (invoked w0)).
Proof.
  cbv zeta. intros Hcount Hconf Hidle Hstart Hduration Hes Hticks Hlater.
  set (w0 := run past (mount navigatorLanguage)) in *.
  assert (wellformed w0) as Hwf by apply wellformed_reachable.
  destruct (started_run slot w0 c n Hwf Hcount Hconf Hidle Hstart Hduration es Hes Hticks)
    as ((_ & (Hh & Href & _) & Hsole) & Hquiet & Hkills & Hlang).
  set (before := run es (step (ClickStart slot) w0)) in *.
  set (cancelled := step (ClickCancel slot) before).
  assert (timers cancelled = delete (nextTimer w0) (timers before)
          /\ remaining slot (state cancelled) = Num.of_Z 0
          /\ status slot (state cancelled) = t (state before) Key.cancelled
          /\ invoked cancelled = invoked before) as (Htimers & Hzero & Hstatus & Hinvoked).
  { unfold cancelled. destruct slot; simpl in *.
    - unfold cancelAppTimer. by rewrite Href.
    - unfold cancelSysTimer. by rewrite Href. }
  assert (idle slot cancelled = true) as Hidle'.
  { apply idle_spec. intros h' r' Hh'. rewrite Htimers in Hh'.
    apply lookup_delete_Some in Hh' as [Hne Hlook]. by apply Hsole in Hlook. }
  destruct (idle_unstarted slot later cancelled Hidle' Hlater)
    as (Hidle'' & Hquiet' & Hkills' & Hzero').
  split.
  { rewrite fired_by_app, Hquiet. fold before. cbn [fired_by app].
    fold cancelled. rewrite Hquiet'. by destruct slot. }
  split; [done|].
  split; [rewrite Hstatus; by apply t_lang|].
  split; [rewrite Htimers; apply lookup_delete_eq|].
  split; [by apply Hzero'|]. split; [done|].
  intros Hslot. by rewrite (Hkills' Hslot), Hinvoked, (Hkills Hslot).
Qed.

Lemma cancel_prevents_fire_witness :
  countable 60
  /\ uncancelled AppSlot demo_busy = true
  /\ (let w0 := run demo_ready_events (mount "en-US") in
      let cancelled := step (ClickCancel AppSlot) (run demo_busy (step (ClickStart AppSlot) w0)) in
      fired_by AppSlot (demo_busy ++ ClickCancel AppSlot :: repeat (Tick 2) 5)
        (step (ClickStart AppSlot) w0) = []
      /\ status AppSlot (state cancelled) = t (state w0) Key.cancelled).
Proof.
  assert (countable 60) as Hcount by (unfold countable; lia).
  assert (uncancelled AppSlot demo_busy = true) as Hes by (vm_compute; reflexivity).
  split; [exact Hcount|]. split; [exact Hes|].
  destruct (cancel_prevents_fire AppSlot "en-US" demo_ready_events (kill_process 4242)
              60 demo_busy (repeat (Tick 2) 5) Hcount)
    as (Hquiet & _ & Hstatus & _);
    [vm_compute; reflexivity..|exact Hes|vm_compute; reflexivity|reflexivity|].
  split; [exact Hquiet|exact Hstatus].
Defined.

Example cancel_prevents_fire_values :
  let cancelled := step ClickCancelApp
                     (run (repeat (Tick 2) 59) (step ClickStartApp demo_ready)) in
  invoked (run (repeat (Tick 2) 5) cancelled) = [get_running_apps]
  /\ appStatus (state cancelled) = "Cancelled"%string
  /\ appTimer (state cancelled) = Num.of_Z 0.
Proof. vm_compute. auto. Qed.

(** C3 (as stated) fails when an interval of the app slot is left over:
    Cancel clears the interval that the ref holds, and the next tick of the
    older one finds no time left and calls [kill_process]. *)
Lemma cancel_leaves_older_interval :
  let cancelled := step ClickCancelApp (run [Tick 2; Tick 3] demo_twice) in
  let later := step (Tick 2) cancelled in
  appTimer (state (run [Tick 2; Tick 3] demo_twice)) = Num.of_Z 58
  /\ appTimer (state cancelled) = Num.of_Z 0
  /\ appStatus (state cancelled) = t (state demo_twice) Key.cancelled
  /\ timers cancelled !! 3%positive = None
  /\ (exists r, timers cancelled !! 2%positive = Some (AppTick r))
  /\ invoked cancelled = [get_running_apps]
  /\ invoked later = [get_running_apps; kill_process 4242]
  /\ fired_by AppSlot [Tick 2] cancelled = [kill_process 4242].
Proof. vm_compute. repeat split; eauto. Qed.

(** C4.  When the total of the two fields (each read by [parseFloat], zero
    if it cannot be read) is zero or negative, the click on Start starts
    nothing: the world is left as it is, or differs by the alert only; the
    render, the interval handle, the intervals and the calls are unchanged.
    So does the function behind the button. *)
Theorem invalid_duration_rejected (slot : Slot) (w : World) :
  Num.le (entered slot (state w)) (Num.of_Z 0) = true ->
  let w' := step (ClickStart slot) w in
  (w' = w
   \/ w' = alert (t (state w) Key.pleaseSelect) w
   \/ w' = alert (t (state w) Key.invalidTime) w)
  /\ state w' = state w
  /\ intervalRef slot w' = intervalRef slot w
  /\ timers w' = timers w
  /\ invoked w' = invoked w
  /\ (exists msg, startTimer slot (state w) w = alert msg w).
Proof.
  intros Hle w'.
  assert (exists msg, startTimer slot (state w) w = alert msg w
                      /\ (msg = t (state w) Key.pleaseSelect
                          \/ msg = t (state w) Key.invalidTime)) as (msg & Hmsg & Hkey).
  { destruct slot; simpl in *.
    - unfold startAppTimer. destruct (selectedApp (state w)); [|by eauto].
      rewrite Hle. by eauto.
    - unfold startSysTimer. rewrite Hle. by eauto. }
  assert (w' = w \/ w' = alert msg w) as Hw'.
  { unfold w'. destruct slot; simpl in *.
    - destruct (startApp_disabled (state w)); [by left|by right].
    - destruct (startSys_disabled (state w)); [by left|by right]. }
  split; [destruct Hw' as [->| ->]; destruct Hkey as [->| ->]; by eauto|].
  repeat split; try (destruct Hw' as [->| ->]; by destruct slot).
  by exists msg.
Qed.

Lemma invalid_duration_rejected_witness :
  Num.le (entered AppSlot (state demo_invalid)) (Num.of_Z 0) = true
  /\ timers (step (ClickStart AppSlot) demo_invalid) = timers demo_invalid
  /\ state (step (ClickStart AppSlot) demo_invalid) = state demo_invalid.
Proof.
  assert (Num.le (entered AppSlot (state demo_invalid)) (Num.of_Z 0) = true) as Hle
    by (vm_compute; reflexivity).
  split; [exact Hle|].
  destruct (invalid_duration_rejected AppSlot demo_invalid Hle)
    as (_ & Hstate & _ & Htimers & _).
  split; [exact Htimers|exact Hstate].
Defined.

Example invalid_duration_values :
  alerts (step ClickStartApp demo_invalid) = ["Please enter a valid time!"%string]
  /\ alerts (step ClickStartApp (step (ClickApp demo_app) demo_invalid)) = [].
Proof. vm_compute. auto. Qed.

(** The guard is taken on the total as the machine computes it: with
    "-2.05" hours and "123" minutes the sum is a little above zero, the
    countdown is started with no second left and fires at its first tick. *)
Example rounded_total_passes_guard :
  let w := run [ChangeAppHours "-2.05"; ChangeAppMinutes "123"] demo_ready in
  Num.gt (entered AppSlot (state w)) (Num.of_Z 0) = true
  /\ duration AppSlot (state w) = Num.of_Z 0
  /\ invoked (run [ClickStartApp; Tick 2] w) = [get_running_apps; kill_process 4242].
Proof. vm_compute. auto. Qed.

(** C5 (as amended).  The app slot, with no interval left, is started on
    a selected process.  Whatever the user selects or deselects and whatever
    else happens while the countdown runs, short of Cancel, and until the
    slot is started again, [kill_process] is called once, by the last tick,
    and its argument is the pid of the process that was selected when Start
    was clicked. *)
Theorem kill_targets_pid_of_start
  (navigatorLanguage : string) (past : list Event)
  (app : ProcessInfo) (n : Z) (es later : list Event) :
  let w0 := run past (mount navigatorLanguage) in
  let h := nextTimer w0 in
  let before := run es (step ClickStartApp w0) in
  let fired := step (Tick h) before in
  countable n ->
  selectedApp (state w0) = Some app ->
  idle AppSlot w0 = true ->
  Num.gt (appTimer (state w0)) (Num.of_Z 0) = false ->
  duration AppSlot (state w0) = Num.of_Z n ->
  uncancelled AppSlot es = true ->
  ticks h es = Z.to_nat (n - 1) ->
  unstarted AppSlot later = true ->
  kills (invoked before) = kills (invoked w0)
  /\ invoked fired = invoked before ++ [kill_process (pid app)]
  /\ kills (invoked (run later fired)) = kills (invoked w0) ++ [kill_process (pid app)].
Proof.
  cbv zeta. intros Hcount Hsel Hidle Hstart Hduration Hes Hticks Hlater.
  set (w0 := run past (mount navigatorLanguage)) in *.
  assert (wellformed w0) as Hwf by apply wellformed_reachable.
  assert (configured AppSlot (state w0) = Some (kill_process (pid app))) as Hconf
    by (simpl; by rewrite Hsel).
  destruct (started_run AppSlot w0 _ n Hwf Hcount Hconf Hidle Hstart Hduration es Hes)
    as (_ & _ & Hkills & _); [destruct Hcount; lia|].
  destruct (started_fired AppSlot w0 _ n Hwf Hcount Hconf Hidle Hstart Hduration
              es later Hes Hticks)
    as (_ & Hinvoked & _ & _ & _ & Hidle' & Hkilled & _).
  destruct (idle_unstarted AppSlot later _ Hidle' Hlater) as (_ & _ & Hkills' & _).
  change (ClickStart AppSlot) with ClickStartApp in *.
  split; [by apply Hkills|]. split; [done|].
  rewrite (Hkills' eq_refl). by apply Hkilled.
Qed.

Lemma kill_targets_pid_of_start_witness :
  countable 60
  /\ uncancelled AppSlot demo_busy = true
  /\ (let w0 := run demo_ready_events (mount "en-US") in
      let before := run demo_busy (step ClickStartApp w0) in
      let fired := step (Tick (nextTimer w0)) before in
      kills (invoked (run [Tick 2; ClickCancelApp] fired))
      = kills (invoked w0) ++ [kill_process (pid demo_app)]).
Proof.
  assert (countable 60) as Hcount by (unfold countable; lia).
  assert (uncancelled AppSlot demo_busy = true) as Hes by (vm_compute; reflexivity).
  split; [exact Hcount|]. split; [exact Hes|].
  destruct (kill_targets_pid_of_start "en-US" demo_ready_events demo_app 60 demo_busy
              [Tick 2; ClickCancelApp] Hcount)
    as (_ & _ & Hkills);
    [vm_compute; reflexivity..|exact Hes|vm_compute; reflexivity|reflexivity|].
  exact Hkills.
Defined.

(** C5 (as stated) fails when an interval of the app slot is left over: a
    countdown of fifteen seconds is started on the process 7, the two
    intervals tick in turn, the older one finds the last second, and the
    process that was selected when the older one was created is closed. *)
Lemma leftover_interval_kills_earlier_selection :
  let fired := run (in_turn 8) demo_leftover_pid in
  (exists r, timers demo_leftover_pid !! 3%positive = Some (AppTick r)
             /\ selectedApp r = Some demo_mail)
  /\ selectedApp (state demo_leftover_pid) = Some demo_mail
  /\ appTimer (state demo_leftover_pid) = Num.of_Z 15
  /\ appIntervalRef demo_leftover_pid = Some 3%positive
  /\ kills (invoked fired) = [kill_process 4242]
  /\ pid demo_mail = 7%Z.
Proof. vm_compute. split; [eexists; split; reflexivity|]. auto 10. Qed.

(** C6 (as amended).  While a slot shows a positive remaining time its Start
    button is disabled, and a click on it changes nothing.  When the function
    behind the button does run with a total above zero, on a slot with a tick
    source or without, the remaining time becomes the new duration, the
    status is emptied and the slot's ref holds the handle of a new interval
    that runs the tick of this render; every interval that was active stays
    active, those of the slot included. *)
Theorem restart_is_gated (slot : Slot) (w : World) (c : Command) :
  configured slot (state w) = Some c ->
  Num.le (entered slot (state w)) (Num.of_Z 0) = false ->
  (Num.gt (remaining slot (state w)) (Num.of_Z 0) = true ->
   step (ClickStart slot) w = w)
  /\ (let w' := startTimer slot (state w) w in
      remaining slot (state w') = duration slot (state w)
      /\ status slot (state w') = ""
      /\ intervalRef slot w' = Some (nextTimer w)
      /\ timers w' = <[nextTimer w := tick_of slot (state w)]> (timers w)).
Proof.
  intros Hconf Hle. split; [apply start_disabled|].
  unfold entered, duration, entered in *. destruct slot; simpl in *.
  - unfold startAppTimer. destruct (selectedApp (state w)); [|done].
    by rewrite Hle.
  - unfold startSysTimer. by rewrite Hle.
Qed.

Lemma restart_is_gated_witness :
  configured AppSlot (state demo_armed) = Some (kill_process 4242)
  /\ Num.le (entered AppSlot (state demo_armed)) (Num.of_Z 0) = false
  /\ step (ClickStart AppSlot) demo_armed = demo_armed.
Proof.
  assert (configured AppSlot (state demo_armed) = Some (kill_process 4242)) as Hconf
    by (vm_compute; reflexivity).
  assert (Num.le (entered AppSlot (state demo_armed)) (Num.of_Z 0) = false) as Hle
    by (vm_compute; reflexivity).
  split; [exact Hconf|]. split; [exact Hle|].
  destruct (restart_is_gated AppSlot demo_armed _ Hconf Hle) as [Hgate _].
  apply Hgate. vm_compute. reflexivity.
Defined.

(** C6 (as stated) fails: a second start of a slot does not stop the tick
    source of the first, and the two take two seconds off per second. *)
Lemma second_start_leaves_first_ticking :
  timers demo_twice !! 2%positive = Some (AppTick (state (step (ChangeAppMinutes "0.01") demo_ready)))
  /\ (exists r, timers demo_twice !! 3%positive = Some (AppTick r))
  /\ appIntervalRef demo_twice = Some 3%positive
  /\ appTimer (state demo_twice) = Num.of_Z 60
  /\ appTimer (state (run [Tick 2; Tick 3] demo_twice)) = Num.of_Z 58
  /\ kills (invoked (run (repeat (Tick 2) 40) (run (repeat (Tick 3) 30) demo_twice)))
     = repeat (kill_process 4242) 11.
Proof. vm_compute. repeat split; eauto. Qed.

(** C7 (as amended).  When a poll completes, the list of apps becomes the
    list returned and the loading flag is lowered; the selection is left as
    it was, whether or not its process is in the new list.  When a poll
    fails, the list is left as it was as well. *)
Theorem poll_keeps_selection (w : World) (p : positive) :
  promises w !! p = Some LoadApps_resume ->
  (forall result : list ProcessInfo,
     let w' := step (Resolve p (Processes result)) w in
     apps (state w') = result
     /\ selectedApp (state w') = selectedApp (state w)
     /\ loading (state w') = false)
  /\ (forall cause : string,
        let w' := step (Reject p cause) w in
        apps (state w') = apps (state w)
        /\ selectedApp (state w') = selectedApp (state w)
        /\ loading (state w') = false
        /\ errors w' = errors w ++ [cause]).
Proof.
  intros Hp. split.
  - intros result. simpl. by rewrite Hp.
  - intros cause. simpl. by rewrite Hp.
Qed.

Lemma poll_keeps_selection_witness :
  promises (step WindowChanged demo_ready) !! 2%positive = Some LoadApps_resume
  /\ selectedApp (state (step (Resolve 2 (Processes [])) (step WindowChanged demo_ready)))
     = selectedApp (state (step WindowChanged demo_ready)).
Proof.
  assert (promises (step WindowChanged demo_ready) !! 2%positive = Some LoadApps_resume)
    as Hp by (vm_compute; reflexivity).
  split; [exact Hp|].
  destruct (poll_keeps_selection _ _ Hp) as [Hresolve _].
  destruct (Hresolve []) as (_ & Hsel & _). exact Hsel.
Defined.

(** C7 (as stated) fails: the selected process is not in the list a poll
    has returned, and it is still selected. *)
Lemma stale_selection_kept :
  apps (state demo_stale) = []
  /\ selectedApp (state demo_stale) = Some demo_app
  /\ ~ reconciled (state demo_stale).
Proof.
  split; [vm_compute; reflexivity|]. split; [vm_compute; reflexivity|].
  unfold reconciled.
  replace (selectedApp (state demo_stale)) with (Some demo_app) by (vm_compute; reflexivity).
  replace (apps (state demo_stale)) with (@nil ProcessInfo) by (vm_compute; reflexivity).
  intros (app & Hin & _). by apply elem_of_nil in Hin.
Qed.

(** Each of the three triggers of a poll calls [get_running_apps] and leaves
    [loadApps] waiting for it. *)
Lemma poll_triggers (w : World) (h : positive) :
  timers w !! h = Some Refresh ->
  promises (step (Tick h) w) !! nextPromise w = Some LoadApps_resume
  /\ promises (step WindowChanged w) !! nextPromise w = Some LoadApps_resume
  /\ forall l, promises (mount l) !! 1%positive = Some LoadApps_resume
               /\ timers (mount l) !! 1%positive = Some Refresh.
Proof.
  intros Hh. simpl. rewrite Hh. simpl. by rewrite !lookup_insert_eq.
Qed.

(** C10 (as amended).  The app slot, with no interval left, is started on
    a selected process, and nothing is selected any more when the last tick
    comes.  The fire is the one that was set up when Start was clicked,
    whatever else has happened meanwhile, short of Cancel: [kill_process] is
    called with the pid selected then, and whenever it resolves afterwards
    the status becomes "closed" and, according to the box as it was then,
    [system_shutdown] is called or the list is refreshed.  The fire does
    nothing only in a render without selection, and in such a render the
    Start button and the function behind it start no interval. *)
Theorem fire_ignores_deselection
  (navigatorLanguage : string) (past : list Event)
  (app : ProcessInfo) (n : Z) (es later : list Event) :
  let w0 := run past (mount navigatorLanguage) in
  let h := nextTimer w0 in
  let before := run es (step ClickStartApp w0) in
  let fired := step (Tick h) before in
  let p := nextPromise before in
  countable n ->
  selectedApp (state w0) = Some app ->
  idle AppSlot w0 = true ->
  Num.gt (appTimer (state w0)) (Num.of_Z 0) = false ->
  duration AppSlot (state w0) = Num.of_Z n ->
  uncancelled AppSlot es = true ->
  ticks h es = Z.to_nat (n - 1) ->
  selectedApp (state before) = None ->
  pending p later = true ->
  invoked fired = invoked before ++ [kill_process (pid app)]
  /\ (forall v : Value,
        (forall l, v <> Processes l) ->
        let after := step (Resolve p v) (run later fired) in
        appStatus (state after) = t (state w0) Key.closed
        /\ invoked after =
           invoked (run later fired) ++
           [if shutdownAfter (state w0) then system_shutdown else get_running_apps])
  /\ (forall (r : State) (w : World),
        executeAppShutdown r w = w <-> selectedApp r = None)
  /\ (forall w : World,
        selectedApp (state w) = None ->
        timers (step ClickStartApp w) = timers w
        /\ timers (startAppTimer (state w) w) = timers w).
Proof.
  cbv zeta. intros Hcount Hsel Hidle Hstart Hduration Hes Hticks Hnone Hlater.
  set (w0 := run past (mount navigatorLanguage)) in *.
  assert (wellformed w0) as Hwf by apply wellformed_reachable.
  assert (configured AppSlot (state w0) = Some (kill_process (pid app))) as Hconf
    by (simpl; by rewrite Hsel).
  destruct (started_fired AppSlot w0 _ n Hwf Hcount Hconf Hidle Hstart Hduration
              es later Hes Hticks)
    as (_ & Hinvoked & _ & _ & _ & _ & _ & Hpromise).
  destruct (Hpromise Hlater) as [Hp _]. clear Hpromise.
  change (ClickStart AppSlot) with ClickStartApp in *.
  change (continuation AppSlot (state w0)) with (AppShutdown_killed (state w0)) in Hp.
  split; [done|]. split; [|split].
  - intros v Hv.
    set (p := nextPromise (run es (step ClickStartApp w0))) in *.
    set (w := run later _) in *. clearbody w p.
    simpl. rewrite Hp.
    assert (expected (AppShutdown_killed (state w0)) v = true) as ->.
    { destruct v; try done. by destruct (Hv l). }
    simpl. by destruct (shutdownAfter (state w0)).
  - intros r w. unfold executeAppShutdown. destruct (selectedApp r) as [sel|]; [|done].
    split; [|done]. intros Heq. apply (f_equal nextPromise) in Heq. simpl in Heq. lia.
  - intros w Hw.
    assert (timers (startAppTimer (state w) w) = timers w) as Hfun
      by (unfold startAppTimer; by rewrite Hw).
    split; [|done]. simpl. by destruct (startApp_disabled (state w)).
Qed.

Lemma fire_ignores_deselection_witness :
  countable 60
  /\ (let w0 := run demo_ready_events (mount "en-US") in
      let before := run demo_busy (step ClickStartApp w0) in
      selectedApp (state before) = None
      /\ invoked (step (Tick (nextTimer w0)) before)
         = invoked before ++ [kill_process (pid demo_app)]).
Proof.
  assert (countable 60) as Hcount by (unfold countable; lia).
  assert (selectedApp (state (run demo_busy
            (step ClickStartApp (run demo_ready_events (mount "en-US"))))) = None)
    as Hnone by (vm_compute; reflexivity).
  split; [exact Hcount|]. split; [exact Hnone|].
  refine (proj1 (fire_ignores_deselection "en-US" demo_ready_events demo_app 60
                   demo_busy [] Hcount _ _ _ _ _ _ Hnone _));
    vm_compute; reflexivity.
Defined.

(** C10 (as stated) fails: the app is deselected during the countdown, and
    the fire calls [kill_process] all the same and shows "closed". *)
Lemma deselected_app_is_killed :
  let before := run demo_deselected (step ClickStartApp demo_ready) in
  let fired := step (Tick 2) before in
  selectedApp (state before) = None
  /\ appTimer (state before) = Num.of_Z 1
  /\ invoked before = [get_running_apps]
  /\ invoked fired = [get_running_apps; kill_process 4242]
  /\ appStatus (state (step (Resolve 2 Nothing) fired)) = "✓ Closed"%string
  /\ invoked (step (Resolve 2 Nothing) fired)
     = [get_running_apps; kill_process 4242; get_running_apps].
Proof. vm_compute. repeat split. Qed.

(** * Properties of the whole component *)

(** ** What holds in every world the component can reach *)

Lemma whole_step (slot : Slot) (e : Event) (w : World) :
  whole (remaining slot (state w)) -> whole (remaining slot (state (step e w))).
Proof.
  intros Hw. destruct e; simpl; try (by destruct slot).
  - destruct (timers w !! h) as [[r|r|]|]; try (by destruct slot).
    + unfold appTick. destruct (Num.le _ _) eqn:Hle.
      * unfold executeAppShutdown.
        destruct (selectedApp r), (appIntervalRef w), slot; simpl; try done;
          apply whole_zero.
      * destruct slot; simpl; [|done]. by apply whole_tick.
    + unfold sysTick. destruct (Num.le _ _) eqn:Hle.
      * rewrite executeSysAction_power.
        destruct (power_command _), (sysIntervalRef w), slot; simpl; try done;
          apply whole_zero.
      * destruct slot; simpl; [done|]. by apply whole_tick.
  - destruct (promises w !! p) as [k|]; [|done].
    destruct (expected k v); [|done].
    destruct k as [|r|r|], slot; simpl; try done;
      try (by destruct v); by destruct (shutdownAfter r).
  - destruct (promises w !! p) as [k|]; [|done]. by destruct k, slot.
  - case_bool_decide; [|done]. unfold toggleSelection.
    destruct (selectedApp (state w)); [case_decide|]; by destruct slot.
  - destruct (startApp_disabled (state w)); [done|].
    unfold startAppTimer. destruct (selectedApp (state w)); [|done].
    destruct (Num.le _ _) eqn:Hle; [done|].
    destruct slot; simpl; [|done]. by apply whole_seconds.
  - destruct (appIntervalRef w), slot; simpl; try done; apply whole_zero.
  - destruct (startSys_disabled (state w)); [done|].
    unfold startSysTimer. destruct (Num.le _ _) eqn:Hle; [done|].
    destruct slot; simpl; [done|]. by apply whole_seconds.
  - destruct (sysIntervalRef w), slot; simpl; try done; apply whole_zero.
Qed.

(** X1.  Whatever the events since the component was mounted, the
    remaining time of a slot is a whole number of seconds that is not
    negative, or else Infinity or NaN (on which a tick changes nothing). *)
Theorem remaining_is_whole (slot : Slot) (navigatorLanguage : string) (es : list Event) :
  whole (remaining slot (state (run es (mount navigatorLanguage)))).
Proof.
  apply (run_invariant (fun w => whole (remaining slot (state w)))).
  - intros e w. apply whole_step.
  - destruct slot; apply whole_zero.
Qed.

(** ** Starting a countdown *)

Lemma entered_fields (slot : Slot) (s : State) :
  entered slot s =
  Num.add (Num.mul (hoursEntered slot s) (Num.of_Z 60)) (minutesEntered slot s).
Proof. by destruct slot. Qed.

(** X2.  With whole hours [a] and minutes [b] in the fields (a field that
    cannot be read counting as zero) and [a * 60 + b] positive, a click on
    Start leaves [(a * 60 + b) * 60] seconds on the slot, empties its status
    and invokes nothing yet. *)
Theorem start_sets_duration (slot : Slot) (w : World) (c : Command) (a b : Z) :
  configured slot (state w) = Some c ->
  Num.gt (remaining slot (state w)) (Num.of_Z 0) = false ->
  hoursEntered slot (state w) = Num.of_Z a ->
  minutesEntered slot (state w) = Num.of_Z b ->
  (0 < a * 60 + b)%Z ->
  (Z.abs a <= 2 ^ 40)%Z -> (Z.abs b <= 2 ^ 40)%Z ->
  let w' := step (ClickStart slot) w in
  remaining slot (state w') = Num.of_Z ((a * 60 + b) * 60)
  /\ status slot (state w') = ""
  /\ invoked w' = invoked w
  /\ timers w' !! nextTimer w = Some (tick_of slot (state w)).
Proof.
  intros Hconf Hstart Ha Hb Hpos Ha40 Hb40 w'.
  assert (2 ^ 40 = 1099511627776 /\ 2 ^ 53 = 9007199254740992)%Z as [H40 H53] by done.
  rewrite H40 in *.
  assert (duration slot (state w) = Num.of_Z ((a * 60 + b) * 60)) as Hduration.
  { unfold duration. rewrite entered_fields, Ha, Hb.
    unfold seconds. by rewrite mul_of_Z, add_of_Z, mul_of_Z, floor_of_Z by lia. }
  unfold w'. rewrite (click_start slot w c ((a * 60 + b) * 60)) by (try done; lia).
  destruct slot; simpl; by rewrite lookup_insert_eq.
Qed.

Lemma start_sets_duration_witness :
  hoursEntered SysSlot (state initial) = Num.of_Z 1
  /\ minutesEntered SysSlot (state initial) = Num.of_Z 0
  /\ remaining SysSlot (state (step (ClickStart SysSlot) initial))
     = Num.of_Z ((1 * 60 + 0) * 60).
Proof.
  assert (hoursEntered SysSlot (state initial) = Num.of_Z 1) as Ha
    by (vm_compute; reflexivity).
  assert (minutesEntered SysSlot (state initial) = Num.of_Z 0) as Hb
    by (vm_compute; reflexivity).
  split; [exact Ha|]. split; [exact Hb|].
  refine (proj1 (start_sets_duration SysSlot initial system_shutdown 1 0 _ _ Ha Hb _ _ _));
    solve [vm_compute; reflexivity | lia].
Defined.

(** X3.  A total that is positive but makes less than one second is
    accepted: the slot is started with zero seconds left, its Start button
    stays enabled, and the first tick of its interval invokes the slot's
    command. *)
Theorem subsecond_duration_fires_at_first_tick (slot : Slot) (w : World) (c : Command) :
  configured slot (state w) = Some c ->
  Num.gt (remaining slot (state w)) (Num.of_Z 0) = false ->
  Num.le (entered slot (state w)) (Num.of_Z 0) = false ->
  duration slot (state w) = Num.of_Z 0 ->
  let started := step (ClickStart slot) w in
  let fired := step (Tick (nextTimer w)) started in
  remaining slot (state started) = Num.of_Z 0
  /\ timers started !! nextTimer w = Some (tick_of slot (state w))
  /\ step (ClickStart slot) started <> started
  /\ invoked fired = invoked w ++ [c]
  /\ timers fired !! nextTimer w = None.
Proof.
  intros Hconf Hstart Hle Hduration started fired.
  assert (started = armed slot w (Num.of_Z 0)) as Hstarted.
  { unfold started, duration in *. destruct slot; simpl in *.
    - unfold startApp_disabled, startAppTimer. rewrite Hstart.
      destruct (selectedApp (state w)); [|done]. simpl. by rewrite Hle, Hduration.
    - unfold startSys_disabled, startSysTimer. by rewrite Hstart, Hle, Hduration. }
  assert (fired =
          commit (with_remaining slot (Num.of_Z 0))
            (invoke c (continuation slot (state w))
               (clearInterval (Some (nextTimer w)) started))) as Hfired.
  { unfold fired. rewrite Hstarted. destruct slot; simpl in *.
    - rewrite lookup_insert_eq. unfold appTick, executeAppShutdown. simpl.
      destruct (selectedApp (state w)); [|done]. by injection Hconf as <-.
    - rewrite lookup_insert_eq. unfold sysTick. simpl.
      rewrite executeSysAction_power. simpl. by rewrite Hconf. }
  split; [rewrite Hstarted; by destruct slot|].
  split; [rewrite Hstarted; destruct slot; simpl; by rewrite lookup_insert_eq|].
  split.
  { intros Heq. apply (f_equal nextTimer) in Heq. revert Heq.
    rewrite Hstarted. unfold duration in *. destruct slot; simpl in *.
    - unfold startApp_disabled, startAppTimer. simpl.
      destruct (selectedApp (state w)); [|done]. simpl. rewrite Hle. simpl. lia.
    - unfold startSys_disabled, startSysTimer. simpl. rewrite Hle. simpl. lia. }
  split; [rewrite Hfired, Hstarted; by destruct slot|].
  rewrite Hfired, Hstarted. destruct slot; simpl; apply lookup_delete_eq.
Qed.

Lemma subsecond_duration_fires_at_first_tick_witness :
  Num.le (entered AppSlot (state demo_subsecond)) (Num.of_Z 0) = false
  /\ duration AppSlot (state demo_subsecond) = Num.of_Z 0
  /\ invoked (step (Tick (nextTimer demo_subsecond)) (step (ClickStart AppSlot) demo_subsecond))
     = invoked demo_subsecond ++ [kill_process 4242].
Proof.
  assert (Num.le (entered AppSlot (state demo_subsecond)) (Num.of_Z 0) = false) as Hle
    by (vm_compute; reflexivity).
  assert (duration AppSlot (state demo_subsecond) = Num.of_Z 0) as Hduration
    by (vm_compute; reflexivity).
  split; [exact Hle|]. split; [exact Hduration|].
  refine (proj1 (proj2 (proj2 (proj2
    (subsecond_duration_fires_at_first_tick AppSlot demo_subsecond (kill_process 4242)
       _ _ Hle Hduration)))));
    vm_compute; reflexivity.
Defined.

(** X4.  In every world the component can reach, cancelling a slot or a
    tick of one of its intervals (the one that fires included) leaves every
    interval that is not of that slot active, be it the countdown of the
    other slot or the 30-second refresh, and leaves the remaining time and
    the status of the other slot as they are. *)
Theorem slots_do_not_interfere
  (slot : Slot) (navigatorLanguage : string) (es : list Event)
  (e : Event) (h : positive) (cb : Callback) :
  let w := run es (mount navigatorLanguage) in
  of_slot slot w e ->
  timers w !! h = Some cb ->
  (forall r, cb <> tick_of slot r) ->
  timers (step e w) !! h = Some cb
  /\ remaining (other slot) (state (step e w)) = remaining (other slot) (state w)
  /\ status (other slot) (state (step e w)) = status (other slot) (state w).
Proof.
  intros w He Hh Hcb.
  pose proof (wellformed_reachable navigatorLanguage es) as [_ Href].
  fold w in Href. clearbody w.
  assert (forall h0, intervalRef slot w = Some h0 -> h0 <> h) as Hne.
  { intros h0 Hslot ->. destruct (Href slot h Hslot) as [_ Hkind].
    destruct (Hkind cb Hh) as [r ->]. by apply (Hcb r). }
  assert (timers (clearInterval (intervalRef slot w) w) !! h = Some cb) as Hclear.
  { destruct (intervalRef slot w) as [h0|] eqn:Hslot; [|done].
    simpl. rewrite lookup_delete_ne; [done|by apply Hne]. }
  destruct He as [->|(h' & r & -> & Hh')].
  - destruct slot; (split; [exact Hclear|]); simpl.
    + by destruct (appIntervalRef w).
    + by destruct (sysIntervalRef w).
  - simpl. rewrite Hh'. destruct slot; simpl in *.
    + unfold appTick. destruct (Num.le _ _); [|done].
      unfold executeAppShutdown.
      destruct (selectedApp r); (split; [exact Hclear|]); simpl;
        by destruct (appIntervalRef w).
    + unfold sysTick. destruct (Num.le _ _); [|done].
      rewrite executeSysAction_power.
      destruct (power_command _); (split; [exact Hclear|]); simpl;
        by destruct (sysIntervalRef w).
Qed.

Lemma slots_do_not_interfere_witness :
  of_slot AppSlot (run demo_both_events (mount "en-US")) ClickCancelApp
  /\ timers (run demo_both_events (mount "en-US")) !! 3%positive
     = Some (SysTick demo_sys_render)
  /\ timers (step ClickCancelApp (run demo_both_events (mount "en-US"))) !! 3%positive
     = Some (SysTick demo_sys_render).
Proof.
  assert (of_slot AppSlot (run demo_both_events (mount "en-US")) ClickCancelApp)
    as Hslot by (by left).
  assert (timers (run demo_both_events (mount "en-US")) !! 3%positive
          = Some (SysTick demo_sys_render)) as Hlive by (vm_compute; reflexivity).
  split; [exact Hslot|]. split; [exact Hlive|].
  exact (proj1 (slots_do_not_interfere AppSlot "en-US" demo_both_events
                  ClickCancelApp 3 (SysTick demo_sys_render) Hslot Hlive
                  (fun r (H : SysTick demo_sys_render = AppTick r) =>
                     eq_ind (SysTick demo_sys_render)
                       (fun cb => match cb with SysTick _ => True | _ => False end)
                       I (AppTick r) H))).
Defined.

(** ** What the closures hold *)

Lemma configured_closures_step (e : Event) (w : World) :
  configured_closures w -> configured_closures (step e w).
Proof.
  intros (Haction & Happ & Hsys).
  assert (forall w', (exists o, sysAction (state w') = option_value o) ->
            (forall h cb, timers w' !! h = Some cb -> timers w !! h = Some cb) ->
            configured_closures w') as Hframe.
  { intros w' Ha Ht. split; [done|]. split; intros h r Hh%Ht; eauto. }
  destruct e; simpl; try (by apply Hframe).
  - destruct (timers w !! h) as [[r|r|]|]; try (by apply Hframe).
    + unfold appTick. destruct (Num.le _ _); [|by apply Hframe].
      apply Hframe.
      * unfold executeAppShutdown. by destruct (selectedApp r), (appIntervalRef w).
      * intros h' cb. simpl. rewrite timers_executeAppShutdown.
        apply timers_clearInterval.
    + unfold sysTick. destruct (Num.le _ _); [|by apply Hframe].
      apply Hframe.
      * simpl. rewrite executeSysAction_power.
        by destruct (power_command _), (sysIntervalRef w).
      * intros h' cb. simpl. rewrite timers_executeSysAction.
        apply timers_clearInterval.
  - destruct (promises w !! p) as [k|]; [|by apply Hframe].
    destruct (expected k v); [|by apply Hframe]. apply Hframe.
    + destruct k as [|r|r|]; simpl; try done;
        [by destruct v|by destruct (shutdownAfter r)].
    + intros h cb. by rewrite timers_resume.
  - destruct (promises w !! p) as [k|]; [|by apply Hframe]. apply Hframe.
    + by destruct k.
    + intros h cb. by rewrite timers_abandon.
  - case_bool_decide; [|by apply Hframe]. unfold toggleSelection.
    destruct (selectedApp (state w)); [case_decide|]; by apply Hframe.
  - destruct (startApp_disabled (state w)); [by apply Hframe|].
    unfold startAppTimer. destruct (selectedApp (state w)) as [app|] eqn:Hsel;
      [|by apply Hframe].
    destruct (Num.le _ _); [by apply Hframe|].
    split; [done|]. split; intros h r; simpl.
    + intros [[_ [= <-]]|[_ Hh]]%lookup_insert_Some; [by rewrite Hsel|eauto].
    + intros [[_ [=]]|[_ Hh]]%lookup_insert_Some. eauto.
  - apply Hframe; [unfold cancelAppTimer; simpl; by destruct (appIntervalRef w)|].
    intros h cb. apply timers_clearInterval.
  - destruct (startSys_disabled (state w)); [by apply Hframe|].
    unfold startSysTimer. destruct (Num.le _ _); [by apply Hframe|].
    split; [done|]. split; intros h r; simpl.
    + intros [[_ [=]]|[_ Hh]]%lookup_insert_Some. eauto.
    + intros [[_ [= <-]]|[_ Hh]]%lookup_insert_Some; [done|eauto].
  - apply Hframe; [unfold cancelSysTimer; simpl; by destruct (sysIntervalRef w)|].
    intros h cb. apply timers_clearInterval.
  - apply Hframe; [by exists o|done].
Qed.

Lemma configured_closures_reachable (l : string) (es : list Event) :
  configured_closures (run es (mount l)).
Proof.
  apply (run_invariant configured_closures); [apply configured_closures_step|].
  split; [by exists OptShutdown|].
  split; intros h r; simpl;
    by intros [[_ [=]]|[_ ?]]%lookup_insert_Some.
Qed.

Lemma power_command_option (o : PowerOption) :
  exists c, power_command (option_value o) = Some c /\ is_power c = true.
Proof. destruct o; vm_compute; eauto. Qed.

(** X5.  In every world the component can reach, the tick that finds at
    most one second left on a slot invokes exactly one command: for the app
    slot [kill_process] on a process, the guard [if (selectedApp)] of
    [executeAppShutdown] never being false there; for the system slot one of
    the three power commands. *)
Theorem fire_always_invokes
  (slot : Slot) (navigatorLanguage : string) (es : list Event)
  (h : positive) (r : State) :
  let w := run es (mount navigatorLanguage) in
  timers w !! h = Some (tick_of slot r) ->
  Num.le (remaining slot (state w)) (Num.of_Z 1) = true ->
  exists c,
    configured slot r = Some c
    /\ invoked (step (Tick h) w) = invoked w ++ [c]
    /\ remaining slot (state (step (Tick h) w)) = Num.of_Z 0.
Proof.
  intros w Hh Hle.
  pose proof (configured_closures_reachable navigatorLanguage es) as (_ & Happ & Hsys).
  fold w in Happ, Hsys. clearbody w. simpl. rewrite Hh. destruct slot; simpl in *.
  - destruct (Happ h r Hh) as [app Hsel].
    exists (kill_process (pid app)). unfold appTick, executeAppShutdown.
    rewrite Hle, Hsel. simpl. by destruct (appIntervalRef w).
  - destruct (Hsys h r Hh) as [o Ho].
    destruct (power_command_option o) as (c & Hc & _). rewrite <- Ho in Hc.
    exists c. unfold sysTick. rewrite Hle, executeSysAction_power, Hc. simpl.
    by destruct (sysIntervalRef w).
Qed.

Lemma fire_always_invokes_witness :
  timers (run demo_last_second (mount "en-US")) !! 2%positive
  = Some (tick_of AppSlot demo_app_render)
  /\ Num.le (remaining AppSlot (state (run demo_last_second (mount "en-US"))))
            (Num.of_Z 1) = true
  /\ exists c,
       configured AppSlot demo_app_render = Some c
       /\ invoked (step (Tick 2) (run demo_last_second (mount "en-US")))
          = invoked (run demo_last_second (mount "en-US")) ++ [c]
       /\ remaining AppSlot (state (step (Tick 2) (run demo_last_second (mount "en-US"))))
          = Num.of_Z 0.
Proof.
  assert (timers (run demo_last_second (mount "en-US")) !! 2%positive
          = Some (tick_of AppSlot demo_app_render)) as Hlive by (vm_compute; reflexivity).
  assert (Num.le (remaining AppSlot (state (run demo_last_second (mount "en-US"))))
                 (Num.of_Z 1) = true) as Hle by (vm_compute; reflexivity).
  split; [exact Hlive|]. split; [exact Hle|].
  exact (fire_always_invokes AppSlot "en-US" demo_last_second 2 demo_app_render Hlive Hle).
Defined.

(** X6.  No event changes the language: it is the one chosen when the
    component was mounted, Chinese exactly when [navigator.language] begins
    with "zh" in any case, so that every alert and every status is worded in
    it. *)
Theorem language_is_fixed (navigatorLanguage : string) (es : list Event) :
  lang (state (run es (mount navigatorLanguage)))
  = if JS.startsWith (JS.toLowerCase navigatorLanguage) "zh" then zh else en.
Proof.
  apply (run_invariant
           (fun w => lang (state w)
                     = if JS.startsWith (JS.toLowerCase navigatorLanguage) "zh"
                       then zh else en)); [|done].
  intros e w Hw. rewrite <- Hw. destruct e; simpl; try done.
  - destruct (timers w !! h) as [[r|r|]|]; try done.
    + unfold appTick, executeAppShutdown.
      by destruct (Num.le _ _), (selectedApp r), (appIntervalRef w).
    + unfold sysTick. destruct (Num.le _ _); [|done].
      rewrite executeSysAction_power.
      by destruct (power_command _), (sysIntervalRef w).
  - destruct (promises w !! p) as [k|]; [|done].
    destruct (expected k v); [|done].
    destruct k as [|r|r|]; simpl; try done; [by destruct v|by destruct (shutdownAfter r)].
  - destruct (promises w !! p) as [k|]; [|done]. by destruct k.
  - case_bool_decide; [|done]. unfold toggleSelection.
    destruct (selectedApp (state w)); [case_decide|]; done.
  - destruct (startApp_disabled (state w)); [done|].
    unfold startAppTimer. destruct (selectedApp (state w)); [|done].
    by destruct (Num.le _ _).
  - by destruct (appIntervalRef w).
  - destruct (startSys_disabled (state w)); [done|].
    unfold startSysTimer. by destruct (Num.le _ _).
  - by destruct (sysIntervalRef w).
Qed.

(** ** Which events call the backend *)

Lemma powers_app (cs : list Command) (c : Command) :
  powers (cs ++ [c]) = powers cs ++ (if is_power c then [c] else []).
Proof. unfold powers. rewrite List.filter_app. simpl. by destruct (is_power c). Qed.

(** X7.  [kill_process] is called by the tick of an interval of the app slot
    and by nothing else: no click, no edit of a field, no refresh and no
    settled promise calls it. *)
Theorem only_app_ticks_kill (e : Event) (w : World) :
  ~ app_tick w e -> kills (invoked (step e w)) = kills (invoked w).
Proof.
  intros Hnot. destruct e; simpl; try done.
  - destruct (timers w !! h) as [[r|r|]|] eqn:Hh; try done.
    + destruct Hnot. by exists h, r.
    + unfold sysTick. destruct (Num.le _ _); [|done].
      simpl. rewrite kills_executeSysAction. by destruct (sysIntervalRef w).
    + apply kills_loadApps.
  - apply kills_loadApps.
  - destruct (promises w !! p) as [k|]; [|done].
    destruct (expected k v); [|done]. by rewrite kills_resume.
  - destruct (promises w !! p) as [k|]; [|done]. by rewrite kills_abandon.
  - case_bool_decide; [|done]. unfold toggleSelection.
    destruct (selectedApp (state w)); [case_decide|]; done.
  - destruct (startApp_disabled (state w)); [done|].
    unfold startAppTimer. destruct (selectedApp (state w)); [|done].
    by destruct (Num.le _ _).
  - by destruct (appIntervalRef w).
  - destruct (startSys_disabled (state w)); [done|].
    unfold startSysTimer. by destruct (Num.le _ _).
  - by destruct (sysIntervalRef w).
Qed.

Lemma only_app_ticks_kill_witness :
  ~ app_tick demo_armed ClickStartApp
  /\ kills (invoked (step ClickStartApp demo_armed)) = kills (invoked demo_armed).
Proof.
  assert (~ app_tick demo_armed ClickStartApp) as Hnot
    by (intros (h & r & Heq & _); discriminate Heq).
  split; [exact Hnot|].
  exact (only_app_ticks_kill ClickStartApp demo_armed Hnot).
Defined.

(** X8.  A power command is called by the tick of an interval of the system
    slot, or when the [kill_process] of a fired app slot resolves, and by
    nothing else. *)
Theorem only_fires_call_power (e : Event) (w : World) :
  ~ power_source w e -> powers (invoked (step e w)) = powers (invoked w).
Proof.
  intros Hnot.
  assert (powers (invoked (loadApps w)) = powers (invoked w)) as Hload.
  { simpl. rewrite powers_app. simpl. apply app_nil_r. }
  destruct e; simpl; try done.
  - destruct (timers w !! h) as [[r|r|]|] eqn:Hh; try done.
    + unfold appTick. destruct (Num.le _ _); [|done].
      unfold executeAppShutdown.
      destruct (selectedApp r), (appIntervalRef w); simpl; try done;
        rewrite powers_app; simpl; apply app_nil_r.
    + destruct Hnot. left. by exists h, r.
  - destruct (promises w !! p) as [k|] eqn:Hp; [|done].
    destruct (expected k v) eqn:Hexp; [|done].
    destruct k as [|r|r|]; simpl.
    + by destruct v.
    + destruct Hnot. right. by exists p, v, r.
    + rewrite powers_app. simpl. apply app_nil_r.
    + done.
  - destruct (promises w !! p) as [k|]; [|done]. by rewrite kills_abandon.
  - case_bool_decide; [|done]. unfold toggleSelection.
    destruct (selectedApp (state w)); [case_decide|]; done.
  - destruct (startApp_disabled (state w)); [done|].
    unfold startAppTimer. destruct (selectedApp (state w)); [|done].
    by destruct (Num.le _ _).
  - by destruct (appIntervalRef w).
  - destruct (startSys_disabled (state w)); [done|].
    unfold startSysTimer. by destruct (Num.le _ _).
  - by destruct (sysIntervalRef w).
Qed.

Lemma only_fires_call_power_witness :
  ~ power_source demo_armed ClickStartSys
  /\ powers (invoked (step ClickStartSys demo_armed)) = powers (invoked demo_armed).
Proof.
  assert (~ power_source demo_armed ClickStartSys) as Hnot.
  { intros [(h & r & Heq & _)|(p & v & r & Heq & _)]; discriminate Heq. }
  split; [exact Hnot|].
  exact (only_fires_call_power ClickStartSys demo_armed Hnot).
Defined.

(** ** After the fire of the app slot *)

(** X9.  When the [kill_process] of a fired app slot resolves, the status
    becomes "closed".  If the box was not ticked in the render that started
    the countdown, the selection is cleared and a refresh of the list is
    requested at once.  If it was, [system_shutdown] is invoked, the
    selection being kept meanwhile, and the selection is cleared and the
    refresh requested when that call resolves. *)
Theorem after_kill_resolves
  (w : World) (p : positive) (r : State) (v v' : Value) :
  promises w !! p = Some (AppShutdown_killed r) ->
  expected (AppShutdown_killed r) v = true ->
  expected (AppShutdown_chained r) v' = true ->
  let w1 := step (Resolve p v) w in
  let w2 := step (Resolve (nextPromise w) v') w1 in
  appStatus (state w1) = t r Key.closed
  /\ (shutdownAfter r = false ->
      selectedApp (state w1) = None
      /\ loading (state w1) = true
      /\ invoked w1 = invoked w ++ [get_running_apps])
  /\ (shutdownAfter r = true ->
      selectedApp (state w1) = selectedApp (state w)
      /\ invoked w1 = invoked w ++ [system_shutdown]
      /\ selectedApp (state w2) = None
      /\ loading (state w2) = true
      /\ invoked w2 = invoked w ++ [system_shutdown; get_running_apps]).
Proof.
  intros Hp Hv Hv' w1 w2. unfold w2, w1. clear w1 w2.
  cbn [step]. rewrite Hp, Hv. cbn [resume].
  destruct (shutdownAfter r) eqn:Hbox.
  - split; [done|]. split; [done|]. intros _.
    cbn [step]. simpl. rewrite lookup_insert_eq. rewrite Hv'. simpl.
    by rewrite <- app_assoc.
  - split; [done|]. split; [done|]. done.
Qed.

Lemma after_kill_resolves_witness :
  promises demo_fired_world !! 2%positive
  = Some (AppShutdown_killed (state demo_chained))
  /\ appStatus (state (step (Resolve 2 Nothing) demo_fired_world))
     = t (state demo_chained) Key.closed.
Proof.
  assert (promises demo_fired_world !! 2%positive
          = Some (AppShutdown_killed (state demo_chained))) as Hp
    by (vm_compute; reflexivity).
  split; [exact Hp|].
  exact (proj1 (after_kill_resolves demo_fired_world 2 (state demo_chained)
                  Nothing Nothing Hp eq_refl eq_refl)).
Defined.

(** X10.  A command that fails leaves no trace in the component, unless it
    is the poll: when [kill_process], the chained [system_shutdown] or a
    power command of the system slot rejects, the render, the alerts, the
    error log, the intervals and the calls are as before; no status is
    recorded, no refresh is requested, and after a failed [kill_process] no
    shutdown is invoked. *)
Theorem failed_command_is_silent
  (w : World) (p : positive) (k : Continuation) (cause : string) :
  promises w !! p = Some k ->
  k <> LoadApps_resume ->
  let w' := step (Reject p cause) w in
  state w' = state w
  /\ alerts w' = alerts w
  /\ errors w' = errors w
  /\ timers w' = timers w
  /\ invoked w' = invoked w
  /\ promises w' = delete p (promises w).
Proof.
  intros Hp Hk w'. unfold w'. simpl. rewrite Hp. by destruct k.
Qed.

Lemma failed_command_is_silent_witness :
  promises demo_fired_world !! 2%positive
  = Some (AppShutdown_killed (state demo_chained))
  /\ state (step (Reject 2 "access denied") demo_fired_world) = state demo_fired_world
  /\ invoked (step (Reject 2 "access denied") demo_fired_world) = invoked demo_fired_world.
Proof.
  assert (promises demo_fired_world !! 2%positive
          = Some (AppShutdown_killed (state demo_chained))) as Hp
    by (vm_compute; reflexivity).
  split; [exact Hp|].
  destruct (failed_command_is_silent demo_fired_world 2 _ "access denied" Hp)
    as (Hstate & _ & _ & _ & Hinvoked & _); [discriminate|].
  split; [exact Hstate|exact Hinvoked].
Defined.

(** X11.  Cancel comes too late once the app slot has fired: it shows
    "cancelled", but when [kill_process] resolves the status becomes
    "closed" and the shutdown that was chained, or the refresh, follows as if
    Cancel had not been clicked. *)
Theorem cancel_after_fire_is_too_late
  (w : World) (p : positive) (r : State) (v : Value) :
  promises w !! p = Some (AppShutdown_killed r) ->
  expected (AppShutdown_killed r) v = true ->
  let cancelled := step ClickCancelApp w in
  let resolved := step (Resolve p v) cancelled in
  appStatus (state cancelled) = t (state w) Key.cancelled
  /\ invoked cancelled = invoked w
  /\ appStatus (state resolved) = t r Key.closed
  /\ invoked resolved =
     invoked w ++ [if shutdownAfter r then system_shutdown else get_running_apps].
Proof.
  intros Hp Hv cancelled resolved.
  assert (promises cancelled !! p = Some (AppShutdown_killed r)) as Hp'.
  { unfold cancelled. simpl. by destruct (appIntervalRef w). }
  assert (invoked cancelled = invoked w) as Hinvoked.
  { unfold cancelled. simpl. by destruct (appIntervalRef w). }
  split; [unfold cancelled; simpl; by destruct (appIntervalRef w)|].
  split; [done|].
  unfold resolved. clearbody cancelled. simpl. rewrite Hp', Hv. simpl.
  rewrite <- Hinvoked. by destruct (shutdownAfter r).
Qed.

Lemma cancel_after_fire_is_too_late_witness :
  promises demo_fired_world !! 2%positive
  = Some (AppShutdown_killed (state demo_chained))
  /\ invoked (step (Resolve 2 Gone) (step ClickCancelApp demo_fired_world))
     = invoked demo_fired_world
       ++ [if shutdownAfter (state demo_chained) then system_shutdown else get_running_apps].
Proof.
  assert (promises demo_fired_world !! 2%positive
          = Some (AppShutdown_killed (state demo_chained))) as Hp
    by (vm_compute; reflexivity).
  split; [exact Hp|].
  exact (proj2 (proj2 (proj2
    (cancel_after_fire_is_too_late demo_fired_world 2 (state demo_chained) Gone
       Hp eq_refl)))).
Defined.

Example cancel_after_fire_values :
  let w := step (Resolve 2 Gone) (step ClickCancelApp demo_fired_world) in
  appStatus (state (step ClickCancelApp demo_fired_world)) = "Cancelled"
  /\ appStatus (state w) = "✓ Closed"
  /\ invoked w = [get_running_apps; kill_process 4242; system_shutdown].
Proof. vm_compute. auto. Qed.

(** ** Polls that overlap *)

(** X12.  When two polls are under way, the list shown is the one of the
    poll that completes last, whichever was requested first, and the loading
    flag is lowered as soon as one of them completes, the other still being
    awaited. *)
Theorem overlapping_polls
  (w : World) (p q : positive) (first later : list ProcessInfo) :
  promises w !! p = Some LoadApps_resume ->
  promises w !! q = Some LoadApps_resume ->
  p <> q ->
  let w1 := step (Resolve q (Processes first)) w in
  let w2 := step (Resolve p (Processes later)) w1 in
  apps (state w1) = first
  /\ loading (state w1) = false
  /\ promises w1 !! p = Some LoadApps_resume
  /\ apps (state w2) = later
  /\ selectedApp (state w2) = selectedApp (state w).
Proof.
  intros Hp Hq Hne w1 w2.
  assert (w1 = commit (with_loading false) (commit (with_apps first) (settle q w)))
    as Hw1 by (unfold w1; simpl; by rewrite Hq).
  assert (promises w1 !! p = Some LoadApps_resume) as Hp1.
  { rewrite Hw1. simpl. by rewrite lookup_delete_ne. }
  split; [by rewrite Hw1|]. split; [by rewrite Hw1|]. split; [done|].
  unfold w2. cbn [step]. rewrite Hp1. cbn [expected resume].
  split; [done|]. by rewrite Hw1.
Qed.

Lemma overlapping_polls_witness :
  promises demo_two_polls !! 2%positive = Some LoadApps_resume
  /\ promises demo_two_polls !! 3%positive = Some LoadApps_resume
  /\ apps (state (step (Resolve 2 (Processes [demo_app]))
                   (step (Resolve 3 (Processes [])) demo_two_polls)))
     = [demo_app].
Proof.
  assert (promises demo_two_polls !! 2%positive = Some LoadApps_resume) as Hp
    by (vm_compute; reflexivity).
  assert (promises demo_two_polls !! 3%positive = Some LoadApps_resume) as Hq
    by (vm_compute; reflexivity).
  split; [exact Hp|]. split; [exact Hq|].
  refine (proj1 (proj2 (proj2 (proj2
    (overlapping_polls demo_two_polls 2 3 [] [demo_app] Hp Hq _))))).
  discriminate.
Defined.


(** * The display of the remaining time *)

Example formatTime_values :
  formatTime 0 = "00:00" /\ formatTime 59 = "00:59" /\ formatTime 1800 = "30:00"
  /\ formatTime 3599 = "59:59" /\ formatTime 3600 = "01:00:00"
  /\ formatTime 86399 = "23:59:59" /\ formatTime 360000 = "100:00:00"
  /\ formatTime (-1) = "-1:-1"
  /\ Previous.formatTime 5400 = "90:00".
Proof. vm_compute. repeat split. Qed.

Section Decimal.

Local Open Scope Z_scope.

Lemma is_nat_digit (d : Z) :
  0 <= d < 10 -> Ascii.is_nat (Text.digit d) = Some (Z.to_nat d).
Proof.
  intros Hd.
  assert (d = 0 \/ d = 1 \/ d = 2 \/ d = 3 \/ d = 4 \/ d = 5 \/ d = 6 \/ d = 7
          \/ d = 8 \/ d = 9) as Hcases by lia.
  repeat (destruct Hcases as [->|Hcases]; [reflexivity|]). by subst.
Qed.

Lemma digits_digit (d : Z) (rest : string) (acc : Z) (count : nat) :
  0 <= d < 10 ->
  Num.digits (String (Text.digit d) rest) acc count
  = Num.digits rest (10 * acc + d) (S count).
Proof.
  intros Hd. cbn [Num.digits]. rewrite is_nat_digit by done.
  by rewrite Z2Nat.id by lia.
Qed.

Lemma append_assoc (s u v : string) : ((s ++ u) ++ v = s ++ (u ++ v))%string.
Proof. induction s as [|c s IH]; [done|]. by rewrite !append_cons, IH. Qed.

(** Reading the digits that [digits_of] has written. *)
Lemma digits_digits_of (fuel : nat) :
  forall (n : Z) (rest : string) (acc : Z) (count : nat),
    0 <= n < 10 ^ Z.of_nat fuel ->
    Num.digits (Text.digits_of fuel n ++ rest) acc count
    = Num.digits rest
        (acc * 10 ^ Z.of_nat (String.length (Text.digits_of fuel n)) + n)
        (count + String.length (Text.digits_of fuel n)).
Proof.
  induction fuel as [|fuel IH]; intros n rest acc count Hn.
  - simpl in *. replace n with 0 by lia.
    rewrite append_empty. f_equal; lia.
  - cbn [Text.digits_of]. destruct (n <? 10) eqn:Hsmall.
    + apply Z.ltb_lt in Hsmall. rewrite append_cons, append_empty.
      rewrite digits_digit by lia. simpl String.length. f_equal; lia.
    + apply Z.ltb_ge in Hsmall. rewrite append_assoc, append_cons, append_empty.
      assert (0 <= n / 10 < 10 ^ Z.of_nat fuel) as Hquot.
      { rewrite Nat2Z.inj_succ, Z.pow_succ_r in Hn by lia.
        split; [apply Z.div_pos; lia|apply Z.div_lt_upper_bound; lia]. }
      rewrite IH by done. rewrite digits_digit by (apply Z.mod_pos_bound; lia).
      rewrite length_append. simpl String.length.
      rewrite Nat2Z.inj_add, Z.pow_add_r by lia.
      f_equal; [|lia]. change (10 ^ Z.of_nat 1) with 10.
      pose proof (Z.div_mod n 10). lia.
Qed.

Lemma log2_fuel (n : Z) : 0 <= n -> n < 10 ^ Z.of_nat (S (Z.to_nat (Z.log2 n))).
Proof.
  intros Hn. rewrite Nat2Z.inj_succ, Z2Nat.id by apply Z.log2_nonneg.
  destruct (decide (n = 0)) as [->|Hpos]; [done|].
  pose proof (Z.log2_spec n) as [_ Hup]; [lia|].
  eapply Z.lt_le_trans; [exact Hup|].
  apply Z.pow_le_mono_l. lia.
Qed.

Lemma digits_fill (k : nat) (s : string) (count : nat) :
  Num.digits (Text.fill k "0" ++ s) 0 count = Num.digits s 0 (count + k).
Proof.
  revert count. induction k as [|k IH]; intros count.
  - rewrite append_empty. f_equal. lia.
  - cbn [Text.fill]. rewrite append_cons.
    change "0"%char with (Text.digit 0). rewrite digits_digit by lia.
    change (10 * 0 + 0) with 0. rewrite IH. f_equal. lia.
Qed.

(** Reading a field that [formatTime] has written gives its number back. *)
Lemma digits_two (n : Z) (rest : string) :
  0 <= n ->
  exists count,
    Num.digits (Text.padStart (Text.toString n) 2 "0" ++ rest) 0 0
    = Num.digits rest n count.
Proof.
  intros Hn. unfold Text.padStart, Text.toString.
  replace (n <? 0) with false by (symmetry; apply Z.ltb_ge; lia).
  rewrite append_assoc, digits_fill.
  rewrite digits_digits_of by (split; [done|by apply log2_fuel]).
  eexists. reflexivity.
Qed.

Lemma digits_colon (rest : string) (acc : Z) (count : nat) :
  Num.digits (String ":" rest) acc count = (acc, count, String ":" rest).
Proof. reflexivity. Qed.

Lemma digits_end (acc : Z) (count : nat) : Num.digits "" acc count = (acc, count, "").
Proof. reflexivity. Qed.

Lemma readTime_two (m s : Z) :
  0 <= m -> 0 <= s ->
  readTime (Text.padStart (Text.toString m) 2 "0" ++ ":"
            ++ Text.padStart (Text.toString s) 2 "0") = Some (m * 60 + s).
Proof.
  intros Hm Hs. unfold readTime.
  destruct (digits_two m (":" ++ Text.padStart (Text.toString s) 2 "0") Hm)
    as [c1 ->].
  rewrite append_cons, append_empty, digits_colon.
  destruct (digits_two s "" Hs) as [c2 Hc2]. rewrite append_empty_r in Hc2.
  by rewrite Hc2, digits_end.
Qed.

Lemma readTime_three (h m s : Z) :
  0 <= h -> 0 <= m -> 0 <= s ->
  readTime (Text.padStart (Text.toString h) 2 "0" ++ ":"
            ++ Text.padStart (Text.toString m) 2 "0" ++ ":"
            ++ Text.padStart (Text.toString s) 2 "0")
  = Some (h * 3600 + m * 60 + s).
Proof.
  intros Hh Hm Hs. unfold readTime.
  destruct (digits_two h (":" ++ Text.padStart (Text.toString m) 2 "0" ++ ":"
                          ++ Text.padStart (Text.toString s) 2 "0") Hh) as [c1 ->].
  rewrite append_cons, append_empty, digits_colon.
  destruct (digits_two m (":" ++ Text.padStart (Text.toString s) 2 "0") Hm)
    as [c2 ->].
  rewrite append_cons, append_empty, digits_colon.
  destruct (digits_two s "" Hs) as [c3 Hc3]. rewrite append_empty_r in Hc3.
  by rewrite Hc3, digits_end.
Qed.

(** X13.  The time shown determines the seconds left: read back field by
    field, the text that [formatTime] gives for a whole number of seconds
    from zero to [2 ^ 53] yields that number, so that two different
    remaining times in this range are never shown alike. *)
Theorem formatTime_reads_back (seconds : Z) :
  0 <= seconds <= 2 ^ 53 ->
  readTime (formatTime seconds) = Some seconds
  /\ forall other : Z,
       0 <= other <= 2 ^ 53 -> formatTime other = formatTime seconds -> other = seconds.
Proof.
  assert (forall s, 0 <= s -> readTime (formatTime s) = Some s) as Hread.
  { intros s Hs. unfold formatTime.
    rewrite !Z.rem_mod_nonneg by lia.
    destruct (0 <? s / 3600) eqn:Hh.
    - rewrite readTime_three.
      + f_equal. clear. Z.div_mod_to_equations. lia.
      + apply Z.div_pos; lia.
      + apply Z.div_pos; [apply Z.mod_pos_bound|]; lia.
      + apply Z.mod_pos_bound. lia.
    - apply Z.ltb_ge in Hh.
      assert (s / 3600 = 0) as Hzero by (pose proof (Z.div_pos s 3600); lia).
      rewrite readTime_two.
      + f_equal. clear Hh. Z.div_mod_to_equations. lia.
      + apply Z.div_pos; [apply Z.mod_pos_bound|]; lia.
      + apply Z.mod_pos_bound. lia. }
  intros [Hs _]. split; [by apply Hread|].
  intros other [Hother _] Heq.
  assert (Some other = Some seconds) as Hsome
    by (by rewrite <- (Hread other), <- (Hread seconds), Heq).
  by injection Hsome.
Qed.

Lemma formatTime_reads_back_witness :
  0 <= 5025 <= 2 ^ 53 /\ readTime (formatTime 5025) = Some 5025.
Proof.
  assert (0 <= 5025 <= 2 ^ 53) as H by lia.
  split; [exact H|]. exact (proj1 (formatTime_reads_back 5025 H)).
Defined.

(** A number below one hundred is shown by its two digits. *)
Lemma two_digits (n : Z) :
  0 <= n < 100 ->
  Text.padStart (Text.toString n) 2 "0"
  = String (Text.digit (n / 10)) (String (Text.digit (n mod 10)) "").
Proof.
  intros Hn.
  assert (forallb
            (fun k => bool_decide
               (Text.padStart (Text.toString (Z.of_nat k)) 2 "0"
                = String (Text.digit (Z.of_nat k / 10))
                    (String (Text.digit (Z.of_nat k mod 10)) "")))
            (seq 0 100) = true) as Hall by (vm_compute; reflexivity).
  rewrite forallb_forall in Hall.
  specialize (Hall (Z.to_nat n)). rewrite Z2Nat.id in Hall by lia.
  eapply bool_decide_eq_true_1, Hall, in_seq. lia.
Qed.

(** X14.  Below one hour the time is shown as [MM:SS] and from one hour to
    below one hundred as [HH:MM:SS], every field with exactly two digits,
    the minutes and the seconds below sixty. *)
Theorem formatTime_shape (seconds : Z) :
  0 <= seconds < 360000 ->
  let h := seconds / 3600 in
  let m := seconds mod 3600 / 60 in
  let s := seconds mod 60 in
  let two (n : Z) := String (Text.digit (n / 10)) (String (Text.digit (n mod 10)) "") in
  0 <= h < 100 /\ 0 <= m < 60 /\ 0 <= s < 60
  /\ seconds = h * 3600 + m * 60 + s
  /\ formatTime seconds
     = if seconds <? 3600 then (two m ++ ":" ++ two s)%string
       else (two h ++ ":" ++ two m ++ ":" ++ two s)%string.
Proof.
  intros Hs h m s two.
  assert (0 <= h < 100) as Hh
    by (unfold h; split; [apply Z.div_pos|apply Z.div_lt_upper_bound]; lia).
  assert (0 <= m < 60) as Hm.
  { unfold m. pose proof (Z.mod_pos_bound seconds 3600).
    split; [apply Z.div_pos|apply Z.div_lt_upper_bound]; lia. }
  assert (0 <= s < 60) as Hsec by (apply Z.mod_pos_bound; lia).
  assert (seconds = h * 3600 + m * 60 + s) as Hsum.
  { unfold h, m, s. clear. Z.div_mod_to_equations. lia. }
  repeat (split; [done|]).
  unfold formatTime. rewrite !Z.rem_mod_nonneg by lia.
  fold h m s. rewrite !two_digits by lia. fold (two h) (two m) (two s).
  destruct (seconds <? 3600) eqn:Hlt.
  - apply Z.ltb_lt in Hlt.
    replace (0 <? h) with false; [done|].
    symmetry. apply Z.ltb_ge. unfold h.
    pose proof (Z.div_lt_upper_bound seconds 3600 1). lia.
  - apply Z.ltb_ge in Hlt.
    replace (0 <? h) with true; [done|].
    symmetry. apply Z.ltb_lt. unfold h.
    pose proof (Z.div_le_lower_bound seconds 3600 1). lia.
Qed.

Lemma formatTime_shape_witness :
  0 <= 5025 < 360000 /\ formatTime 5025 = "01:23:45"%string.
Proof.
  assert (0 <= 5025 < 360000) as H by lia.
  split; [exact H|].
  exact (proj2 (proj2 (proj2 (proj2 (formatTime_shape 5025 H))))).
Defined.

(** X15.  Below one hour the component shows the time as its previous
    revision did; from one hour on the previous revision went on counting
    the minutes beyond fifty-nine, and what it showed for a whole number of
    seconds up to [2 ^ 53] reads back to the same seconds as well. *)
Theorem formatTime_extends_previous (seconds : Z) :
  0 <= seconds <= 2 ^ 53 ->
  (seconds < 3600 -> formatTime seconds = Previous.formatTime seconds)
  /\ readTime (Previous.formatTime seconds) = Some seconds.
Proof.
  intros [Hs _]. split.
  - intros Hlt. unfold formatTime, Previous.formatTime.
    rewrite !Z.rem_mod_nonneg by lia.
    rewrite (Z.div_small seconds 3600), (Z.mod_small seconds 3600) by lia.
    done.
  - unfold Previous.formatTime. rewrite Z.rem_mod_nonneg by lia.
    rewrite readTime_two.
    + f_equal. pose proof (Z.div_mod seconds 60). lia.
    + apply Z.div_pos; lia.
    + apply Z.mod_pos_bound. lia.
Qed.

Lemma formatTime_extends_previous_witness :
  0 <= 1800 <= 2 ^ 53 /\ readTime (Previous.formatTime 1800) = Some 1800.
Proof.
  assert (0 <= 1800 <= 2 ^ 53) as H by lia.
  split; [exact H|]. exact (proj2 (formatTime_extends_previous 1800 H)).
Defined.

End Decimal.

(** ** The refresh and the calls *)

(** X16.  While the component is mounted nothing stops the fallback
    refresh: whatever the events since the mount, the interval that
    [setInterval(loadApps, 30000)] returned is active (only the cleanup of
    the effect, at unmount, clears it), and its tick requests the list of
    apps. *)
Theorem refresh_never_stops (navigatorLanguage : string) (es : list Event) :
  let w := run es (mount navigatorLanguage) in
  timers w !! 1%positive = Some Refresh
  /\ invoked (step (Tick 1) w) = invoked w ++ [get_running_apps]
  /\ promises (step (Tick 1) w) !! nextPromise w = Some LoadApps_resume.
Proof.
  intros w.
  assert (timers w !! 1%positive = Some Refresh) as Hrefresh.
  { unfold w.
    apply (run_invariant (fun w => wellformed w /\ timers w !! 1%positive = Some Refresh));
      [|split; [apply wellformed_mount|done]].
    clear. intros e w [Hw Hone]. split; [by apply wellformed_step|].
    destruct Hw as [Hlt Href].
    assert (forall slot, timers (clearInterval (intervalRef slot w) w) !! 1%positive
                         = Some Refresh) as Hclear.
    { intros slot. destruct (intervalRef slot w) as [h|] eqn:Hslot; [|done].
      simpl. rewrite lookup_delete_ne; [done|]. intros ->.
      destruct (Href slot 1%positive Hslot) as [_ Hkind].
      destruct (Hkind Refresh Hone) as [r Hr]. by destruct slot. }
    pose proof (Hlt 1%positive Refresh Hone) as Hnext.
    destruct e; simpl; try done.
    - destruct (timers w !! h) as [[r|r|]|]; try done.
      + unfold appTick. destruct (Num.le _ _); [|done].
        simpl. rewrite timers_executeAppShutdown. apply (Hclear AppSlot).
      + unfold sysTick. destruct (Num.le _ _); [|done].
        simpl. rewrite timers_executeSysAction. apply (Hclear SysSlot).
    - destruct (promises w !! p) as [k|]; [|done].
      destruct (expected k v); [|done]. by rewrite timers_resume.
    - destruct (promises w !! p) as [k|]; [|done]. by rewrite timers_abandon.
    - case_bool_decide; [|done]. unfold toggleSelection.
      destruct (selectedApp (state w)); [case_decide|]; done.
    - destruct (startApp_disabled (state w)); [done|].
      unfold startAppTimer. destruct (selectedApp (state w)); [|done].
      destruct (Num.le _ _); [done|]. simpl. rewrite lookup_insert_ne; [done|lia].
    - apply (Hclear AppSlot).
    - destruct (startSys_disabled (state w)); [done|].
      unfold startSysTimer. destruct (Num.le _ _); [done|].
      simpl. rewrite lookup_insert_ne; [done|lia].
    - apply (Hclear SysSlot). }
  split; [done|]. clearbody w. simpl. rewrite Hrefresh. simpl.
  by rewrite lookup_insert_eq.
Qed.

(** X17.  An event makes at most one call to the backend, added after the
    calls made before: in particular [kill_process] and the shutdown that is
    chained to it are never invoked in the same event. *)
Theorem one_call_per_event (e : Event) (w : World) :
  invoked (step e w) = invoked w
  \/ exists c, invoked (step e w) = invoked w ++ [c].
Proof.
  destruct e; simpl; try (by left).
  - destruct (timers w !! h) as [[r|r|]|]; try (by left).
    + unfold appTick. destruct (Num.le _ _); [|by left].
      unfold executeAppShutdown.
      destruct (selectedApp r), (appIntervalRef w); simpl; eauto.
    + unfold sysTick. destruct (Num.le _ _); [|by left].
      rewrite executeSysAction_power.
      destruct (power_command _), (sysIntervalRef w); simpl; eauto.
    + right. by eexists.
  - right. by eexists.
  - destruct (promises w !! p) as [k|]; [|by left].
    destruct (expected k v); [|by left].
    destruct k as [|r|r|]; simpl; eauto.
    + destruct v; eauto.
    + destruct (shutdownAfter r); simpl; eauto.
  - destruct (promises w !! p) as [k|]; [|by left]. rewrite kills_abandon. by left.
  - case_bool_decide; [|by left]. unfold toggleSelection.
    destruct (selectedApp (state w)); [case_decide|]; by left.
  - destruct (startApp_disabled (state w)); [by left|].
    unfold startAppTimer. destruct (selectedApp (state w)); [|by left].
    destruct (Num.le _ _); by left.
  - destruct (appIntervalRef w); by left.
  - destruct (startSys_disabled (state w)); [by left|].
    unfold startSysTimer. destruct (Num.le _ _); by left.
  - destruct (sysIntervalRef w); by left.
Qed.

(** ** Edits during a countdown *)








Example edits_do_not_reach_fire_values :
  let fired := run demo_edits (step ClickStartSys demo_ready) in
  sysAction (state fired) = "sleep"
  /\ invoked fired = [get_running_apps; system_shutdown].
Proof. vm_compute. auto. Qed.

(** * Display names that are not empty *)

Section Trim.

Local Open Scope string_scope.

Lemma rev_app_append (s u : string) : String.rev_app s u = String.rev s ++ u.
Proof.
  revert u. induction s as [|c s IH]; intros u; [done|].
  unfold String.rev. simpl. rewrite (IH (String c u)), (IH (String c "")).
  by rewrite append_assoc.
Qed.

Lemma rev_cons c (s : string) : String.rev (String c s) = String.rev s ++ String c "".
Proof. unfold String.rev at 1. simpl. apply rev_app_append. Qed.

Lemma rev_append (s u : string) : String.rev (s ++ u) = String.rev u ++ String.rev s.
Proof.
  induction s as [|c s IH].
  - by rewrite append_empty, append_empty_r.
  - by rewrite append_cons, !rev_cons, IH, append_assoc.
Qed.

Lemma rev_involutive (s : string) : String.rev (String.rev s) = s.
Proof.
  induction s as [|c s IH]; [done|]. by rewrite rev_cons, rev_append, IH.
Qed.

Lemma startsWith_split (s p : string) :
  JS.startsWith s p = true -> s = p ++ JS.drop (String.length p) s.
Proof.
  unfold JS.startsWith. revert s. induction p as [|c p IH]; intros s Hs.
  - by destruct s.
  - destruct s as [|c' s]; [done|]. simpl in Hs.
    destruct (ascii_dec c c') as [->|]; [|done].
    rewrite append_cons. simpl. by rewrite <- IH.
Qed.

Lemma startsWith_append (s u p : string) :
  JS.startsWith s p = true -> JS.startsWith (s ++ u) p = true.
Proof.
  unfold JS.startsWith. revert s. induction p as [|c p IH]; intros s Hs.
  - apply prefix_empty.
  - destruct s as [|c' s]; [done|]. rewrite append_cons. simpl in *.
    destruct (ascii_dec c c'); [by apply IH|done].
Qed.

Lemma startsWith_refl (s u : string) : JS.startsWith (s ++ u) s = true.
Proof.
  unfold JS.startsWith. induction s as [|c s IH]; [apply prefix_empty|].
  rewrite append_cons. simpl. by destruct (ascii_dec c c).
Qed.

Lemma startsWith_take (s p : string) (i : nat) :
  JS.startsWith (JS.take i s) p = true -> JS.startsWith s p = true.
Proof.
  unfold JS.startsWith. revert s i. induction p as [|c p IH]; intros s i Hs.
  - apply prefix_empty.
  - destruct i as [|i], s as [|c' s]; try done. simpl in *.
    destruct (ascii_dec c c'); [by eapply IH|done].
Qed.

Lemma leading_space_None (s : string) :
  JS.leading_space s = None <->
  forall ws, In ws JS.whitespace -> JS.startsWith s ws = false.
Proof.
  unfold JS.leading_space. split.
  - intros Hnone ws Hin. by eapply find_none in Hnone.
  - intros Hall. destruct (List.find _ _) as [ws|] eqn:Hfind; [|done].
    apply find_some in Hfind as [Hin Hws]. by rewrite Hall in Hws.
Qed.

(** A string that does not begin with white space is left by [trimStart]. *)
Lemma trimStart_clean (s : string) : JS.leading_space s = None -> JS.trimStart s = s.
Proof.
  intros Hnone. unfold JS.trimStart. destruct (String.length s); simpl; by rewrite Hnone.
Qed.

(** If the scan from the end removes everything, the string was empty or
    begins with white space. *)
Lemma trimEnd_from_empty (fuel : nat) :
  forall r : string,
    JS.trimEnd_from fuel r = "" ->
    r = "" \/ exists ws, In ws JS.whitespace /\ JS.startsWith (String.rev r) ws = true.
Proof.
  induction fuel as [|fuel IH]; intros r Hr.
  - simpl in Hr. destruct (JS.trailing_space r); by left.
  - simpl in Hr. destruct (JS.trailing_space r) as [ws|] eqn:Hws; [|by left].
    unfold JS.trailing_space in Hws. apply find_some in Hws as [Hin Hstart].
    right. apply startsWith_split in Hstart.
    assert (String.length (String.rev ws) = String.length ws) as Hlen.
    { clear. induction ws as [|c ws IH]; [done|].
      rewrite rev_cons, length_append. simpl. rewrite IH. lia. }
    rewrite Hlen in Hstart.
    remember (JS.drop (String.length ws) r) as r' eqn:Hr'. clear Hr'. subst r.
    rewrite rev_append, rev_involutive.
    destruct (IH _ Hr) as [->|(ws' & Hin' & Hstart')].
    + exists ws. split; [done|]. change (String.rev "") with "".
      rewrite append_empty. rewrite <- (append_empty_r ws) at 1.
      apply startsWith_refl.
    + exists ws'. split; [done|]. by apply startsWith_append.
Qed.

Lemma trim_nonempty (s : string) :
  s <> "" -> JS.leading_space s = None -> JS.trim s <> "".
Proof.
  intros Hs Hnone. unfold JS.trim. rewrite trimStart_clean by done.
  unfold JS.trimEnd. intros Hempty.
  assert (JS.trimEnd_from (String.length s) (String.rev s) = "") as Hscan.
  { rewrite <- (rev_involutive (JS.trimEnd_from _ _)). by rewrite Hempty. }
  apply trimEnd_from_empty in Hscan as [Hrev|(ws & Hin & Hstart)].
  - apply Hs. by rewrite <- (rev_involutive s), Hrev.
  - rewrite rev_involutive in Hstart.
    apply (proj1 (leading_space_None s)) with (ws := ws) in Hnone; [|done].
    congruence.
Qed.

End Trim.

(** X19.  A title that is not empty and does not begin with white space
    always gives a name that is not empty: the friendly name of a browser,
    the text before the separator, or the title itself. *)
Theorem display_name_nonempty (app : ProcessInfo) :
  title app <> "" ->
  JS.leading_space (title app) = None ->
  getAppDisplayName app <> "".
Proof.
  intros Hfull Hclean. unfold getAppDisplayName.
  rewrite decide_False by done.
  rewrite browser_loop_find, (separator_loop_find _ _ separators_nonempty).
  remember (List.find (JS.includes (title app)) separators) as found eqn:Hsep.
  symmetry in Hsep.
  destruct (List.find _ browsers) as [[key friendly]|] eqn:Hbrowser.
  { simpl. apply find_some in Hbrowser as [Hin _].
    unfold browsers in Hin. simpl in Hin.
    destruct Hin as [?|[?|[?|[?|[?|[]]]]]]; by simplify_eq. }
  simpl. destruct found as [sep|]; [|done].
  destruct (JS.indexOf (title app) sep) as [i|] eqn:Hi; [|done]. simpl.
  assert (JS.startsWith sep " " = true) as Hspace.
  { apply find_some in Hsep as [Hin _]. unfold separators in Hin. simpl in Hin.
    destruct Hin as [<-|[<-|[<-|[<-|[]]]]]; reflexivity. }
  assert (JS.startsWith (title app) " " = false) as Hnospace.
  { apply (proj1 (leading_space_None _) Hclean). unfold JS.whitespace. simpl. tauto. }
  destruct i as [|i].
  - destruct (title app) as [|c rest] eqn:Htitle; [done|].
    cbn [JS.indexOf] in Hi.
    destruct (JS.startsWith (String c rest) sep) eqn:Hstart.
    + apply startsWith_split in Hstart. apply startsWith_split in Hspace.
      rewrite Hspace in Hstart. rewrite Hstart in Hnospace.
      rewrite append_assoc in Hnospace. by rewrite startsWith_refl in Hnospace.
    + by destruct (JS.indexOf rest sep).
  - apply trim_nonempty.
    + by destruct (title app).
    + apply leading_space_None. intros ws Hin.
      destruct (JS.startsWith (JS.take (S i) (title app)) ws) eqn:Hstart; [|done].
      apply startsWith_take in Hstart.
      by rewrite (proj1 (leading_space_None _) Hclean ws Hin) in Hstart.
Qed.

Lemma display_name_nonempty_witness :
  title demo_app <> "" /\ getAppDisplayName demo_app <> "".
Proof.
  assert (title demo_app <> "") as Hfull by discriminate.
  split; [exact Hfull|].
  apply (display_name_nonempty demo_app Hfull). vm_compute. reflexivity.
Defined.

(** * The revision without the hours field *)

(** With zero hours the total is decided, and converted to seconds, as the
    minutes alone were: the sum of zero and a binary64 is that binary64. *)
Lemma minutes_alone (field : string) :
  let x := Num.parseFloat field in
  let total := Num.add (Num.of_Z 0) (Num.or x (Num.of_Z 0)) in
  Num.le total (Num.of_Z 0) = Previous.isNaN x || Num.le x (Num.of_Z 0)
  /\ (Num.le total (Num.of_Z 0) = false -> seconds total = seconds x).
Proof.
  intros x total. unfold total.
  destruct x as [| | |q] eqn:Hx; [by vm_compute..|].
  unfold Num.or, Num.truthy.
  destruct (Qeq_bool q 0) eqn:Hzero; cbn [negb].
  - apply Qeq_bool_eq in Hzero. rewrite add_of_Z by done. split.
    + cbn [Previous.isNaN orb]. unfold Num.le, Num.of_Z.
      symmetry. apply Qle_bool_iff. rewrite Hzero. apply Qle_refl.
    + by rewrite le_of_Z.
  - assert (Num.add (Num.of_Z 0) (Fin q) = Fin q) as ->; [|done].
    unfold Num.add, Num.of_Z.
    rewrite (round64_comp _ q) by apply Qplus_0_l.
    by apply (parseFloat_rounded field).
Qed.

(** X20.  When the hours read as zero, the functions behind the Start
    buttons do what they did in the revision that had the minutes only: the
    same world when the countdown is started, and the refusal of the same
    inputs, with another wording of the alert. *)
Theorem start_agrees_with_previous (slot : Slot) (render : State) (w : World) :
  hoursEntered slot render = Num.of_Z 0 ->
  Previous.startTimer slot render w = startTimer slot render w
  \/ (Previous.startTimer slot render w = alert (Previous.t render Key.invalidTime) w
      /\ startTimer slot render w = alert (t render Key.invalidTime) w).
Proof.
  intros Hhours.
  assert (entered slot render
          = Num.add (Num.of_Z 0)
              (Num.or (Num.parseFloat
                         (match slot with
                          | AppSlot => appMinutes render
                          | SysSlot => sysMinutes render
                          end)) (Num.of_Z 0))) as Hentered.
  { rewrite entered_fields, Hhours, mul_of_Z by done. by destruct slot. }
  destruct slot; unfold entered in Hentered;
    unfold Previous.startTimer, startTimer.
  - unfold Previous.startAppTimer, startAppTimer.
    destruct (selectedApp render); [|by left].
    rewrite Hentered.
    destruct (minutes_alone (appMinutes render)) as [Hle Hsec].
    cbv zeta in Hle, Hsec. rewrite <- Hle.
    destruct (Num.le _ _) eqn:Hdecide; [by right|].
    left. rewrite Hsec by done. reflexivity.
  - unfold Previous.startSysTimer, startSysTimer.
    rewrite Hentered.
    destruct (minutes_alone (sysMinutes render)) as [Hle Hsec].
    cbv zeta in Hle, Hsec. rewrite <- Hle.
    destruct (Num.le _ _) eqn:Hdecide; [by right|].
    left. rewrite Hsec by done. reflexivity.
Qed.

Lemma start_agrees_with_previous_witness :
  hoursEntered AppSlot (state demo_ready) = Num.of_Z 0
  /\ (Previous.startTimer AppSlot (state demo_ready) demo_ready
      = startTimer AppSlot (state demo_ready) demo_ready
      \/ (Previous.startTimer AppSlot (state demo_ready) demo_ready
          = alert (Previous.t (state demo_ready) Key.invalidTime) demo_ready
          /\ startTimer AppSlot (state demo_ready) demo_ready
             = alert (t (state demo_ready) Key.invalidTime) demo_ready)).
Proof.
  assert (hoursEntered AppSlot (state demo_ready) = Num.of_Z 0) as Hhours
    by (vm_compute; reflexivity).
  split; [exact Hhours|].
  exact (start_agrees_with_previous AppSlot (state demo_ready) demo_ready Hhours).
Defined.

(** * The selection and the Start button *)

(** X21.  The selection is changed by a click on an entry of the list and
    when a call awaited by [executeAppShutdown] resolves, and by nothing
    else: no refresh, no tick, no start or cancel and no edit of a field
    selects or deselects a process. *)
Theorem selection_changes_only_by_click_or_fire (e : Event) (w : World) :
  ~ selection_source w e ->
  selectedApp (state (step e w)) = selectedApp (state w).
Proof.
  intros Hnot. destruct e; simpl; try done.
  - destruct (timers w !! h) as [[r|r|]|]; try done.
    + unfold appTick, executeAppShutdown.
      by destruct (Num.le _ _), (selectedApp r), (appIntervalRef w).
    + unfold sysTick. destruct (Num.le _ _); [|done].
      rewrite executeSysAction_power.
      by destruct (power_command _), (sysIntervalRef w).
  - destruct (promises w !! p) as [k|] eqn:Hp; [|done].
    destruct (expected k v); [|done].
    destruct k as [|r|r|]; simpl; try done.
    + by destruct v.
    + destruct Hnot. right. exists p, v, r. by split; [|left].
    + destruct Hnot. right. exists p, v, r. by split; [|right].
  - destruct (promises w !! p) as [k|]; [|done]. by destruct k.
  - destruct Hnot. left. by exists app.
  - destruct (startApp_disabled (state w)); [done|].
    unfold startAppTimer. destruct (selectedApp (state w)) eqn:Hsel; [|by simpl].
    destruct (Num.le _ _); by simpl.
  - by destruct (appIntervalRef w).
  - destruct (startSys_disabled (state w)); [done|].
    unfold startSysTimer. by destruct (Num.le _ _).
  - by destruct (sysIntervalRef w).
Qed.

Lemma selection_changes_only_by_click_or_fire_witness :
  ~ selection_source demo_ready WindowChanged
  /\ selectedApp (state (step WindowChanged demo_ready)) = selectedApp (state demo_ready).
Proof.
  assert (~ selection_source demo_ready WindowChanged) as Hnot.
  { intros [(app & Heq)|(p & v & r & Heq & _)]; discriminate Heq. }
  split; [exact Hnot|].
  exact (selection_changes_only_by_click_or_fire WindowChanged demo_ready Hnot).
Defined.


